(** * gravmag: gravitational and magnetic fields of rectangular prisms

    A shallow embedding of [gravmag/models/rectangular_prism.py] (numpy
    broadcasting over D x P matrices) and of
    [gravmag/models/rectangular_prism_numba.py] (scalar accumulation loop),
    with the closed-form kernels of Nagy et al. (2000, 2002).

    Python floats are read as real numbers: every statement below is a
    statement of exact real arithmetic, the arithmetic the closed-form
    formulas are written in.  Rounding is modelled in one place only, the
    unit-scaling block of [grav], whose multiplications are also given in
    IEEE 754 binary64 (module [binary64]). *)

From Stdlib Require Import Reals Lra Lia String DecimalString ZArith Bool.
From Stdlib Require Import SpecFloat List.
Import ListNotations.

Open Scope R_scope.

(** ** numpy arrays *)

Module np.

(** A 1-d array is a list, a 2-d array a list of rows. *)
Abbreviation array1 := (list R).
Abbreviation array2 := (list (list R)).

Definition size (a : array1) : nat := length a.
Definition range (n : nat) : list nat := seq 0 n.

(** [a[i]], [a[i, j]] and the in-place [a[i] = v].  An index out of range
    raises [IndexError] in Python; no call below leaves the range when the
    shapes agree, and the model reads [0] and writes nothing there. *)
Definition get (a : array1) (i : nat) : R := nth i a 0.
Definition get2 (a : array2) (i j : nat) : R := nth j (nth i a []) 0.

Fixpoint set (a : array1) (i : nat) (v : R) : array1 :=
  match a, i with
  | [], _ => []
  | _ :: t, O => v :: t
  | h :: t, S i' => h :: set t i' v
  end.

Definition zeros (D : nat) : array1 := repeat 0 D.
Definition zeros2 (D P : nat) : array2 := repeat (repeat 0 P) D.

(** [v[:, np.newaxis]] has shape (n, 1) and [v[np.newaxis, :]] shape (1, n). *)
Definition newaxis_col (v : array1) : array2 := map (fun a => [a]) v.
Definition newaxis_row (v : array1) : array2 := [v].

(** Broadcasting of a binary operation along one axis: an axis of length
    one is stretched over the other operand; otherwise the operation is
    entrywise (numpy raises on two different lengths, none of them one;
    [combine] stops at the shorter). *)
Definition broadcast {A B C : Type} (f : A -> B -> C)
    (xs : list A) (ys : list B) : list C :=
  match xs, ys with
  | [x], _ => map (f x) ys
  | _, [y] => map (fun x => f x y) xs
  | _, _ => map (fun xy => f (fst xy) (snd xy)) (combine xs ys)
  end.

Definition lift1 (f : R -> R) (a : array2) : array2 := map (map f) a.
Definition lift2 (f : R -> R -> R) (a b : array2) : array2 :=
  broadcast (broadcast f) a b.

Definition add : array2 -> array2 -> array2 := lift2 Rplus.
Definition sub : array2 -> array2 -> array2 := lift2 Rminus.
Definition mul : array2 -> array2 -> array2 := lift2 Rmult.
Definition neg : array2 -> array2 := lift1 Ropp.
Definition sqrt : array2 -> array2 := lift1 R_sqrt.sqrt.
(** [a ** n] for a literal exponent, and [c * a] for a Python scalar [c]. *)
Definition power (a : array2) (n : nat) : array2 := lift1 (fun v => v ^ n) a.
Definition scale (c : R) (a : array2) : array2 := lift1 (Rmult c) a.

(** 1-d versions: [a + b] and the in-place [a *= c]. *)
Definition add1 (a b : array1) : array1 := broadcast Rplus a b.
Definition imul1 (a : array1) (c : R) : array1 := map (fun v => v * c) a.

(** [np.sum(a, axis=1)]: one sum per row. *)
Definition sum1 (a : array1) : R := fold_left Rplus a 0.
Definition sum_axis1 (a : array2) : array1 := map sum1 a.

(** The D x P array whose entry (l, p) is [f l p]. *)
Definition tabulate (D P : nat) (f : nat -> nat -> R) : array2 :=
  map (fun l => map (f l) (range P)) (range D).

End np.

Declare Scope np_scope.
Delimit Scope np_scope with np.
Notation "a + b" := (np.add a b) : np_scope.
Notation "a - b" := (np.sub a b) : np_scope.
Notation "a * b" := (np.mul a b) : np_scope.
Notation "- a" := (np.neg a) : np_scope.
Notation "a ** n" := (np.power a n) (at level 30, right associativity) : np_scope.
Notation "c .* a" := (np.scale c a) (at level 40, left associativity) : np_scope.
Notation "a .[ i ]" := (np.get a i) (at level 1, format "a .[ i ]").
Notation "a .[ i , j ]" := (np.get2 a i j) (at level 1, format "a .[ i ,  j ]").

(** ** Exceptions and the call log *)

(** [ValueError] is the exception the two modules raise themselves;
    [ShapeMismatch] stands for whatever the validation layer raises. *)
Inductive exn : Type :=
| ValueError (msg : string)
| ShapeMismatch.

(** One event per call into the corner-summation engine
    ([iterate_over_vertices], [jit_grav], [jit_mag]). *)
Inductive event : Type :=
| EngineCall.

(** Computations that may raise and that log their engine calls. *)
Definition M (A : Type) : Type := list event -> list event * (exn + A).

Definition ret {A : Type} (a : A) : M A := fun log => (log, inr a).
Definition raise {A : Type} (e : exn) : M A := fun log => (log, inl e).
Definition bind {A B : Type} (m : M A) (k : A -> M B) : M B :=
  fun log =>
    match m log with
    | (log', inl e) => (log', inl e)
    | (log', inr a) => k a log'
    end.
Definition engine {A : Type} (a : A) : M A :=
  fun log => (log ++ [EngineCall], inr a).

Notation "x <- m ;; k" := (bind m (fun x => k))
  (at level 61, m at next level, right associativity).

Definition run {A : Type} (m : M A) : list event * (exn + A) := m [].
Definition outcome {A : Type} (m : M A) : exn + A := snd (run m).
Definition calls {A : Type} (m : M A) : list event := fst (run m).

(** ** Collaborators outside the two modules *)

(** Python dictionaries with a fixed key set are records; [d.{key}] is
    [d[key]].  A key outside the set raises [KeyError]; every key used below
    is a literal or is built from an index in [[1; 2]], and the model reads an
    empty array elsewhere. *)
Record coordinates_dict : Type := mk_coordinates {
  key_x : np.array1;
  key_y : np.array1;
  key_z : np.array1
}.

Record prisms_dict : Type := mk_prisms {
  key_x1 : np.array1;
  key_x2 : np.array1;
  key_y1 : np.array1;
  key_y2 : np.array1;
  key_z1 : np.array1;
  key_z2 : np.array1
}.

Class GetItem (D : Type) : Type := getitem : D -> string -> np.array1.

#[global] Instance coordinates_getitem : GetItem coordinates_dict :=
  fun d key =>
    match key with
    | "x"%string => key_x d
    | "y"%string => key_y d
    | "z"%string => key_z d
    | _ => []
    end.

#[global] Instance prisms_getitem : GetItem prisms_dict :=
  fun d key =>
    match key with
    | "x1"%string => key_x1 d
    | "x2"%string => key_x2 d
    | "y1"%string => key_y1 d
    | "y2"%string => key_y2 d
    | "z1"%string => key_z1 d
    | "z2"%string => key_z2 d
    | _ => []
    end.

Notation "d .{ key }" := (getitem d key%string) (at level 1, format "d .{ key }").

(** ["{}".format(i)] for an integer [i]. *)
Definition format (i : Z) : string := NilZero.string_of_int (Z.to_int i).

(** Lookup in a dictionary with string keys, given as its items:
    [Some] the value when [key in d], [None] otherwise. *)
Fixpoint lookup {V : Type} (key : string) (d : list (string * V)) : option V :=
  match d with
  | [] => None
  | (k, v) :: rest => if String.eqb key k then Some v else lookup key rest
  end.

(** [key in names] for a list of strings. *)
Definition member (key : string) (names : list string) : bool :=
  existsb (String.eqb key) names.

(** The physical constants of [gravmag.constants].  The module is not part
    of the sources at hand; the values are taken as a parameter [cts]. *)
Record constants : Type := mk_constants {
  GRAVITATIONAL_CONST : R;
  SI2MGAL : R;
  SI2EOTVOS : R;
  CM : R;
  T2NT : R;
  T2MT : R
}.

(** The arctangent of two arguments, with values in (-PI, PI]
    ([np.arctan2] on real numbers). *)
Definition atan2 (y x : R) : R :=
  if Rlt_dec 0 x then atan (y / x)
  else if Rlt_dec x 0 then
    (if Rle_dec 0 y then atan (y / x) + PI else atan (y / x) - PI)
  else if Rlt_dec 0 y then PI / 2
  else if Rlt_dec y 0 then - (PI / 2)
  else 0.

Module utils.

(** Modelled from the spec: [gravmag.utils] is not part of the sources at
    hand.  Section 4.1: [safe_log(t)] is the natural logarithm of [t], and
    [0] when the argument is [<= 0]. *)
Definition safe_log_entrywise (t : R) : R :=
  if Rle_dec t 0 then 0 else ln t.

(** Modelled from the spec: [gravmag.utils] is not part of the sources at
    hand.  Section 4.1: [safe_atan2(numerator, denominator)] is
    [atan2(numerator, denominator)] except when [denominator == 0], where
    it is [0] whatever the sign of the numerator. *)
Definition safe_atan2_entrywise (numerator denominator : R) : R :=
  if Req_dec_T denominator 0 then 0 else atan2 numerator denominator.

(** Modelled from the spec: the array versions "operate elementwise"
    (section 4.1). *)
Definition safe_log (t : np.array2) : np.array2 :=
  np.lift1 safe_log_entrywise t.
Definition safe_atan2 (numerator denominator : np.array2) : np.array2 :=
  np.lift2 safe_atan2_entrywise numerator denominator.

End utils.

Module idist.

(** Modelled from the spec: [gravmag.inverse_distance] is not part of the
    sources at hand.  [sedm] is the Squared Euclidean Distance Matrix
    between the data points and the source points, whose square root is
    the R = sqrt(X^2 + Y^2 + Z^2) of section 4.3. *)
Definition sedm (data_points source_points : coordinates_dict) : np.array2 :=
  ((np.newaxis_col data_points.{"x"} - np.newaxis_row source_points.{"x"}) ** 2
   + (np.newaxis_col data_points.{"y"} - np.newaxis_row source_points.{"y"}) ** 2
   + (np.newaxis_col data_points.{"z"} - np.newaxis_row source_points.{"z"}) ** 2)%np.

End idist.

Module check.

(** Modelled from the spec: [gravmag.check] is not part of the sources at
    hand.  Section 7: the validation layer detects coordinate arrays of
    inconsistent lengths and a source-property array whose length is not
    the prism count, before the summation engine is entered.  Both checks
    take a dictionary and return its number of points, of prisms. *)
Definition all_of_length (n : nat) (rows : list np.array1) : bool :=
  forallb (fun r => Nat.eqb (length r) n) rows.

Definition are_coordinates (c : coordinates_dict) : M nat :=
  let D := np.size c.{"x"} in
  if all_of_length D [c.{"y"}; c.{"z"}] then ret D else raise ShapeMismatch.

Definition are_rectangular_prisms (p : prisms_dict) : M nat :=
  let P := np.size p.{"x1"} in
  if all_of_length P [p.{"x2"}; p.{"y1"}; p.{"y2"}; p.{"z1"}; p.{"z2"}]
  then ret P else raise ShapeMismatch.

(** [is_array(a, ndim=1, shape=(P,))]. *)
Definition is_array (a : np.array1) (shape : nat) : M unit :=
  if Nat.eqb (np.size a) shape then ret tt else raise ShapeMismatch.

End check.

(** ** [gravmag/models/rectangular_prism.py] *)

Module rectangular_prism.

(** A kernel maps the D x P arrays X, Y, Z, R to a D x P array. *)
Definition kernel : Type :=
  np.array2 -> np.array2 -> np.array2 -> np.array2 -> np.array2.

Section kernels.
Local Open Scope np_scope.

Definition kernel_potential_grav : kernel := fun X Y Z R =>
  X * Y * utils.safe_log (Z + R)
  + X * Z * utils.safe_log (Y + R)
  + Y * Z * utils.safe_log (X + R)
  - 0.5 .* Y ** 2 * utils.safe_atan2 (Z * X) (Y * R)
  - 0.5 .* X ** 2 * utils.safe_atan2 (Z * Y) (X * R)
  - 0.5 .* Z ** 2 * utils.safe_atan2 (Y * X) (Z * R).

Definition kernel_x : kernel := fun X Y Z R =>
  - (Y * utils.safe_log (Z + R)
     + Z * utils.safe_log (Y + R)
     - X * utils.safe_atan2 (Y * Z) (X * R)).

Definition kernel_y : kernel := fun X Y Z R =>
  - (X * utils.safe_log (Z + R)
     + Z * utils.safe_log (X + R)
     - Y * utils.safe_atan2 (X * Z) (Y * R)).

Definition kernel_z : kernel := fun X Y Z R =>
  - (Y * utils.safe_log (X + R)
     + X * utils.safe_log (Y + R)
     - Z * utils.safe_atan2 (Y * X) (Z * R)).

Definition kernel_xx : kernel := fun X Y Z R =>
  - utils.safe_atan2 (Y * Z) (X * R).

Definition kernel_xy : kernel := fun X Y Z R =>
  utils.safe_log (Z + R).

Definition kernel_xz : kernel := fun X Y Z R =>
  utils.safe_log (Y + R).

Definition kernel_yy : kernel := fun X Y Z R =>
  - utils.safe_atan2 (X * Z) (Y * R).

Definition kernel_yz : kernel := fun X Y Z R =>
  utils.safe_log (X + R).

Definition kernel_zz : kernel := fun X Y Z R =>
  - utils.safe_atan2 (Y * X) (Z * R).

End kernels.

(** One pass of the innermost loop body, for the vertex (i, j, k). *)
Definition vertex_step (coordinates : coordinates_dict) (prisms : prisms_dict)
    (kernel : kernel) (i j k : Z) (predicted_field : np.array2) : np.array2 :=
  let sign := ((-1) ^ (i + j + k))%Z in
  let vertex_x := ("x" ++ format i)%string in
  let vertex_y := ("y" ++ format j)%string in
  let vertex_z := ("z" ++ format k)%string in
  let vertex := {| key_x := prisms.{vertex_x};
                   key_y := prisms.{vertex_y};
                   key_z := prisms.{vertex_z} |} in
  let R := np.sqrt (idist.sedm coordinates vertex) in
  let X := (- np.newaxis_col coordinates.{"x"} + np.newaxis_row vertex.{"x"})%np in
  let Y := (- np.newaxis_col coordinates.{"y"} + np.newaxis_row vertex.{"y"})%np in
  let Z := (- np.newaxis_col coordinates.{"z"} + np.newaxis_row vertex.{"z"})%np in
  (predicted_field + IZR sign .* kernel X Y Z R)%np.

(** The array [predicted_field] after the three nested loops. *)
Definition vertices_loop (coordinates : coordinates_dict) (prisms : prisms_dict)
    (kernel : kernel) (predicted_field : np.array2) : np.array2 :=
  fold_left (fun predicted_field i =>
    fold_left (fun predicted_field j =>
      fold_left (fun predicted_field k =>
        vertex_step coordinates prisms kernel i j k predicted_field)
        [1; 2]%Z predicted_field)
      [1; 2]%Z predicted_field)
    [1; 2]%Z predicted_field.

Definition iterate_over_vertices (coordinates : coordinates_dict)
    (prisms : prisms_dict) (sigma : np.array1) (kernel : kernel) : np.array1 :=
  let predicted_field :=
    np.zeros2 (np.size coordinates.{"x"}) (np.size prisms.{"x1"}) in
  let predicted_field := vertices_loop coordinates prisms kernel predicted_field in
  np.sum_axis1 (predicted_field * np.newaxis_row sigma)%np.

Section fields.
Variable cts : constants.

Definition grav_kernels : list (string * kernel) :=
  [ ("potential", kernel_potential_grav);
    ("x", kernel_x);
    ("y", kernel_y);
    ("z", kernel_z);
    ("xx", kernel_xx);
    ("xy", kernel_xy);
    ("xz", kernel_xz);
    ("yy", kernel_yy);
    ("yz", kernel_yz);
    ("zz", kernel_zz) ]%string.

Definition grav (coordinates : coordinates_dict) (prisms : prisms_dict)
    (density : np.array1) (field : string) (scale : bool) : M np.array1 :=
  D <- check.are_coordinates coordinates ;;
  P <- check.are_rectangular_prisms prisms ;;
  _ <- check.is_array density P ;;
  match lookup field grav_kernels with
  | None =>
      raise (ValueError
        ("Gravitational field " ++ field ++ " not recognized")%string)
  | Some kernel_of_field =>
      result <- engine
        (iterate_over_vertices coordinates prisms density kernel_of_field) ;;
      ret (if scale then
             let result := np.imul1 result (GRAVITATIONAL_CONST cts) in
             let result :=
               if member field ["x"; "y"; "z"]%string
               then np.imul1 result (SI2MGAL cts) else result in
             let result :=
               if member field ["xx"; "xy"; "xz"; "yy"; "yz"; "zz"]%string
               then np.imul1 result (SI2EOTVOS cts) else result in
             result
           else result)
  end.

(** The inner dictionaries [{"x": kx, "y": ky, "z": kz}] are triples
    (kx, ky, kz). *)
Definition mag_kernels : list (string * (kernel * kernel * kernel)) :=
  [ ("potential", (kernel_x, kernel_y, kernel_z));
    ("z", (kernel_xz, kernel_yz, kernel_zz));
    ("y", (kernel_xy, kernel_yy, kernel_yz));
    ("x", (kernel_xx, kernel_xy, kernel_xz)) ]%string.

Definition mag (coordinates : coordinates_dict) (prisms : prisms_dict)
    (mx my mz : np.array1) (field : string) (scale : bool) : M np.array1 :=
  D <- check.are_coordinates coordinates ;;
  P <- check.are_rectangular_prisms prisms ;;
  _ <- check.is_array mx P ;;
  _ <- check.is_array my P ;;
  _ <- check.is_array mz P ;;
  match lookup field mag_kernels with
  | None =>
      raise (ValueError
        ("Magnetic field " ++ field ++ " not recognized")%string)
  | Some (kernel_for_x, kernel_for_y, kernel_for_z) =>
      resultx <- engine
        (iterate_over_vertices coordinates prisms mx kernel_for_x) ;;
      resulty <- engine
        (iterate_over_vertices coordinates prisms my kernel_for_y) ;;
      resultz <- engine
        (iterate_over_vertices coordinates prisms mz kernel_for_z) ;;
      let result := np.add1 (np.add1 resultx resulty) resultz in
      ret (if scale then
             let result := np.imul1 result (CM cts) in
             let result :=
               if member field ["x"; "y"; "z"]%string
               then np.imul1 result (T2NT cts) else result in
             let result :=
               if String.eqb field "potential"
               then np.imul1 result (- T2MT cts) else result in
             result
           else result)
  end.

End fields.

End rectangular_prism.

(** ** [gravmag/models/rectangular_prism_numba.py] *)

Module rectangular_prism_numba.

(** A kernel maps the scalars X, Y, Z to a scalar. *)
Definition kernel : Type := R -> R -> R -> R.

Definition kernel_inverse_r : kernel := fun X Y Z =>
  let R := sqrt (X ^ 2 + Y ^ 2 + Z ^ 2) in
  Y * X * utils.safe_log_entrywise (Z + R)
  + X * Z * utils.safe_log_entrywise (Y + R)
  + Y * Z * utils.safe_log_entrywise (X + R)
  - 0.5 * Y ^ 2 * utils.safe_atan2_entrywise (Z * X) (Y * R)
  - 0.5 * X ^ 2 * utils.safe_atan2_entrywise (Z * Y) (X * R)
  - 0.5 * Z ^ 2 * utils.safe_atan2_entrywise (Y * X) (Z * R).

Definition kernel_dz : kernel := fun X Y Z =>
  let R := sqrt (X ^ 2 + Y ^ 2 + Z ^ 2) in
  - (Y * utils.safe_log_entrywise (X + R)
     + X * utils.safe_log_entrywise (Y + R)
     - Z * utils.safe_atan2_entrywise (Y * X) (Z * R)).

Definition kernel_dy : kernel := fun X Y Z =>
  let R := sqrt (X ^ 2 + Y ^ 2 + Z ^ 2) in
  - (X * utils.safe_log_entrywise (Z + R)
     + Z * utils.safe_log_entrywise (X + R)
     - Y * utils.safe_atan2_entrywise (X * Z) (Y * R)).

Definition kernel_dx : kernel := fun X Y Z =>
  let R := sqrt (X ^ 2 + Y ^ 2 + Z ^ 2) in
  - (Y * utils.safe_log_entrywise (Z + R)
     + Z * utils.safe_log_entrywise (Y + R)
     - X * utils.safe_atan2_entrywise (Y * Z) (X * R)).

Definition kernel_dzz : kernel := fun X Y Z =>
  let R := sqrt (X ^ 2 + Y ^ 2 + Z ^ 2) in
  - utils.safe_atan2_entrywise (Y * X) (Z * R).

Definition kernel_dyz : kernel := fun X Y Z =>
  let R := sqrt (X ^ 2 + Y ^ 2 + Z ^ 2) in
  utils.safe_log_entrywise (X + R).

Definition kernel_dxz : kernel := fun X Y Z =>
  let R := sqrt (X ^ 2 + Y ^ 2 + Z ^ 2) in
  utils.safe_log_entrywise (Y + R).

Definition kernel_dyy : kernel := fun X Y Z =>
  let R := sqrt (X ^ 2 + Y ^ 2 + Z ^ 2) in
  - utils.safe_atan2_entrywise (X * Z) (Y * R).

Definition kernel_dxy : kernel := fun X Y Z =>
  let R := sqrt (X ^ 2 + Y ^ 2 + Z ^ 2) in
  utils.safe_log_entrywise (Z + R).

Definition kernel_dxx : kernel := fun X Y Z =>
  let R := sqrt (X ^ 2 + Y ^ 2 + Z ^ 2) in
  - utils.safe_atan2_entrywise (Y * Z) (X * R).

(** [out] is updated in place by the loops; the model returns it. *)
Definition jit_grav (coordinates prisms : np.array2) (density : np.array1)
    (field : kernel) (out : np.array1) : np.array1 :=
  fold_left (fun out l =>
    fold_left (fun out p =>
      let X1 := prisms.[p, 0] - coordinates.[0, l] in
      let X2 := prisms.[p, 1] - coordinates.[0, l] in
      let Y1 := prisms.[p, 2] - coordinates.[1, l] in
      let Y2 := prisms.[p, 3] - coordinates.[1, l] in
      let Z1 := prisms.[p, 4] - coordinates.[2, l] in
      let Z2 := prisms.[p, 5] - coordinates.[2, l] in
      np.set out l
        (out.[l] + density.[p] * (
            field X2 Y2 Z2
            - field X2 Y2 Z1
            - field X1 Y2 Z2
            + field X1 Y2 Z1
            - field X2 Y1 Z2
            + field X2 Y1 Z1
            + field X1 Y1 Z2
            - field X1 Y1 Z1)))
      (np.range (length prisms)) out)
    (np.range (np.size (nth 0%nat coordinates []))) out.

Definition jit_mag (coordinates prisms : np.array2) (mx my mz : np.array1)
    (fieldx fieldy fieldz : kernel) (out : np.array1) : np.array1 :=
  fold_left (fun out l =>
    fold_left (fun out p =>
      let X1 := prisms.[p, 0] - coordinates.[0, l] in
      let X2 := prisms.[p, 1] - coordinates.[0, l] in
      let Y1 := prisms.[p, 2] - coordinates.[1, l] in
      let Y2 := prisms.[p, 3] - coordinates.[1, l] in
      let Z1 := prisms.[p, 4] - coordinates.[2, l] in
      let Z2 := prisms.[p, 5] - coordinates.[2, l] in
      let out := np.set out l
        (out.[l] + mx.[p] * (
            fieldx X2 Y2 Z2
            - fieldx X2 Y2 Z1
            - fieldx X1 Y2 Z2
            + fieldx X1 Y2 Z1
            - fieldx X2 Y1 Z2
            + fieldx X2 Y1 Z1
            + fieldx X1 Y1 Z2
            - fieldx X1 Y1 Z1)) in
      let out := np.set out l
        (out.[l] + my.[p] * (
            fieldy X2 Y2 Z2
            - fieldy X2 Y2 Z1
            - fieldy X1 Y2 Z2
            + fieldy X1 Y2 Z1
            - fieldy X2 Y1 Z2
            + fieldy X2 Y1 Z1
            + fieldy X1 Y1 Z2
            - fieldy X1 Y1 Z1)) in
      let out := np.set out l
        (out.[l] + mz.[p] * (
            fieldz X2 Y2 Z2
            - fieldz X2 Y2 Z1
            - fieldz X1 Y2 Z2
            + fieldz X1 Y2 Z1
            - fieldz X2 Y1 Z2
            + fieldz X2 Y1 Z1
            + fieldz X1 Y1 Z2
            - fieldz X1 Y1 Z1)) in
      out)
      (np.range (length prisms)) out)
    (np.range (np.size (nth 0%nat coordinates []))) out.

(** The dictionary [fields] of [grav] and the dictionary [fields] of
    [mag]; the inner dictionaries [{"x": kx, "y": ky, "z": kz}] are
    triples (kx, ky, kz).  Of the two wrappers the model keeps these
    dictionaries only: [grav] and [mag] of this module pass the coordinate
    and prism dictionaries they have validated on to [jit_grav] and
    [jit_mag] as they are, while the loops index positional arrays
    ([coordinates[0, l]], [prisms[p, 0]], [prisms.shape[0]]). *)
Definition grav_fields : list (string * kernel) :=
  [ ("potential", kernel_inverse_r);
    ("x", kernel_dx);
    ("y", kernel_dy);
    ("z", kernel_dz);
    ("xx", kernel_dxx);
    ("xy", kernel_dxy);
    ("xz", kernel_dxz);
    ("yy", kernel_dyy);
    ("yz", kernel_dyz);
    ("zz", kernel_dzz) ]%string.

Definition mag_fields : list (string * (kernel * kernel * kernel)) :=
  [ ("potential", (kernel_dx, kernel_dy, kernel_dz));
    ("z", (kernel_dxz, kernel_dyz, kernel_dzz));
    ("y", (kernel_dxy, kernel_dyy, kernel_dyz));
    ("x", (kernel_dxx, kernel_dxy, kernel_dxz)) ]%string.

End rectangular_prism_numba.

(** ** The formulas of the specification *)

Module Spec.

(** An observation point and a prism (section 3). *)
Record point : Type := mk_point { px : R; py : R; pz : R }.
Record prism : Type := mk_prism {
  x1 : R; x2 : R; y1 : R; y2 : R; z1 : R; z2 : R
}.

(** A kernel is a function of the relative coordinates X, Y, Z and of the
    distance R (section 4.2). *)
Definition kernel : Type := R -> R -> R -> R -> R.

Definition safe_log : R -> R := utils.safe_log_entrywise.
Definition safe_atan2 : R -> R -> R := utils.safe_atan2_entrywise.

Definition K_pot : kernel := fun X Y Z R =>
  X * Y * safe_log (Z + R) + X * Z * safe_log (Y + R) + Y * Z * safe_log (X + R)
  - 0.5 * Y ^ 2 * safe_atan2 (Z * X) (Y * R)
  - 0.5 * X ^ 2 * safe_atan2 (Z * Y) (X * R)
  - 0.5 * Z ^ 2 * safe_atan2 (Y * X) (Z * R).

Definition K_x : kernel := fun X Y Z R =>
  - (Y * safe_log (Z + R) + Z * safe_log (Y + R) - X * safe_atan2 (Y * Z) (X * R)).
Definition K_y : kernel := fun X Y Z R =>
  - (X * safe_log (Z + R) + Z * safe_log (X + R) - Y * safe_atan2 (X * Z) (Y * R)).
Definition K_z : kernel := fun X Y Z R =>
  - (Y * safe_log (X + R) + X * safe_log (Y + R) - Z * safe_atan2 (Y * X) (Z * R)).
Definition K_xx : kernel := fun X Y Z R => - safe_atan2 (Y * Z) (X * R).
Definition K_xy : kernel := fun X Y Z R => safe_log (Z + R).
Definition K_xz : kernel := fun X Y Z R => safe_log (Y + R).
Definition K_yy : kernel := fun X Y Z R => - safe_atan2 (X * Z) (Y * R).
Definition K_yz : kernel := fun X Y Z R => safe_log (X + R).
Definition K_zz : kernel := fun X Y Z R => - safe_atan2 (Y * X) (Z * R).

(** The field names of section 6. *)
Definition gravity_fields : list string :=
  ["potential"; "x"; "y"; "z"; "xx"; "xy"; "xz"; "yy"; "yz"; "zz"]%string.
Definition magnetic_fields : list string :=
  ["potential"; "x"; "y"; "z"]%string.

(** The kernel of each gravity field name (section 6). *)
Definition gravity_kernels : list (string * kernel) :=
  [ ("potential", K_pot); ("x", K_x); ("y", K_y); ("z", K_z);
    ("xx", K_xx); ("xy", K_xy); ("xz", K_xz);
    ("yy", K_yy); ("yz", K_yz); ("zz", K_zz) ]%string.

(** The three kernels of each magnetic field name, weighted by
    (mx, my, mz) (section 4.2). *)
Definition magnetic_kernels : list (string * (kernel * kernel * kernel)) :=
  [ ("potential", (K_x, K_y, K_z));
    ("x", (K_xx, K_xy, K_xz));
    ("y", (K_xy, K_yy, K_yz));
    ("z", (K_xz, K_yz, K_zz)) ]%string.

(** The sum of [f] over a list of indices. *)
Definition sum_over {A : Type} (l : list A) (f : A -> R) : R :=
  fold_right (fun a acc => f a + acc) 0 l.

(** The eight corners (i, j, k) of {1, 2}^3, the sign (-1)^(i+j+k) and the
    face coordinate an index selects (section 4.3). *)
Definition corners : list (nat * nat * nat) :=
  flat_map (fun i => flat_map (fun j => map (fun k => (i, j, k))
    [1; 2]%nat) [1; 2]%nat) [1; 2]%nat.

Definition sign (i j k : nat) : R := (-1) ^ (i + j + k).

Definition face (i : nat) (a1 a2 : R) : R :=
  match i with 1%nat => a1 | _ => a2 end.

(** The kernel at the corner (i, j, k), in coordinates relative to the
    point: corner minus point. *)
Definition at_corner (K : kernel) (p : point) (b : prism) (i j k : nat) : R :=
  let X := face i (x1 b) (x2 b) - px p in
  let Y := face j (y1 b) (y2 b) - py p in
  let Z := face k (z1 b) (z2 b) - pz p in
  K X Y Z (sqrt (X ^ 2 + Y ^ 2 + Z ^ 2)).

Definition corner_sum (K : kernel) (p : point) (b : prism) : R :=
  sum_over corners (fun '(i, j, k) => sign i j k * at_corner K p b i j k).

(** Section 4.4: the output at one point. *)
Definition gravity_at (K : kernel) (prisms : list prism) (density : list R)
    (p : point) : R :=
  sum_over (seq 0 (length prisms)) (fun q =>
    nth q density 0 * corner_sum K p (nth q prisms (mk_prism 0 0 0 0 0 0))).

Definition magnetic_at (Kx Ky Kz : kernel) (prisms : list prism)
    (mx my mz : list R) (p : point) : R :=
  sum_over (seq 0 (length prisms)) (fun q =>
    let b := nth q prisms (mk_prism 0 0 0 0 0 0) in
    nth q mx 0 * corner_sum Kx p b
    + nth q my 0 * corner_sum Ky p b
    + nth q mz 0 * corner_sum Kz p b).

(** The constants a scaled result has been multiplied by: the
    gravitational constant, and the conversion to mGal for the first
    derivatives or to Eotvos for the second derivatives; the magnetic
    constant, and the conversion to nT for the induction components or to
    uT, with a change of sign, for the potential. *)
Definition gravity_factor (cts : constants) (field : string) : R :=
  match field with
  | "potential"%string => GRAVITATIONAL_CONST cts
  | "x"%string | "y"%string | "z"%string =>
      GRAVITATIONAL_CONST cts * SI2MGAL cts
  | _ => GRAVITATIONAL_CONST cts * SI2EOTVOS cts
  end.

Definition magnetic_factor (cts : constants) (field : string) : R :=
  match field with
  | "potential"%string => - (CM cts * T2MT cts)
  | _ => CM cts * T2NT cts
  end.

End Spec.

(** ** The two layouts of the same input *)

(** Point [l] and prism [q] of the dictionaries. *)
Definition point_at (coordinates : coordinates_dict) (l : nat) : Spec.point :=
  Spec.mk_point coordinates.{"x"}.[l] coordinates.{"y"}.[l] coordinates.{"z"}.[l].

Definition prism_at (prisms : prisms_dict) (q : nat) : Spec.prism :=
  Spec.mk_prism prisms.{"x1"}.[q] prisms.{"x2"}.[q]
                prisms.{"y1"}.[q] prisms.{"y2"}.[q]
                prisms.{"z1"}.[q] prisms.{"z2"}.[q].

Definition points_of (coordinates : coordinates_dict) : list Spec.point :=
  map (point_at coordinates) (np.range (np.size coordinates.{"x"})).

Definition prisms_of (prisms : prisms_dict) : list Spec.prism :=
  map (prism_at prisms) (np.range (np.size prisms.{"x1"})).

(** The positional arrays the numba loops index: three rows x, y, z, and
    one row (x1, x2, y1, y2, z1, z2) per prism. *)
Definition coordinates_array (coordinates : coordinates_dict) : np.array2 :=
  [coordinates.{"x"}; coordinates.{"y"}; coordinates.{"z"}].

Definition prisms_array (prisms : prisms_dict) : np.array2 :=
  map (fun q => [prisms.{"x1"}.[q]; prisms.{"x2"}.[q];
                 prisms.{"y1"}.[q]; prisms.{"y2"}.[q];
                 prisms.{"z1"}.[q]; prisms.{"z2"}.[q]])
      (np.range (np.size prisms.{"x1"})).

(** The shapes the validation layer lets through: D points, P prisms. *)
Definition shapes_ok (coordinates : coordinates_dict) (prisms : prisms_dict)
    (D P : nat) : bool :=
  Nat.eqb (np.size coordinates.{"x"}) D
  && check.all_of_length D [coordinates.{"y"}; coordinates.{"z"}]
  && Nat.eqb (np.size prisms.{"x1"}) P
  && check.all_of_length P [prisms.{"x2"}; prisms.{"y1"}; prisms.{"y2"};
                            prisms.{"z1"}; prisms.{"z2"}].

(** A 2-d array of shape (D, P). *)
Definition has_shape (D P : nat) (a : np.array2) : bool :=
  Nat.eqb (length a) D && check.all_of_length P a.

(** An array kernel [K] computes the scalar formula [k] entry by entry. *)
Definition entrywise (K : rectangular_prism.kernel) (k : Spec.kernel) : Prop :=
  forall (D P : nat) (fx fy fz fr : nat -> nat -> R),
    K (np.tabulate D P fx) (np.tabulate D P fy) (np.tabulate D P fz)
      (np.tabulate D P fr)
    = np.tabulate D P (fun l p => k (fx l p) (fy l p) (fz l p) (fr l p)).

(** The face arrays an index selects, as the loop builds their keys. *)
Definition face_x (p : prisms_dict) (i : nat) : np.array1 :=
  match i with 1%nat => key_x1 p | _ => key_x2 p end.
Definition face_y (p : prisms_dict) (j : nat) : np.array1 :=
  match j with 1%nat => key_y1 p | _ => key_y2 p end.
Definition face_z (p : prisms_dict) (k : nat) : np.array1 :=
  match k with 1%nat => key_z1 p | _ => key_z2 p end.

(** A scalar kernel [field] computes the formula [k], the distance R being
    recomputed inside it. *)
Definition recomputes_distance (field : rectangular_prism_numba.kernel)
    (k : Spec.kernel) : Prop :=
  forall X Y Z : R, field X Y Z = k X Y Z (sqrt (X ^ 2 + Y ^ 2 + Z ^ 2)).

(** The inputs the validation layer lets through: [props] are the
    source-property arrays. *)
Definition valid_dicts (c : coordinates_dict) (p : prisms_dict)
    (props : list np.array1) : bool :=
  shapes_ok c p (np.size c.{"x"}) (np.size p.{"x1"})
  && check.all_of_length (np.size p.{"x1"}) props.

(** The scaling blocks of [grav] and [mag]. *)
Definition grav_scaling (cts : constants) (field : string) (scale : bool)
    (result : np.array1) : np.array1 :=
  if scale then
    let result := np.imul1 result (GRAVITATIONAL_CONST cts) in
    let result :=
      if member field ["x"; "y"; "z"]%string
      then np.imul1 result (SI2MGAL cts) else result in
    let result :=
      if member field ["xx"; "xy"; "xz"; "yy"; "yz"; "zz"]%string
      then np.imul1 result (SI2EOTVOS cts) else result in
    result
  else result.

Definition mag_scaling (cts : constants) (field : string) (scale : bool)
    (result : np.array1) : np.array1 :=
  if scale then
    let result := np.imul1 result (CM cts) in
    let result :=
      if member field ["x"; "y"; "z"]%string
      then np.imul1 result (T2NT cts) else result in
    let result :=
      if String.eqb field "potential"
      then np.imul1 result (- T2MT cts) else result in
    result
  else result.

(** ** The scaling block of [grav] in binary64 *)

(** numpy's float64 arrays hold IEEE 754 binary64 numbers, and [*] and [/]
    on them are the correctly rounded operations (to nearest, ties to
    even). *)
Module binary64.

Definition prec : Z := 53.
Definition emax : Z := 1024.

Definition mul : spec_float -> spec_float -> spec_float := SFmul prec emax.
Definition div : spec_float -> spec_float -> spec_float := SFdiv prec emax.

(** The integer [m], and the decimal literal [m]e-[k], as binary64 numbers.
    For [m] below 2^53 and [k] at most 22 both operands of the quotient are
    exact, and the quotient is the binary64 number nearest to m / 10^k, the
    value Python gives the literal. *)
Definition of_Z (m : Z) : spec_float := binary_normalize prec emax m 0 false.
Definition decimal (m : Z) (k : Z) : spec_float := div (of_Z m) (of_Z (10 ^ k)).

(** The binary64 number just below [x]. *)
Definition pred : spec_float -> spec_float := SFpred prec emax.

(** [a *= c] and [a / c] on a 1-d float64 array. *)
Definition imul1 (a : list spec_float) (c : spec_float) : list spec_float :=
  map (fun v => mul v c) a.
Definition truediv1 (a : list spec_float) (c : spec_float) : list spec_float :=
  map (fun v => div v c) a.

End binary64.

(** The scaling block of [grav] on a float64 array [result], with the three
    constants it reads from [gravmag.constants]. *)
Definition grav_scaling_binary64 (GRAVITATIONAL_CONST SI2MGAL SI2EOTVOS : spec_float)
    (field : string) (scale : bool) (result : list spec_float)
    : list spec_float :=
  if scale then
    let result := binary64.imul1 result GRAVITATIONAL_CONST in
    let result :=
      if member field ["x"; "y"; "z"]%string
      then binary64.imul1 result SI2MGAL else result in
    let result :=
      if member field ["xx"; "xy"; "xz"; "yy"; "yz"; "zz"]%string
      then binary64.imul1 result SI2EOTVOS else result in
    result
  else result.

(** The two error messages. *)
Definition grav_error (field : string) : exn :=
  ValueError ("Gravitational field " ++ field ++ " not recognized")%string.
Definition mag_error (field : string) : exn :=
  ValueError ("Magnetic field " ++ field ++ " not recognized")%string.

(** The ten kernels: the array kernel of the numpy module, the scalar kernel
    of the numba module and the formula of the specification. *)
Definition kernel_table :
    list (rectangular_prism.kernel * rectangular_prism_numba.kernel * Spec.kernel) :=
  [ (rectangular_prism.kernel_potential_grav,
     rectangular_prism_numba.kernel_inverse_r, Spec.K_pot);
    (rectangular_prism.kernel_x, rectangular_prism_numba.kernel_dx, Spec.K_x);
    (rectangular_prism.kernel_y, rectangular_prism_numba.kernel_dy, Spec.K_y);
    (rectangular_prism.kernel_z, rectangular_prism_numba.kernel_dz, Spec.K_z);
    (rectangular_prism.kernel_xx, rectangular_prism_numba.kernel_dxx, Spec.K_xx);
    (rectangular_prism.kernel_xy, rectangular_prism_numba.kernel_dxy, Spec.K_xy);
    (rectangular_prism.kernel_xz, rectangular_prism_numba.kernel_dxz, Spec.K_xz);
    (rectangular_prism.kernel_yy, rectangular_prism_numba.kernel_dyy, Spec.K_yy);
    (rectangular_prism.kernel_yz, rectangular_prism_numba.kernel_dyz, Spec.K_yz);
    (rectangular_prism.kernel_zz, rectangular_prism_numba.kernel_dzz, Spec.K_zz) ].

(** A small input: one observation point at the origin and the prism
    [1, 2] x [1, 2] x [1, 2], in the dictionary layout. *)
Definition origin_point : coordinates_dict := mk_coordinates [0] [0] [0].
Definition unit_prism : prisms_dict := mk_prisms [1] [2] [1] [2] [1] [2].

(** Physical constants in SI units, as an instance of the parameter [cts]. *)
Definition si_constants : constants :=
  mk_constants 6.6743e-11 1e5 1e9 1e-7 1e9 1e6.

(** The constants of [si_constants] as binary64 numbers: 6.6743e-11, 1e5
    and 1e9. *)
Definition G_binary64 : spec_float := binary64.decimal 66743 15.
Definition SI2MGAL_binary64 : spec_float := binary64.of_Z (10 ^ 5).
Definition SI2EOTVOS_binary64 : spec_float := binary64.of_Z (10 ^ 9).

(** A scaled call is the unscaled call, times the factor of the field. *)
Definition scaled_by (factor : R) (unscaled : exn + np.array1) : exn + np.array1 :=
  match unscaled with
  | inl e => inl e
  | inr raw => inr (np.imul1 raw factor)
  end.

(** A prism of zero thickness along one axis. *)
Definition degenerate (b : Spec.prism) : Prop :=
  Spec.x1 b = Spec.x2 b \/ Spec.y1 b = Spec.y2 b \/ Spec.z1 b = Spec.z2 b.

(** Two source-property arrays that differ on degenerate prisms only. *)
Definition agree_off_degenerate (p : prisms_dict) (P : nat)
    (sigma sigma' : np.array1) : Prop :=
  length sigma = P /\ length sigma' = P
  /\ forall q : nat, (q < P)%nat ->
       sigma.[q] = sigma'.[q] \/ degenerate (prism_at p q).

(** One prism, and two prisms, in the dictionary layout; the two parts of a
    prism cut along z at [z_mid]. *)
Definition one_prism (b : Spec.prism) : prisms_dict :=
  mk_prisms [Spec.x1 b] [Spec.x2 b] [Spec.y1 b] [Spec.y2 b]
            [Spec.z1 b] [Spec.z2 b].

Definition two_prisms (b b' : Spec.prism) : prisms_dict :=
  mk_prisms [Spec.x1 b; Spec.x1 b'] [Spec.x2 b; Spec.x2 b']
            [Spec.y1 b; Spec.y1 b'] [Spec.y2 b; Spec.y2 b']
            [Spec.z1 b; Spec.z1 b'] [Spec.z2 b; Spec.z2 b'].

Definition upper_part (b : Spec.prism) (z_mid : R) : Spec.prism :=
  Spec.mk_prism (Spec.x1 b) (Spec.x2 b) (Spec.y1 b) (Spec.y2 b)
                (Spec.z1 b) z_mid.

Definition lower_part (b : Spec.prism) (z_mid : R) : Spec.prism :=
  Spec.mk_prism (Spec.x1 b) (Spec.x2 b) (Spec.y1 b) (Spec.y2 b)
                z_mid (Spec.z2 b).

(** The prism [1, 2] x [1, 2] x [1, 2] of [unit_prism], as one value. *)
Definition unit_box : Spec.prism := Spec.mk_prism 1 2 1 2 1 2.

(** The eight-term expression of the numba loops for the point [l] and the
    prism [p], read from the positional arrays. *)
Definition corner_term (coordinates prisms : np.array2)
    (field : rectangular_prism_numba.kernel) (l p : nat) : R :=
  let X1 := prisms.[p, 0] - coordinates.[0, l] in
  let X2 := prisms.[p, 1] - coordinates.[0, l] in
  let Y1 := prisms.[p, 2] - coordinates.[1, l] in
  let Y2 := prisms.[p, 3] - coordinates.[1, l] in
  let Z1 := prisms.[p, 4] - coordinates.[2, l] in
  let Z2 := prisms.[p, 5] - coordinates.[2, l] in
  field X2 Y2 Z2 - field X2 Y2 Z1 - field X1 Y2 Z2 + field X1 Y2 Z1
  - field X2 Y1 Z2 + field X2 Y1 Z1 + field X1 Y1 Z2 - field X1 Y1 Z1.

(** The sums of section 4.4 over the dictionaries of D points and P prisms. *)
Definition gravity_sums (k : Spec.kernel) (c : coordinates_dict)
    (p : prisms_dict) (D P : nat) (density : np.array1) : np.array1 :=
  map (fun l => Spec.sum_over (np.range P) (fun q =>
         density.[q] * Spec.corner_sum k (point_at c l) (prism_at p q)))
      (np.range D).

Definition magnetic_sums (kx ky kz : Spec.kernel) (c : coordinates_dict)
    (p : prisms_dict) (D P : nat) (mx my mz : np.array1) : np.array1 :=
  map (fun l => Spec.sum_over (np.range P) (fun q =>
         mx.[q] * Spec.corner_sum kx (point_at c l) (prism_at p q)
         + my.[q] * Spec.corner_sum ky (point_at c l) (prism_at p q)
         + mz.[q] * Spec.corner_sum kz (point_at c l) (prism_at p q)))
      (np.range D).

(** The gravity field names whose kernels [mag] weights by (mx, my, mz), for
    each magnetic field name: the two kernel dictionaries side by side. *)
Definition mag_as_grav : list (string * (string * string * string)) :=
  [ ("potential", ("x", "y", "z"));
    ("z", ("xz", "yz", "zz"));
    ("y", ("xy", "yy", "yz"));
    ("x", ("xx", "xy", "xz")) ]%string.

(** The array [a * sigma + b * sigma'], with the operations of [np]. *)
Definition lincomb (a : R) (sigma : np.array1) (b : R) (sigma' : np.array1)
    : np.array1 :=
  np.add1 (np.imul1 sigma a) (np.imul1 sigma' b).

(** Two prism collections, and two point collections, one after the other
    ([np.concatenate] on every key). *)
Definition prisms_app (p p' : prisms_dict) : prisms_dict :=
  mk_prisms (key_x1 p ++ key_x1 p') (key_x2 p ++ key_x2 p')
            (key_y1 p ++ key_y1 p') (key_y2 p ++ key_y2 p')
            (key_z1 p ++ key_z1 p') (key_z2 p ++ key_z2 p').

Definition coordinates_app (c c' : coordinates_dict) : coordinates_dict :=
  mk_coordinates (key_x c ++ key_x c') (key_y c ++ key_y c')
                 (key_z c ++ key_z c').

(** Points and prisms moved by the vector (tx, ty, tz): [d[key] + t] on
    every key. *)
Definition translate_coordinates (tx ty tz : R) (c : coordinates_dict)
    : coordinates_dict :=
  mk_coordinates (map (Rplus tx) (key_x c)) (map (Rplus ty) (key_y c))
                 (map (Rplus tz) (key_z c)).

Definition translate_prisms (tx ty tz : R) (p : prisms_dict) : prisms_dict :=
  mk_prisms (map (Rplus tx) (key_x1 p)) (map (Rplus tx) (key_x2 p))
            (map (Rplus ty) (key_y1 p)) (map (Rplus ty) (key_y2 p))
            (map (Rplus tz) (key_z1 p)) (map (Rplus tz) (key_z2 p)).

(** The point lies in the plane midway between the two faces of the prism
    that are normal to x, to y, to z. *)
Definition mid_plane_x (pt : Spec.point) (b : Spec.prism) : Prop :=
  Spec.x1 b - Spec.px pt = - (Spec.x2 b - Spec.px pt).
Definition mid_plane_y (pt : Spec.point) (b : Spec.prism) : Prop :=
  Spec.y1 b - Spec.py pt = - (Spec.y2 b - Spec.py pt).
Definition mid_plane_z (pt : Spec.point) (b : Spec.prism) : Prop :=
  Spec.z1 b - Spec.pz pt = - (Spec.z2 b - Spec.pz pt).

(** * Properties *)

(** ** Lists and arrays *)

Section ArrayFacts.

Lemma list_tabulate {A : Type} (d : A) (l : list A) :
  l = map (fun i => nth i l d) (seq 0 (length l)).
Proof.
  induction l as [|a l IH]; [reflexivity|].
  cbn [length seq map nth]. f_equal.
  rewrite <- seq_shift, map_map. exact IH.
Qed.

Lemma array1_tabulate (a : np.array1) :
  a = map (fun i => a.[i]) (np.range (np.size a)).
Proof. exact (list_tabulate 0 a). Qed.

Lemma combine_map {A B C D : Type} (f : B -> C -> D) (g : A -> B) (h : A -> C)
    (l : list A) :
  map (fun xy => f (fst xy) (snd xy)) (combine (map g l) (map h l))
  = map (fun i => f (g i) (h i)) l.
Proof. induction l as [|a l IH]; simpl; [reflexivity | now rewrite IH]. Qed.

(** Two operands of the same length: the operation is entrywise. *)
Lemma broadcast_map {A B C D : Type} (f : B -> C -> D) (g : A -> B) (h : A -> C)
    (l : list A) :
  np.broadcast f (map g l) (map h l) = map (fun i => f (g i) (h i)) l.
Proof.
  destruct l as [|a [|b l]]; try reflexivity.
  unfold np.broadcast.
  change (map g (a :: b :: l)) with (g a :: g b :: map g l).
  change (map h (a :: b :: l)) with (h a :: h b :: map h l).
  cbv iota beta.
  change (g a :: g b :: map g l) with (map g (a :: b :: l)).
  change (h a :: h b :: map h l) with (map h (a :: b :: l)).
  apply combine_map.
Qed.

(** A column against a row: the outer operation. *)
Lemma broadcast_col_row {A B C : Type} (f : A -> B -> C) (u : list A) (v : list B) :
  np.broadcast (np.broadcast f) (map (fun a => [a]) u) [v]
  = map (fun a => map (f a) v) u.
Proof.
  destruct u as [|a [|b u]]; try reflexivity.
  transitivity (map (fun x => np.broadcast f x v)
                    (map (fun a => [a]) (a :: b :: u))); [reflexivity|].
  now rewrite map_map.
Qed.

(** Rows of equal length against one row. *)
Lemma broadcast_rows_row {A B C D : Type} (f : B -> C -> D) (g : A -> list B)
    (s : list C) (l : list A) :
  np.broadcast (np.broadcast f) (map g l) [s]
  = map (fun i => np.broadcast f (g i) s) l.
Proof.
  destruct l as [|a [|b l]]; try reflexivity.
  transitivity (map (fun x => np.broadcast f x s) (map g (a :: b :: l)));
    [reflexivity|].
  now rewrite map_map.
Qed.

Lemma tabulate_ext (D P : nat) (f g : nat -> nat -> R) :
  (forall l p, (l < D)%nat -> (p < P)%nat -> f l p = g l p) ->
  np.tabulate D P f = np.tabulate D P g.
Proof.
  intros H. unfold np.tabulate, np.range.
  apply map_ext_in; intros l Hl. apply in_seq in Hl.
  apply map_ext_in; intros p Hp. apply in_seq in Hp.
  apply H; lia.
Qed.

Lemma lift1_tabulate (h : R -> R) (D P : nat) (f : nat -> nat -> R) :
  np.lift1 h (np.tabulate D P f) = np.tabulate D P (fun l p => h (f l p)).
Proof.
  unfold np.lift1, np.tabulate. rewrite map_map.
  apply map_ext; intros l. now rewrite map_map.
Qed.

Lemma lift2_tabulate (h : R -> R -> R) (D P : nat) (f g : nat -> nat -> R) :
  np.lift2 h (np.tabulate D P f) (np.tabulate D P g)
  = np.tabulate D P (fun l p => h (f l p) (g l p)).
Proof.
  unfold np.lift2, np.tabulate. rewrite broadcast_map.
  apply map_ext; intros l. apply broadcast_map.
Qed.

Lemma lift2_col_row (h : R -> R -> R) (u v : np.array1) :
  np.lift2 h (np.newaxis_col u) (np.newaxis_row v)
  = np.tabulate (np.size u) (np.size v) (fun l p => h u.[l] v.[p]).
Proof.
  unfold np.lift2, np.newaxis_col, np.newaxis_row.
  rewrite broadcast_col_row. unfold np.tabulate.
  rewrite (array1_tabulate u) at 1. rewrite map_map.
  apply map_ext; intros l.
  rewrite (array1_tabulate v) at 1. now rewrite map_map.
Qed.

Lemma neg_newaxis_col (u : np.array1) :
  np.neg (np.newaxis_col u) = np.newaxis_col (map Ropp u).
Proof.
  unfold np.neg, np.lift1, np.newaxis_col. now rewrite !map_map.
Qed.

Lemma lift2_tabulate_row (h : R -> R -> R) (D : nat) (f : nat -> nat -> R)
    (s : np.array1) :
  np.lift2 h (np.tabulate D (np.size s) f) (np.newaxis_row s)
  = np.tabulate D (np.size s) (fun l p => h (f l p) s.[p]).
Proof.
  unfold np.lift2, np.tabulate, np.newaxis_row.
  rewrite broadcast_rows_row.
  apply map_ext; intros l.
  rewrite (array1_tabulate s) at 2. apply broadcast_map.
Qed.

Lemma zeros2_tabulate (D P : nat) :
  np.zeros2 D P = np.tabulate D P (fun _ _ => 0).
Proof.
  unfold np.zeros2, np.tabulate, np.range.
  assert (Hrep : forall (A : Type) (a : A) n s,
             repeat a n = map (fun _ => a) (seq s n)).
  { intros A a n. induction n as [|n IH]; intros s; simpl;
      [reflexivity | now rewrite <- IH]. }
  rewrite (Hrep _ _ D 0%nat). apply map_ext; intros _. apply Hrep.
Qed.

Lemma tabulate_shape (D P : nat) (a : np.array2) :
  has_shape D P a = true -> a = np.tabulate D P (fun l p => a.[l, p]).
Proof.
  unfold has_shape, check.all_of_length. intros H.
  apply andb_true_iff in H as [HD HP]. apply Nat.eqb_eq in HD.
  rewrite forallb_forall in HP.
  unfold np.tabulate, np.range. rewrite (list_tabulate [] a) at 1.
  rewrite HD. apply map_ext_in; intros l Hl. apply in_seq in Hl.
  assert (HPl : length (nth l a []) = P).
  { apply Nat.eqb_eq, HP, nth_In. lia. }
  rewrite (list_tabulate 0 (nth l a [])) at 1. now rewrite HPl.
Qed.

Lemma get2_tabulate (D P : nat) (f : nat -> nat -> R) (l p : nat) :
  (l < D)%nat -> (p < P)%nat -> (np.tabulate D P f).[l, p] = f l p.
Proof.
  intros Hl Hp. unfold np.get2, np.tabulate, np.range.
  rewrite (nth_indep _ [] (map (f 0%nat) (seq 0 P)))
    by now rewrite length_map, length_seq.
  rewrite (map_nth (fun l => map (f l) (seq 0 P))), seq_nth by assumption.
  rewrite (nth_indep _ 0 (f l 0%nat)) by now rewrite length_map, length_seq.
  rewrite (map_nth (f l)), seq_nth by assumption. reflexivity.
Qed.

(** Sums. *)
Lemma fold_left_Rplus (l : list R) (x : R) :
  fold_left Rplus l x = x + fold_right Rplus 0 l.
Proof.
  revert x. induction l as [|a l IH]; intros x; simpl; [lra|].
  rewrite IH. lra.
Qed.

Lemma sum1_map {A : Type} (f : A -> R) (l : list A) :
  np.sum1 (map f l) = Spec.sum_over l f.
Proof.
  unfold np.sum1. rewrite fold_left_Rplus, Rplus_0_l.
  induction l as [|a l IH]; simpl; [reflexivity | now rewrite IH].
Qed.

Lemma sum_over_cons {A : Type} (a : A) (l : list A) (f : A -> R) :
  Spec.sum_over (a :: l) f = f a + Spec.sum_over l f.
Proof. reflexivity. Qed.

Lemma sum_over_ext {A : Type} (l : list A) (f g : A -> R) :
  (forall a, In a l -> f a = g a) -> Spec.sum_over l f = Spec.sum_over l g.
Proof.
  induction l as [|a l IH]; intros H; simpl; [reflexivity|].
  rewrite (H a) by now left.
  rewrite IH; [reflexivity|]. intros b Hb. apply H. now right.
Qed.

Lemma sum_over_plus {A : Type} (l : list A) (f g : A -> R) :
  Spec.sum_over l (fun a => f a + g a) = Spec.sum_over l f + Spec.sum_over l g.
Proof. induction l as [|a l IH]; simpl; [lra | rewrite IH; lra]. Qed.

Lemma sum_over_zero {A : Type} (l : list A) (f : A -> R) :
  (forall a, In a l -> f a = 0) -> Spec.sum_over l f = 0.
Proof.
  induction l as [|a l IH]; intros H; simpl; [reflexivity|].
  rewrite (H a) by now left.
  rewrite IH; [lra|]. intros b Hb. apply H. now right.
Qed.

Lemma sum_axis1_tabulate (D P : nat) (f : nat -> nat -> R) :
  np.sum_axis1 (np.tabulate D P f)
  = map (fun l => Spec.sum_over (np.range P) (f l)) (np.range D).
Proof.
  unfold np.sum_axis1, np.tabulate. rewrite map_map.
  apply map_ext; intros l. apply sum1_map.
Qed.

End ArrayFacts.

(** ** The kernels, entry by entry *)

Ltac tabulate_ops :=
  unfold utils.safe_log, utils.safe_atan2,
    np.add, np.sub, np.mul, np.neg, np.sqrt, np.scale, np.power;
  repeat (rewrite lift2_tabulate || rewrite lift1_tabulate).

Ltac kernel_entrywise K :=
  intros D P fx fy fz fr; unfold K; tabulate_ops; reflexivity.

Lemma kernel_potential_grav_entrywise :
  entrywise rectangular_prism.kernel_potential_grav Spec.K_pot.
Proof. kernel_entrywise rectangular_prism.kernel_potential_grav. Qed.

Lemma kernel_x_entrywise : entrywise rectangular_prism.kernel_x Spec.K_x.
Proof. kernel_entrywise rectangular_prism.kernel_x. Qed.

Lemma kernel_y_entrywise : entrywise rectangular_prism.kernel_y Spec.K_y.
Proof. kernel_entrywise rectangular_prism.kernel_y. Qed.

Lemma kernel_z_entrywise : entrywise rectangular_prism.kernel_z Spec.K_z.
Proof. kernel_entrywise rectangular_prism.kernel_z. Qed.

Lemma kernel_xx_entrywise : entrywise rectangular_prism.kernel_xx Spec.K_xx.
Proof. kernel_entrywise rectangular_prism.kernel_xx. Qed.

Lemma kernel_xy_entrywise : entrywise rectangular_prism.kernel_xy Spec.K_xy.
Proof. kernel_entrywise rectangular_prism.kernel_xy. Qed.

Lemma kernel_xz_entrywise : entrywise rectangular_prism.kernel_xz Spec.K_xz.
Proof. kernel_entrywise rectangular_prism.kernel_xz. Qed.

Lemma kernel_yy_entrywise : entrywise rectangular_prism.kernel_yy Spec.K_yy.
Proof. kernel_entrywise rectangular_prism.kernel_yy. Qed.

Lemma kernel_yz_entrywise : entrywise rectangular_prism.kernel_yz Spec.K_yz.
Proof. kernel_entrywise rectangular_prism.kernel_yz. Qed.

Lemma kernel_zz_entrywise : entrywise rectangular_prism.kernel_zz Spec.K_zz.
Proof. kernel_entrywise rectangular_prism.kernel_zz. Qed.

(** ** The batch strategy: [iterate_over_vertices] *)

Lemma shapes_ok_lengths (c : coordinates_dict) (p : prisms_dict) (D P : nat) :
  shapes_ok c p D P = true ->
  (length (key_x c) = D /\ length (key_y c) = D /\ length (key_z c) = D)
  /\ (length (key_x1 p) = P /\ length (key_x2 p) = P /\ length (key_y1 p) = P
      /\ length (key_y2 p) = P /\ length (key_z1 p) = P /\ length (key_z2 p) = P).
Proof.
  unfold shapes_ok, check.all_of_length, np.size. cbn [forallb getitem
    coordinates_getitem prisms_getitem].
  rewrite !andb_true_iff, !Nat.eqb_eq. intuition.
Qed.

Lemma vertex_body (c : coordinates_dict) (vx vy vz : np.array1) (D P : nat)
    (K : rectangular_prism.kernel) (k : Spec.kernel) (s : R)
    (g : nat -> nat -> R) :
  entrywise K k ->
  length (key_x c) = D -> length (key_y c) = D -> length (key_z c) = D ->
  length vx = P -> length vy = P -> length vz = P ->
  (np.tabulate D P g
   + s .* K (- np.newaxis_col c.{"x"}
             + np.newaxis_row {| key_x := vx; key_y := vy; key_z := vz |}.{"x"})
            (- np.newaxis_col c.{"y"}
             + np.newaxis_row {| key_x := vx; key_y := vy; key_z := vz |}.{"y"})
            (- np.newaxis_col c.{"z"}
             + np.newaxis_row {| key_x := vx; key_y := vy; key_z := vz |}.{"z"})
            (np.sqrt (idist.sedm c {| key_x := vx; key_y := vy; key_z := vz |})))%np
  = np.tabulate D P (fun l q =>
      let X := vx.[q] - (key_x c).[l] in
      let Y := vy.[q] - (key_y c).[l] in
      let Z := vz.[q] - (key_z c).[l] in
      g l q + s * k X Y Z (sqrt (X ^ 2 + Y ^ 2 + Z ^ 2))).
Proof.
  intros HK Hx Hy Hz Hvx Hvy Hvz.
  unfold idist.sedm.
  cbn [getitem coordinates_getitem key_x key_y key_z].
  rewrite !neg_newaxis_col.
  unfold np.add, np.sub.
  rewrite !lift2_col_row. unfold np.size.
  rewrite !length_map, Hx, Hy, Hz, Hvx, Hvy, Hvz.
  fold np.add. tabulate_ops. rewrite HK. tabulate_ops.
  apply tabulate_ext; intros l q Hl Hq. cbv zeta.
  unfold np.get.
  rewrite !(nth_indep (map Ropp _) 0 (- 0)) by (rewrite length_map; lia).
  rewrite !map_nth.
  f_equal. f_equal. f_equal; try ring. f_equal. ring.
Qed.

Lemma face_keys (p : prisms_dict) (i : nat) :
  In i [1; 2]%nat ->
  p.{"x" ++ format (Z.of_nat i)} = face_x p i
  /\ p.{"y" ++ format (Z.of_nat i)} = face_y p i
  /\ p.{"z" ++ format (Z.of_nat i)} = face_z p i.
Proof.
  intros [<- | [<- | []]]; repeat split; reflexivity.
Qed.

Lemma face_lengths (c : coordinates_dict) (p : prisms_dict) (D P i : nat) :
  shapes_ok c p D P = true ->
  length (face_x p i) = P /\ length (face_y p i) = P /\ length (face_z p i) = P.
Proof.
  intros H. apply shapes_ok_lengths in H.
  destruct i as [|[|i]]; cbn [face_x face_y face_z]; intuition.
Qed.

Lemma corners_in (i j k : nat) :
  In (i, j, k) Spec.corners <-> In i [1; 2]%nat /\ In j [1; 2]%nat /\ In k [1; 2]%nat.
Proof.
  unfold Spec.corners. cbn [flat_map map app In].
  split.
  - intros H. repeat destruct H as [H | H]; try contradiction;
      injection H as <- <- <-; auto 6.
  - intros ([<- | [<- | []]] & [<- | [<- | []]] & [<- | [<- | []]]); auto 10.
Qed.

Lemma face_get (p : prisms_dict) (i q : nat) :
  (face_x p i).[q]
    = Spec.face i (Spec.x1 (prism_at p q)) (Spec.x2 (prism_at p q))
  /\ (face_y p i).[q]
    = Spec.face i (Spec.y1 (prism_at p q)) (Spec.y2 (prism_at p q))
  /\ (face_z p i).[q]
    = Spec.face i (Spec.z1 (prism_at p q)) (Spec.z2 (prism_at p q)).
Proof. destruct i as [|[|i]]; repeat split; reflexivity. Qed.

Lemma sign_of_corner (i j k : nat) :
  IZR ((-1) ^ (Z.of_nat i + Z.of_nat j + Z.of_nat k)) = Spec.sign i j k.
Proof.
  unfold Spec.sign.
  rewrite <- !Nat2Z.inj_add, <- pow_IZR. reflexivity.
Qed.

Lemma vertex_step_tabulate (c : coordinates_dict) (p : prisms_dict) (D P : nat)
    (K : rectangular_prism.kernel) (k : Spec.kernel) (i j kk : nat)
    (g : nat -> nat -> R) :
  shapes_ok c p D P = true -> entrywise K k -> In (i, j, kk) Spec.corners ->
  rectangular_prism.vertex_step c p K (Z.of_nat i) (Z.of_nat j) (Z.of_nat kk)
    (np.tabulate D P g)
  = np.tabulate D P (fun l q =>
      g l q + Spec.sign i j kk
              * Spec.at_corner k (point_at c l) (prism_at p q) i j kk).
Proof.
  intros Hs HK Hin. apply corners_in in Hin as (Hi & Hj & Hk).
  unfold rectangular_prism.vertex_step. cbv zeta.
  destruct (face_keys p i Hi) as (-> & _ & _).
  destruct (face_keys p j Hj) as (_ & -> & _).
  destruct (face_keys p kk Hk) as (_ & _ & ->).
  destruct (face_lengths c p D P i Hs) as (Hvx & _ & _).
  destruct (face_lengths c p D P j Hs) as (_ & Hvy & _).
  destruct (face_lengths c p D P kk Hs) as (_ & _ & Hvz).
  apply shapes_ok_lengths in Hs as ((Hx & Hy & Hz) & _).
  rewrite (vertex_body c _ _ _ D P K k _ g HK Hx Hy Hz Hvx Hvy Hvz).
  apply tabulate_ext; intros l q _ _. cbv zeta.
  rewrite sign_of_corner. unfold Spec.at_corner.
  destruct (face_get p i q) as (-> & _ & _).
  destruct (face_get p j q) as (_ & -> & _).
  destruct (face_get p kk q) as (_ & _ & ->).
  reflexivity.
Qed.

Lemma vertices_loop_corners (c : coordinates_dict) (p : prisms_dict)
    (K : rectangular_prism.kernel) (pf : np.array2) :
  rectangular_prism.vertices_loop c p K pf
  = fold_left (fun pf '(i, j, k) =>
      rectangular_prism.vertex_step c p K
        (Z.of_nat i) (Z.of_nat j) (Z.of_nat k) pf) Spec.corners pf.
Proof.
  unfold rectangular_prism.vertices_loop, Spec.corners.
  cbn [fold_left flat_map map app Z.of_nat Pos.of_succ_nat Pos.succ].
  reflexivity.
Qed.

Lemma fold_vertex_step (c : coordinates_dict) (p : prisms_dict) (D P : nat)
    (K : rectangular_prism.kernel) (k : Spec.kernel)
    (cs : list (nat * nat * nat)) (g : nat -> nat -> R) :
  shapes_ok c p D P = true -> entrywise K k -> incl cs Spec.corners ->
  fold_left (fun pf '(i, j, k) =>
      rectangular_prism.vertex_step c p K
        (Z.of_nat i) (Z.of_nat j) (Z.of_nat k) pf) cs (np.tabulate D P g)
  = np.tabulate D P (fun l q =>
      g l q + Spec.sum_over cs (fun '(i, j, kk) =>
                Spec.sign i j kk
                * Spec.at_corner k (point_at c l) (prism_at p q) i j kk)).
Proof.
  intros Hs HK. revert g.
  induction cs as [|[[i j] kk] cs IH]; intros g Hincl.
  - cbn [fold_left Spec.sum_over fold_right].
    apply tabulate_ext; intros; lra.
  - cbn [fold_left].
    rewrite (vertex_step_tabulate c p D P K k i j kk g Hs HK)
      by (apply Hincl; now left).
    rewrite IH by (intros x Hx; apply Hincl; now right).
    apply tabulate_ext; intros l q _ _.
    rewrite sum_over_cons. lra.
Qed.

(** The array [predicted_field] after the loops holds the corner sums. *)
Lemma vertices_loop_tabulate (c : coordinates_dict) (p : prisms_dict) (D P : nat)
    (K : rectangular_prism.kernel) (k : Spec.kernel) :
  shapes_ok c p D P = true -> entrywise K k ->
  rectangular_prism.vertices_loop c p K (np.zeros2 D P)
  = np.tabulate D P (fun l q =>
      Spec.corner_sum k (point_at c l) (prism_at p q)).
Proof.
  intros Hs HK.
  rewrite vertices_loop_corners, zeros2_tabulate.
  rewrite (fold_vertex_step c p D P K k) by (assumption || apply incl_refl).
  apply tabulate_ext; intros l q _ _. unfold Spec.corner_sum. lra.
Qed.

Lemma iterate_over_vertices_sum (c : coordinates_dict) (p : prisms_dict)
    (D P : nat) (sigma : np.array1)
    (K : rectangular_prism.kernel) (k : Spec.kernel) :
  shapes_ok c p D P = true -> entrywise K k -> length sigma = P ->
  rectangular_prism.iterate_over_vertices c p sigma K
  = map (fun l => Spec.sum_over (np.range P) (fun q =>
           sigma.[q] * Spec.corner_sum k (point_at c l) (prism_at p q)))
        (np.range D).
Proof.
  intros Hs HK Hsig.
  unfold rectangular_prism.iterate_over_vertices. cbv zeta.
  pose proof (shapes_ok_lengths c p D P Hs) as ((Hx & _) & (Hx1 & _)).
  cbn [getitem coordinates_getitem prisms_getitem]. unfold np.size.
  rewrite Hx, Hx1, (vertices_loop_tabulate c p D P K k Hs HK).
  unfold np.mul. rewrite <- Hsig. fold (np.size sigma).
  rewrite lift2_tabulate_row, sum_axis1_tabulate.
  apply map_ext; intros l. apply sum_over_ext; intros q _. ring.
Qed.

(** ** The direct strategy: [jit_grav] and [jit_mag] *)

Section Accumulation.

Lemma set_length (a : np.array1) (i : nat) (v : R) :
  length (np.set a i v) = length a.
Proof.
  revert i. induction a as [|h t IH]; intros [|i]; simpl; auto.
Qed.

Lemma get_set_same (a : np.array1) (i : nat) (v : R) :
  (i < length a)%nat -> (np.set a i v).[i] = v.
Proof.
  unfold np.get. revert i.
  induction a as [|h t IH]; intros [|i] Hi; simpl in *; try lia; auto.
  apply IH. lia.
Qed.

Lemma get_set_other (a : np.array1) (i j : nat) (v : R) :
  i <> j -> (np.set a i v).[j] = a.[j].
Proof.
  unfold np.get. revert i j.
  induction a as [|h t IH]; intros [|i] [|j] Hij; simpl; auto; try lia.
Qed.

Lemma set_set (a : np.array1) (i : nat) (v w : R) :
  np.set (np.set a i v) i w = np.set a i w.
Proof.
  revert i. induction a as [|h t IH]; intros [|i]; simpl; auto.
  now rewrite IH.
Qed.

Lemma set_get (a : np.array1) (i : nat) : np.set a i a.[i] = a.
Proof.
  unfold np.get. revert i.
  induction a as [|h t IH]; intros [|i]; simpl; auto. now rewrite IH.
Qed.

Variable body : np.array1 -> nat -> nat -> np.array1.
Variable t : nat -> nat -> R.
Hypothesis body_adds : forall out l p,
  (l < length out)%nat -> body out l p = np.set out l (out.[l] + t l p).

(** The loop over the prisms adds their sum to [out[l]]. *)
Lemma prisms_loop (ps : list nat) (l : nat) (out : np.array1) :
  (l < length out)%nat ->
  fold_left (fun out p => body out l p) ps out
  = np.set out l (out.[l] + Spec.sum_over ps (t l)).
Proof.
  revert out. induction ps as [|p ps IH]; intros out Hl.
  - cbn [fold_left Spec.sum_over fold_right].
    now rewrite Rplus_0_r, set_get.
  - cbn [fold_left]. rewrite body_adds by assumption.
    rewrite IH by now rewrite set_length.
    rewrite set_set, get_set_same, sum_over_cons by assumption.
    f_equal. ring.
Qed.

Lemma points_loop_get (ps : list nat) (n s : nat) (out : np.array1) (j : nat) :
  (s + n <= length out)%nat ->
  let out' := fold_left (fun out l =>
                fold_left (fun out p => body out l p) ps out) (seq s n) out in
  length out' = length out
  /\ out'.[j] = if (s <=? j)%nat && (j <? s + n)%nat
                then out.[j] + Spec.sum_over ps (t j) else out.[j].
Proof.
  revert s out. induction n as [|n IH]; intros s out Hlen; cbn zeta.
  - cbn [seq fold_left]. split; [reflexivity|].
    destruct (Nat.leb_spec s j), (Nat.ltb_spec j (s + 0)); cbn; auto; lia.
  - cbn [seq fold_left]. rewrite prisms_loop by lia.
    destruct (IH (S s) (np.set out s (out.[s] + Spec.sum_over ps (t s))))
      as [Hl Hj]; [rewrite set_length; lia|].
    cbv zeta in Hl, Hj. rewrite Hl, Hj, set_length. split; [reflexivity|].
    destruct (Nat.eq_dec s j) as [<- | Hne].
    + rewrite get_set_same by lia.
      destruct (Nat.leb_spec (S s) s), (Nat.ltb_spec s (S s + n)),
        (Nat.leb_spec s s), (Nat.ltb_spec s (s + S n)); cbn; auto; lia.
    + rewrite get_set_other by assumption.
      destruct (Nat.leb_spec (S s) j), (Nat.ltb_spec j (S s + n)),
        (Nat.leb_spec s j), (Nat.ltb_spec j (s + S n)); cbn; auto; lia.
Qed.

(** The two nested loops: every entry of [out] receives its sum. *)
Lemma points_loop (ps : list nat) (D : nat) (out : np.array1) :
  length out = D ->
  fold_left (fun out l =>
    fold_left (fun out p => body out l p) ps out) (np.range D) out
  = map (fun l => out.[l] + Spec.sum_over ps (t l)) (np.range D).
Proof.
  intros HD. unfold np.range.
  apply nth_ext with (d := 0) (d' := 0).
  - destruct (points_loop_get ps D 0 out 0) as [Hl _]; [lia|].
    cbv zeta in Hl. now rewrite Hl, length_map, length_seq.
  - intros j Hj.
    destruct (points_loop_get ps D 0 out j) as [Hl Hg]; [lia|].
    cbv zeta in Hl, Hg. rewrite Hl, HD in Hj.
    fold (np.get (fold_left (fun out l =>
            fold_left (fun out p => body out l p) ps out) (seq 0 D) out) j).
    rewrite Hg.
    destruct (Nat.leb_spec 0 j), (Nat.ltb_spec j (0 + D)); try lia.
    cbn [andb].
    rewrite (nth_indep _ 0 (out.[0] + Spec.sum_over ps (t 0%nat)))
      by now rewrite length_map, length_seq.
    rewrite (map_nth (fun l => out.[l] + Spec.sum_over ps (t l))).
    now rewrite seq_nth.
Qed.

End Accumulation.

(** The corner sum, written out: the eight terms of the numba loops. *)
Lemma corner_sum_expand (field : rectangular_prism_numba.kernel) (k : Spec.kernel)
    (pt : Spec.point) (b : Spec.prism) :
  recomputes_distance field k ->
  let X1 := Spec.x1 b - Spec.px pt in
  let X2 := Spec.x2 b - Spec.px pt in
  let Y1 := Spec.y1 b - Spec.py pt in
  let Y2 := Spec.y2 b - Spec.py pt in
  let Z1 := Spec.z1 b - Spec.pz pt in
  let Z2 := Spec.z2 b - Spec.pz pt in
  field X2 Y2 Z2 - field X2 Y2 Z1 - field X1 Y2 Z2 + field X1 Y2 Z1
  - field X2 Y1 Z2 + field X2 Y1 Z1 + field X1 Y1 Z2 - field X1 Y1 Z1
  = Spec.corner_sum k pt b.
Proof.
  intros Hf. cbv zeta.
  unfold Spec.corner_sum, Spec.corners.
  cbn [flat_map map app Spec.sum_over fold_right].
  unfold Spec.at_corner, Spec.sign. cbn [Spec.face Nat.add].
  rewrite <- !Hf. ring.
Qed.

Lemma coordinates_array_get (c : coordinates_dict) (l : nat) :
  (coordinates_array c).[0, l] = (key_x c).[l]
  /\ (coordinates_array c).[1, l] = (key_y c).[l]
  /\ (coordinates_array c).[2, l] = (key_z c).[l].
Proof. repeat split; reflexivity. Qed.

Lemma prisms_array_row (p : prisms_dict) (q : nat) :
  (q < length (key_x1 p))%nat ->
  nth q (prisms_array p) []
  = [(key_x1 p).[q]; (key_x2 p).[q]; (key_y1 p).[q];
     (key_y2 p).[q]; (key_z1 p).[q]; (key_z2 p).[q]].
Proof.
  intros Hq. unfold prisms_array, np.range, np.size.
  cbn [getitem prisms_getitem].
  set (row := fun q => [(key_x1 p).[q]; (key_x2 p).[q]; (key_y1 p).[q];
                        (key_y2 p).[q]; (key_z1 p).[q]; (key_z2 p).[q]]).
  rewrite (nth_indep _ [] (row 0%nat)) by now rewrite length_map, length_seq.
  rewrite (map_nth row), seq_nth by assumption. reflexivity.
Qed.

Lemma prisms_array_get (c : coordinates_dict) (p : prisms_dict) (D P q : nat) :
  shapes_ok c p D P = true ->
  (prisms_array p).[q, 0] = (key_x1 p).[q]
  /\ (prisms_array p).[q, 1] = (key_x2 p).[q]
  /\ (prisms_array p).[q, 2] = (key_y1 p).[q]
  /\ (prisms_array p).[q, 3] = (key_y2 p).[q]
  /\ (prisms_array p).[q, 4] = (key_z1 p).[q]
  /\ (prisms_array p).[q, 5] = (key_z2 p).[q].
Proof.
  intros Hs.
  apply shapes_ok_lengths in Hs as (_ & H1 & H2 & H3 & H4 & H5 & H6).
  unfold np.get2.
  destruct (Nat.lt_ge_cases q P) as [Hq | Hq].
  - rewrite prisms_array_row by lia. repeat split; reflexivity.
  - rewrite (nth_overflow (prisms_array p))
      by (unfold prisms_array, np.range, np.size;
          cbn [getitem prisms_getitem];
          rewrite length_map, length_seq; lia).
    unfold np.get.
    rewrite (nth_overflow (key_x1 p)), (nth_overflow (key_x2 p)),
      (nth_overflow (key_y1 p)), (nth_overflow (key_y2 p)),
      (nth_overflow (key_z1 p)), (nth_overflow (key_z2 p)) by lia.
    repeat split; reflexivity.
Qed.

Lemma arrays_sizes (c : coordinates_dict) (p : prisms_dict) (D P : nat) :
  shapes_ok c p D P = true ->
  np.size (nth 0%nat (coordinates_array c) []) = D
  /\ length (prisms_array p) = P.
Proof.
  intros Hs. apply shapes_ok_lengths in Hs as ((Hx & _) & (Hx1 & _)).
  unfold prisms_array, np.range, np.size. cbn [getitem prisms_getitem].
  rewrite length_map, length_seq. split; assumption.
Qed.

Lemma jit_grav_sum (c : coordinates_dict) (p : prisms_dict) (D P : nat)
    (density : np.array1) (field : rectangular_prism_numba.kernel)
    (k : Spec.kernel) (out : np.array1) :
  shapes_ok c p D P = true -> recomputes_distance field k -> length out = D ->
  rectangular_prism_numba.jit_grav
    (coordinates_array c) (prisms_array p) density field out
  = map (fun l => out.[l] + Spec.sum_over (np.range P) (fun q =>
           density.[q] * Spec.corner_sum k (point_at c l) (prism_at p q)))
        (np.range D).
Proof.
  intros Hs Hf Hout. unfold rectangular_prism_numba.jit_grav.
  destruct (arrays_sizes c p D P Hs) as [-> ->].
  apply points_loop with
    (t := fun l q =>
            density.[q] * Spec.corner_sum k (point_at c l) (prism_at p q));
    [|assumption].
  intros out' l q _. cbv zeta.
  destruct (coordinates_array_get c l) as (-> & -> & ->).
  destruct (prisms_array_get c p D P q Hs) as (-> & -> & -> & -> & -> & ->).
  rewrite <- (corner_sum_expand field k (point_at c l) (prism_at p q) Hf).
  reflexivity.
Qed.

Lemma jit_mag_sum (c : coordinates_dict) (p : prisms_dict) (D P : nat)
    (mx my mz : np.array1) (fieldx fieldy fieldz : rectangular_prism_numba.kernel)
    (kx ky kz : Spec.kernel) (out : np.array1) :
  shapes_ok c p D P = true ->
  recomputes_distance fieldx kx -> recomputes_distance fieldy ky ->
  recomputes_distance fieldz kz -> length out = D ->
  rectangular_prism_numba.jit_mag
    (coordinates_array c) (prisms_array p) mx my mz fieldx fieldy fieldz out
  = map (fun l => out.[l] + Spec.sum_over (np.range P) (fun q =>
           mx.[q] * Spec.corner_sum kx (point_at c l) (prism_at p q)
           + my.[q] * Spec.corner_sum ky (point_at c l) (prism_at p q)
           + mz.[q] * Spec.corner_sum kz (point_at c l) (prism_at p q)))
        (np.range D).
Proof.
  intros Hs Hx Hy Hz Hout. unfold rectangular_prism_numba.jit_mag.
  destruct (arrays_sizes c p D P Hs) as [-> ->].
  apply points_loop with
    (t := fun l q =>
            mx.[q] * Spec.corner_sum kx (point_at c l) (prism_at p q)
            + my.[q] * Spec.corner_sum ky (point_at c l) (prism_at p q)
            + mz.[q] * Spec.corner_sum kz (point_at c l) (prism_at p q));
    [|assumption].
  intros out' l q Hl. cbv zeta.
  destruct (coordinates_array_get c l) as (-> & -> & ->).
  destruct (prisms_array_get c p D P q Hs) as (-> & -> & -> & -> & -> & ->).
  rewrite <- (corner_sum_expand fieldx kx (point_at c l) (prism_at p q) Hx).
  rewrite <- (corner_sum_expand fieldy ky (point_at c l) (prism_at p q) Hy).
  rewrite <- (corner_sum_expand fieldz kz (point_at c l) (prism_at p q) Hz).
  cbv zeta. cbn [Spec.x1 Spec.x2 Spec.y1 Spec.y2 Spec.z1 Spec.z2
                 Spec.px Spec.py Spec.pz point_at prism_at
                 getitem coordinates_getitem prisms_getitem].
  rewrite !set_set.
  rewrite !get_set_same by (rewrite ?set_length; assumption).
  f_equal. ring.
Qed.

(** ** The scalar kernels *)

Ltac kernel_recomputes K :=
  intros X Y Z; unfold K, Spec.safe_log, Spec.safe_atan2; cbv zeta;
  try reflexivity.

Lemma kernel_inverse_r_recomputes :
  recomputes_distance rectangular_prism_numba.kernel_inverse_r Spec.K_pot.
Proof.
  kernel_recomputes rectangular_prism_numba.kernel_inverse_r.
  unfold Spec.K_pot, Spec.safe_log, Spec.safe_atan2. ring.
Qed.

Lemma kernel_dx_recomputes :
  recomputes_distance rectangular_prism_numba.kernel_dx Spec.K_x.
Proof. kernel_recomputes rectangular_prism_numba.kernel_dx. Qed.

Lemma kernel_dy_recomputes :
  recomputes_distance rectangular_prism_numba.kernel_dy Spec.K_y.
Proof. kernel_recomputes rectangular_prism_numba.kernel_dy. Qed.

Lemma kernel_dz_recomputes :
  recomputes_distance rectangular_prism_numba.kernel_dz Spec.K_z.
Proof. kernel_recomputes rectangular_prism_numba.kernel_dz. Qed.

Lemma kernel_dxx_recomputes :
  recomputes_distance rectangular_prism_numba.kernel_dxx Spec.K_xx.
Proof. kernel_recomputes rectangular_prism_numba.kernel_dxx. Qed.

Lemma kernel_dxy_recomputes :
  recomputes_distance rectangular_prism_numba.kernel_dxy Spec.K_xy.
Proof. kernel_recomputes rectangular_prism_numba.kernel_dxy. Qed.

Lemma kernel_dxz_recomputes :
  recomputes_distance rectangular_prism_numba.kernel_dxz Spec.K_xz.
Proof. kernel_recomputes rectangular_prism_numba.kernel_dxz. Qed.

Lemma kernel_dyy_recomputes :
  recomputes_distance rectangular_prism_numba.kernel_dyy Spec.K_yy.
Proof. kernel_recomputes rectangular_prism_numba.kernel_dyy. Qed.

Lemma kernel_dyz_recomputes :
  recomputes_distance rectangular_prism_numba.kernel_dyz Spec.K_yz.
Proof. kernel_recomputes rectangular_prism_numba.kernel_dyz. Qed.

Lemma kernel_dzz_recomputes :
  recomputes_distance rectangular_prism_numba.kernel_dzz Spec.K_zz.
Proof. kernel_recomputes rectangular_prism_numba.kernel_dzz. Qed.

(** ** The kernel dictionaries *)

Lemma lookup_in {V : Type} (key : string) (d : list (string * V)) (v : V) :
  lookup key d = Some v -> In (key, v) d.
Proof.
  induction d as [|[k w] d IH]; cbn [lookup]; [discriminate|].
  destruct (String.eqb_spec key k) as [-> | _].
  - intros [= ->]. now left.
  - intros H. right. now apply IH.
Qed.

Lemma lookup_none {V : Type} (key : string) (d : list (string * V)) :
  lookup key d = None <-> ~ In key (map fst d).
Proof.
  induction d as [|[k w] d IH]; cbn [lookup map fst In]; [tauto|].
  destruct (String.eqb_spec key k) as [-> | Hne].
  - split; [discriminate | tauto].
  - rewrite IH. split; [intros H [E | I]; [now symmetry in E | tauto] | tauto].
Qed.

(** ** What a call of [grav] and [mag] does *)

Ltac unfold_checks :=
  unfold valid_dicts, shapes_ok, run, bind,
    check.are_coordinates, check.are_rectangular_prisms,
    check.is_array, ret, raise, engine;
  rewrite ?Nat.eqb_refl; cbn [andb].

Ltac split_check b :=
  destruct b; cbn [andb]; [|reflexivity].

Ltac split_props :=
  cbn [check.all_of_length forallb]; rewrite ?andb_true_r;
  repeat match goal with
  | |- context [Nat.eqb (np.size ?a) ?n] =>
      change (Nat.eqb (np.size a) n) with (Nat.eqb (length a) n)
  end;
  repeat match goal with
  | |- context [if Nat.eqb (length ?a) ?n then _ else _] =>
      destruct (Nat.eqb (length a) n); cbn [andb]; [|reflexivity]
  end.

Lemma grav_run (cts : constants) (c : coordinates_dict) (p : prisms_dict)
    (density : np.array1) (field : string) (scale : bool) :
  run (rectangular_prism.grav cts c p density field scale)
  = if valid_dicts c p [density] then
      match lookup field rectangular_prism.grav_kernels with
      | None => ([], inl (grav_error field))
      | Some K =>
          ([EngineCall],
           inr (grav_scaling cts field scale
                  (rectangular_prism.iterate_over_vertices c p density K)))
      end
    else ([], inl ShapeMismatch).
Proof.
  unfold rectangular_prism.grav. unfold_checks.
  split_check (check.all_of_length (np.size c.{"x"}) [c.{"y"}; c.{"z"}]).
  split_check (check.all_of_length (np.size p.{"x1"})
                 [p.{"x2"}; p.{"y1"}; p.{"y2"}; p.{"z1"}; p.{"z2"}]).
  split_props.
  destruct (lookup field rectangular_prism.grav_kernels); reflexivity.
Qed.

Lemma mag_run (cts : constants) (c : coordinates_dict) (p : prisms_dict)
    (mx my mz : np.array1) (field : string) (scale : bool) :
  run (rectangular_prism.mag cts c p mx my mz field scale)
  = if valid_dicts c p [mx; my; mz] then
      match lookup field rectangular_prism.mag_kernels with
      | None => ([], inl (mag_error field))
      | Some (Kx, Ky, Kz) =>
          ([EngineCall; EngineCall; EngineCall],
           inr (mag_scaling cts field scale
                  (np.add1
                     (np.add1
                        (rectangular_prism.iterate_over_vertices c p mx Kx)
                        (rectangular_prism.iterate_over_vertices c p my Ky))
                     (rectangular_prism.iterate_over_vertices c p mz Kz))))
      end
    else ([], inl ShapeMismatch).
Proof.
  unfold rectangular_prism.mag. unfold_checks.
  split_check (check.all_of_length (np.size c.{"x"}) [c.{"y"}; c.{"z"}]).
  split_check (check.all_of_length (np.size p.{"x1"})
                 [p.{"x2"}; p.{"y1"}; p.{"y2"}; p.{"z1"}; p.{"z2"}]).
  split_props.
  destruct (lookup field rectangular_prism.mag_kernels) as [[[Kx Ky] Kz]|];
    reflexivity.
Qed.

Lemma kernel_table_agrees (K : rectangular_prism.kernel)
    (f : rectangular_prism_numba.kernel) (k : Spec.kernel) :
  In (K, f, k) kernel_table -> entrywise K k /\ recomputes_distance f k.
Proof.
  unfold kernel_table. cbn [In].
  intros H. repeat destruct H as [H | H]; try contradiction;
    injection H as <- <- <-; split;
    first [ exact kernel_potential_grav_entrywise
          | exact kernel_x_entrywise | exact kernel_y_entrywise
          | exact kernel_z_entrywise | exact kernel_xx_entrywise
          | exact kernel_xy_entrywise | exact kernel_xz_entrywise
          | exact kernel_yy_entrywise | exact kernel_yz_entrywise
          | exact kernel_zz_entrywise
          | exact kernel_inverse_r_recomputes
          | exact kernel_dx_recomputes | exact kernel_dy_recomputes
          | exact kernel_dz_recomputes | exact kernel_dxx_recomputes
          | exact kernel_dxy_recomputes | exact kernel_dxz_recomputes
          | exact kernel_dyy_recomputes | exact kernel_dyz_recomputes
          | exact kernel_dzz_recomputes ].
Qed.

Lemma entrywise_arrays (K : rectangular_prism.kernel) (k : Spec.kernel)
    (D P : nat) (X Y Z R : np.array2) :
  entrywise K k ->
  has_shape D P X = true -> has_shape D P Y = true ->
  has_shape D P Z = true -> has_shape D P R = true ->
  K X Y Z R
  = np.tabulate D P (fun l q => k X.[l, q] Y.[l, q] Z.[l, q] R.[l, q]).
Proof.
  intros HK HX HY HZ HR.
  rewrite (tabulate_shape D P X HX) at 1. rewrite (tabulate_shape D P Y HY) at 1.
  rewrite (tabulate_shape D P Z HZ) at 1. rewrite (tabulate_shape D P R HR) at 1.
  apply HK.
Qed.

(** ** Safe logarithm and arctangent *)

Lemma atan2_range (y x : R) : - PI < atan2 y x <= PI.
Proof.
  unfold atan2. pose proof PI_RGT_0 as Hpi.
  pose proof (atan_bound (y / x)) as [Hlo Hhi].
  destruct (Rlt_dec 0 x) as [Hx | Hx]; [lra|].
  destruct (Rlt_dec x 0) as [Hx' | Hx'].
  - destruct (Rle_dec 0 y) as [Hy | Hy].
    + assert (y / x <= 0).
      { pose proof (Rinv_lt_0_compat x Hx'). unfold Rdiv. nra. }
      assert (atan (y / x) <= 0).
      { destruct (Req_dec (y / x) 0) as [-> | Hne]; [rewrite atan_0; lra|].
        left. rewrite <- atan_0. apply atan_increasing. lra. }
      lra.
    + assert (0 < y / x).
      { pose proof (Rinv_lt_0_compat x Hx'). unfold Rdiv. nra. }
      assert (0 < atan (y / x)).
      { rewrite <- atan_0. now apply atan_increasing. }
      lra.
  - destruct (Rlt_dec 0 y); [lra|]. destruct (Rlt_dec y 0); lra.
Qed.

(** C5: [safe_log] is [0] on every argument [<= 0] and the logarithm
    elsewhere; [safe_atan2] is [0] whenever the denominator is [0], whatever
    the numerator, and [atan2], with values in (-PI, PI], elsewhere; the array
    versions apply them to every entry of arrays of any shape. *)
Theorem C5_safe_log_atan2 :
  (forall t : R, t <= 0 -> utils.safe_log_entrywise t = 0)
  /\ (forall t : R, 0 < t -> utils.safe_log_entrywise t = ln t)
  /\ (forall numerator : R, utils.safe_atan2_entrywise numerator 0 = 0)
  /\ (forall numerator denominator : R, denominator <> 0 ->
        utils.safe_atan2_entrywise numerator denominator
        = atan2 numerator denominator)
  /\ (forall numerator denominator : R,
        - PI < utils.safe_atan2_entrywise numerator denominator <= PI)
  /\ (forall (D P : nat) (t : nat -> nat -> R),
        utils.safe_log (np.tabulate D P t)
        = np.tabulate D P (fun l q => utils.safe_log_entrywise (t l q)))
  /\ (forall (D P : nat) (n d : nat -> nat -> R),
        utils.safe_atan2 (np.tabulate D P n) (np.tabulate D P d)
        = np.tabulate D P (fun l q => utils.safe_atan2_entrywise (n l q) (d l q))).
Proof.
  unfold utils.safe_log_entrywise, utils.safe_atan2_entrywise.
  repeat split.
  - intros t Ht. destruct (Rle_dec t 0); [reflexivity | contradiction].
  - intros t Ht. destruct (Rle_dec t 0); [lra | reflexivity].
  - intros n. destruct (Req_dec_T 0 0); [reflexivity | contradiction].
  - intros n d Hd. destruct (Req_dec_T d 0); [contradiction | reflexivity].
  - destruct (Req_dec_T denominator 0); [pose proof PI_RGT_0; lra|].
    apply atan2_range.
  - destruct (Req_dec_T denominator 0); [pose proof PI_RGT_0; lra|].
    apply atan2_range.
  - intros D P t. unfold utils.safe_log. apply lift1_tabulate.
  - intros D P n d. unfold utils.safe_atan2. apply lift2_tabulate.
Qed.

Lemma C5_safe_log_atan2_witness :
  utils.safe_log_entrywise (-1) = 0
  /\ utils.safe_log_entrywise 1 = ln 1
  /\ utils.safe_atan2_entrywise 1 1 = atan2 1 1.
Proof.
  destruct C5_safe_log_atan2 as (Hlog0 & Hlog & _ & Hatan & _).
  split; [apply Hlog0; lra | split; [apply Hlog; lra | apply Hatan; lra]].
Defined.

(** C3: each of the ten kernels computes its formula of the specification:
    the array kernels entry by entry on arrays X, Y, Z, R of one shape, the
    scalar kernels with R = sqrt(X^2 + Y^2 + Z^2). *)
Theorem C3_kernel_formulas (K : rectangular_prism.kernel)
    (f : rectangular_prism_numba.kernel) (k : Spec.kernel) :
  In (K, f, k) kernel_table ->
  (forall (D P : nat) (X Y Z R : np.array2),
     has_shape D P X = true -> has_shape D P Y = true ->
     has_shape D P Z = true -> has_shape D P R = true ->
     K X Y Z R
     = np.tabulate D P (fun l q => k X.[l, q] Y.[l, q] Z.[l, q] R.[l, q]))
  /\ (forall X Y Z : R, f X Y Z = k X Y Z (sqrt (X ^ 2 + Y ^ 2 + Z ^ 2))).
Proof.
  intros Hin. destruct (kernel_table_agrees K f k Hin) as [HK Hf].
  split.
  - intros D P X Y Z R. now apply entrywise_arrays.
  - exact Hf.
Qed.

Lemma C3_kernel_formulas_witness :
  rectangular_prism.kernel_xy [[0]] [[0]] [[1]] [[1]]
  = np.tabulate 1 1 (fun l q =>
      Spec.K_xy [[0]].[l, q] [[0]].[l, q] [[1]].[l, q] [[1]].[l, q])
  /\ rectangular_prism_numba.kernel_dxy 0 0 1
     = Spec.K_xy 0 0 1 (sqrt (0 ^ 2 + 0 ^ 2 + 1 ^ 2)).
Proof.
  destruct (C3_kernel_formulas rectangular_prism.kernel_xy
              rectangular_prism_numba.kernel_dxy Spec.K_xy) as [Harr Hsc].
  - unfold kernel_table. simpl. tauto.
  - split; [apply Harr; reflexivity | apply Hsc].
Defined.

(** ** Dispatch on the field name *)

Ltac split_field field name :=
  destruct (String.eqb_spec field name) as [-> | ?].

Lemma grav_dispatch (field : string) :
  (lookup field rectangular_prism.grav_kernels = None
   /\ lookup field rectangular_prism_numba.grav_fields = None
   /\ lookup field Spec.gravity_kernels = None
   /\ ~ In field Spec.gravity_fields)
  \/ (exists K f k,
        lookup field rectangular_prism.grav_kernels = Some K
        /\ lookup field rectangular_prism_numba.grav_fields = Some f
        /\ lookup field Spec.gravity_kernels = Some k
        /\ In (K, f, k) kernel_table
        /\ In field Spec.gravity_fields).
Proof.
  unfold rectangular_prism.grav_kernels, rectangular_prism_numba.grav_fields,
    Spec.gravity_kernels, Spec.gravity_fields, kernel_table.
  cbn [lookup].
  split_field field "potential"%string;
    [right; do 3 eexists; cbn; repeat split; auto 12|].
  split_field field "x"%string;
    [right; do 3 eexists; cbn; repeat split; auto 12|].
  split_field field "y"%string;
    [right; do 3 eexists; cbn; repeat split; auto 12|].
  split_field field "z"%string;
    [right; do 3 eexists; cbn; repeat split; auto 12|].
  split_field field "xx"%string;
    [right; do 3 eexists; cbn; repeat split; auto 12|].
  split_field field "xy"%string;
    [right; do 3 eexists; cbn; repeat split; auto 12|].
  split_field field "xz"%string;
    [right; do 3 eexists; cbn; repeat split; auto 12|].
  split_field field "yy"%string;
    [right; do 3 eexists; cbn; repeat split; auto 12|].
  split_field field "yz"%string;
    [right; do 3 eexists; cbn; repeat split; auto 12|].
  split_field field "zz"%string;
    [right; do 3 eexists; cbn; repeat split; auto 12|].
  left. repeat split; try reflexivity.
  cbn [In]. intros H. repeat destruct H as [H | H]; try contradiction;
    symmetry in H; contradiction.
Qed.

Lemma mag_dispatch (field : string) :
  (lookup field rectangular_prism.mag_kernels = None
   /\ lookup field rectangular_prism_numba.mag_fields = None
   /\ lookup field Spec.magnetic_kernels = None
   /\ ~ In field Spec.magnetic_fields)
  \/ (exists Kx Ky Kz fx fy fz kx ky kz,
        lookup field rectangular_prism.mag_kernels = Some (Kx, Ky, Kz)
        /\ lookup field rectangular_prism_numba.mag_fields = Some (fx, fy, fz)
        /\ lookup field Spec.magnetic_kernels = Some (kx, ky, kz)
        /\ In (Kx, fx, kx) kernel_table
        /\ In (Ky, fy, ky) kernel_table
        /\ In (Kz, fz, kz) kernel_table
        /\ In field Spec.magnetic_fields).
Proof.
  unfold rectangular_prism.mag_kernels, rectangular_prism_numba.mag_fields,
    Spec.magnetic_kernels, Spec.magnetic_fields, kernel_table.
  cbn [lookup].
  split_field field "potential"%string;
    [right; do 9 eexists; cbn; repeat split; auto 12|].
  split_field field "x"%string;
    [right; do 9 eexists; cbn; repeat split; auto 12|].
  split_field field "y"%string;
    [right; do 9 eexists; cbn; repeat split; auto 12|].
  split_field field "z"%string;
    [right; do 9 eexists; cbn; repeat split; auto 12|].
  left. repeat split; try reflexivity.
  cbn [In]. intros H. repeat destruct H as [H | H]; try contradiction;
    symmetry in H; contradiction.
Qed.

(** ** Both strategies compute the sums of section 4.4 *)

Lemma zeros_get (D l : nat) : (np.zeros D).[l] = 0.
Proof.
  unfold np.get, np.zeros. destruct (Nat.lt_ge_cases l D).
  - apply nth_repeat_lt. assumption.
  - apply nth_overflow. now rewrite repeat_length.
Qed.

Lemma jit_grav_zeros (c : coordinates_dict) (p : prisms_dict) (D P : nat)
    (density : np.array1) (f : rectangular_prism_numba.kernel) (k : Spec.kernel) :
  shapes_ok c p D P = true -> recomputes_distance f k ->
  rectangular_prism_numba.jit_grav
    (coordinates_array c) (prisms_array p) density f (np.zeros D)
  = map (fun l => Spec.sum_over (np.range P) (fun q =>
           density.[q] * Spec.corner_sum k (point_at c l) (prism_at p q)))
        (np.range D).
Proof.
  intros Hs Hf.
  rewrite (jit_grav_sum c p D P density f k (np.zeros D) Hs Hf)
    by apply repeat_length.
  apply map_ext; intros l. rewrite zeros_get. ring.
Qed.

Lemma jit_mag_zeros (c : coordinates_dict) (p : prisms_dict) (D P : nat)
    (mx my mz : np.array1) (fx fy fz : rectangular_prism_numba.kernel)
    (kx ky kz : Spec.kernel) :
  shapes_ok c p D P = true ->
  recomputes_distance fx kx -> recomputes_distance fy ky ->
  recomputes_distance fz kz ->
  rectangular_prism_numba.jit_mag
    (coordinates_array c) (prisms_array p) mx my mz fx fy fz (np.zeros D)
  = map (fun l => Spec.sum_over (np.range P) (fun q =>
           mx.[q] * Spec.corner_sum kx (point_at c l) (prism_at p q)
           + my.[q] * Spec.corner_sum ky (point_at c l) (prism_at p q)
           + mz.[q] * Spec.corner_sum kz (point_at c l) (prism_at p q)))
        (np.range D).
Proof.
  intros Hs Hx Hy Hz.
  rewrite (jit_mag_sum c p D P mx my mz fx fy fz kx ky kz (np.zeros D)
             Hs Hx Hy Hz) by apply repeat_length.
  apply map_ext; intros l. rewrite zeros_get. ring.
Qed.

(** The three passes of [mag], added. *)
Lemma iterate_over_vertices_mag (c : coordinates_dict) (p : prisms_dict)
    (D P : nat) (mx my mz : np.array1)
    (Kx Ky Kz : rectangular_prism.kernel) (kx ky kz : Spec.kernel) :
  shapes_ok c p D P = true ->
  entrywise Kx kx -> entrywise Ky ky -> entrywise Kz kz ->
  length mx = P -> length my = P -> length mz = P ->
  np.add1
    (np.add1 (rectangular_prism.iterate_over_vertices c p mx Kx)
             (rectangular_prism.iterate_over_vertices c p my Ky))
    (rectangular_prism.iterate_over_vertices c p mz Kz)
  = map (fun l => Spec.sum_over (np.range P) (fun q =>
           mx.[q] * Spec.corner_sum kx (point_at c l) (prism_at p q)
           + my.[q] * Spec.corner_sum ky (point_at c l) (prism_at p q)
           + mz.[q] * Spec.corner_sum kz (point_at c l) (prism_at p q)))
        (np.range D).
Proof.
  intros Hs Hx Hy Hz Hmx Hmy Hmz.
  rewrite (iterate_over_vertices_sum c p D P mx Kx kx Hs Hx Hmx).
  rewrite (iterate_over_vertices_sum c p D P my Ky ky Hs Hy Hmy).
  rewrite (iterate_over_vertices_sum c p D P mz Kz kz Hs Hz Hmz).
  unfold np.add1. rewrite !broadcast_map.
  apply map_ext; intros l. now rewrite !sum_over_plus.
Qed.

Lemma shapes_valid_dicts (c : coordinates_dict) (p : prisms_dict) (D P : nat)
    (props : list np.array1) :
  shapes_ok c p D P = true ->
  valid_dicts c p props = check.all_of_length P props.
Proof.
  intros Hs. pose proof (shapes_ok_lengths c p D P Hs) as ((Hx & _) & (Hx1 & _)).
  unfold valid_dicts, np.size. cbn [getitem coordinates_getitem prisms_getitem].
  rewrite Hx, Hx1. unfold np.size in Hs.
  cbn [getitem coordinates_getitem prisms_getitem] in Hs. now rewrite Hs.
Qed.

(** ** The corner sums *)

Lemma map_range_get (D l : nat) (g : nat -> R) :
  (l < D)%nat -> (map g (np.range D)).[l] = g l.
Proof.
  intros Hl. unfold np.get, np.range.
  rewrite (nth_indep _ 0 (g 0%nat)) by now rewrite length_map, length_seq.
  now rewrite map_nth, seq_nth.
Qed.

(** C2: the per-prism, per-point result of both strategies is the sum over
    the eight corners (i, j, k) of {1, 2}^3 of (-1)^(i+j+k) times the kernel
    at Xi = xi - px, Yj = yj - py, Zk = zk - pz and R = sqrt(Xi^2+Yj^2+Zk^2):
    the entry (l, q) of [predicted_field] after the loops of
    [iterate_over_vertices], and the eight-term expression that [jit_grav]
    weights by the density and adds to [out[l]].  The signs are those of the
    table. *)
Theorem C2_corner_sum (c : coordinates_dict) (p : prisms_dict) (D P : nat) :
  shapes_ok c p D P = true ->
  (Spec.sign 1 1 1 = -1 /\ Spec.sign 2 1 1 = 1 /\ Spec.sign 1 2 1 = 1
   /\ Spec.sign 1 1 2 = 1 /\ Spec.sign 2 2 1 = -1 /\ Spec.sign 2 1 2 = -1
   /\ Spec.sign 1 2 2 = -1 /\ Spec.sign 2 2 2 = 1)
  /\ (forall i j k : nat, In (i, j, k) Spec.corners ->
        IZR ((-1) ^ (Z.of_nat i + Z.of_nat j + Z.of_nat k)) = Spec.sign i j k)
  /\ (forall K f k, In (K, f, k) kernel_table ->
        (forall l q : nat, (l < D)%nat -> (q < P)%nat ->
           (rectangular_prism.vertices_loop c p K (np.zeros2 D P)).[l, q]
           = Spec.corner_sum k (point_at c l) (prism_at p q))
        /\ (forall (pt : Spec.point) (b : Spec.prism),
              let X1 := Spec.x1 b - Spec.px pt in
              let X2 := Spec.x2 b - Spec.px pt in
              let Y1 := Spec.y1 b - Spec.py pt in
              let Y2 := Spec.y2 b - Spec.py pt in
              let Z1 := Spec.z1 b - Spec.pz pt in
              let Z2 := Spec.z2 b - Spec.pz pt in
              f X2 Y2 Z2 - f X2 Y2 Z1 - f X1 Y2 Z2 + f X1 Y2 Z1
              - f X2 Y1 Z2 + f X2 Y1 Z1 + f X1 Y1 Z2 - f X1 Y1 Z1
              = Spec.corner_sum k pt b)
        /\ (forall (density : np.array1) (l : nat), (l < D)%nat ->
              (rectangular_prism_numba.jit_grav (coordinates_array c)
                 (prisms_array p) density f (np.zeros D)).[l]
              = Spec.sum_over (np.range P) (fun q =>
                  density.[q]
                  * Spec.corner_sum k (point_at c l) (prism_at p q)))).
Proof.
  intros Hs. split; [|split].
  - unfold Spec.sign. cbn [Nat.add]. repeat split; ring.
  - intros i j k _. apply sign_of_corner.
  - intros K f k Hin. destruct (kernel_table_agrees K f k Hin) as [HK Hf].
    split; [|split].
    + intros l q Hl Hq.
      rewrite (vertices_loop_tabulate c p D P K k Hs HK).
      now apply get2_tabulate.
    + intros pt b. now apply corner_sum_expand.
    + intros density l Hl.
      rewrite (jit_grav_zeros c p D P density f k Hs Hf).
      now apply map_range_get.
Qed.

Lemma C2_corner_sum_witness :
  (rectangular_prism.vertices_loop origin_point unit_prism
     rectangular_prism.kernel_z (np.zeros2 1 1)).[0, 0]
  = Spec.corner_sum Spec.K_z (point_at origin_point 0) (prism_at unit_prism 0).
Proof.
  destruct (C2_corner_sum origin_point unit_prism 1 1) as (_ & _ & H).
  - reflexivity.
  - destruct (H rectangular_prism.kernel_z rectangular_prism_numba.kernel_dz
                Spec.K_z) as (Hbatch & _).
    + unfold kernel_table. simpl. tauto.
    + apply Hbatch; lia.
Defined.

(** ** The two strategies agree *)

(** C1: on the same input, D points and P prisms in the dictionary layout
    for [iterate_over_vertices] and in the positional layout for [jit_grav]
    and [jit_mag], with source-property arrays of length P, the batch
    strategy and the direct strategy return the same array of length D, for
    every kernel and for the three-kernel sum of the magnetic field; and
    for every supported field name the kernel dictionaries of the two
    modules select kernels on which the two strategies agree.  The equality
    is exact in real arithmetic. *)
Theorem C1_batch_direct_agree (c : coordinates_dict) (p : prisms_dict)
    (D P : nat) :
  shapes_ok c p D P = true ->
  (forall K f k (sigma : np.array1),
     In (K, f, k) kernel_table -> length sigma = P ->
     rectangular_prism.iterate_over_vertices c p sigma K
     = rectangular_prism_numba.jit_grav
         (coordinates_array c) (prisms_array p) sigma f (np.zeros D)
     /\ length (rectangular_prism.iterate_over_vertices c p sigma K) = D)
  /\ (forall Kx fx kx Ky fy ky Kz fz kz (mx my mz : np.array1),
        In (Kx, fx, kx) kernel_table -> In (Ky, fy, ky) kernel_table ->
        In (Kz, fz, kz) kernel_table ->
        length mx = P -> length my = P -> length mz = P ->
        np.add1
          (np.add1 (rectangular_prism.iterate_over_vertices c p mx Kx)
                   (rectangular_prism.iterate_over_vertices c p my Ky))
          (rectangular_prism.iterate_over_vertices c p mz Kz)
        = rectangular_prism_numba.jit_mag (coordinates_array c)
            (prisms_array p) mx my mz fx fy fz (np.zeros D))
  /\ (forall field : string, In field Spec.gravity_fields ->
        exists K f,
          lookup field rectangular_prism.grav_kernels = Some K
          /\ lookup field rectangular_prism_numba.grav_fields = Some f
          /\ forall sigma : np.array1, length sigma = P ->
               rectangular_prism.iterate_over_vertices c p sigma K
               = rectangular_prism_numba.jit_grav (coordinates_array c)
                   (prisms_array p) sigma f (np.zeros D))
  /\ (forall field : string, In field Spec.magnetic_fields ->
        exists Kx Ky Kz fx fy fz,
          lookup field rectangular_prism.mag_kernels = Some (Kx, Ky, Kz)
          /\ lookup field rectangular_prism_numba.mag_fields = Some (fx, fy, fz)
          /\ forall mx my mz : np.array1,
               length mx = P -> length my = P -> length mz = P ->
               np.add1
                 (np.add1 (rectangular_prism.iterate_over_vertices c p mx Kx)
                          (rectangular_prism.iterate_over_vertices c p my Ky))
                 (rectangular_prism.iterate_over_vertices c p mz Kz)
               = rectangular_prism_numba.jit_mag (coordinates_array c)
                   (prisms_array p) mx my mz fx fy fz (np.zeros D)).
Proof.
  intros Hs.
  assert (Hgrav : forall K f k (sigma : np.array1),
            In (K, f, k) kernel_table -> length sigma = P ->
            rectangular_prism.iterate_over_vertices c p sigma K
            = rectangular_prism_numba.jit_grav
                (coordinates_array c) (prisms_array p) sigma f (np.zeros D)).
  { intros K f k sigma Hin Hsig.
    destruct (kernel_table_agrees K f k Hin) as [HK Hf].
    rewrite (iterate_over_vertices_sum c p D P sigma K k Hs HK Hsig).
    now rewrite (jit_grav_zeros c p D P sigma f k Hs Hf). }
  assert (Hmag : forall Kx fx kx Ky fy ky Kz fz kz (mx my mz : np.array1),
            In (Kx, fx, kx) kernel_table -> In (Ky, fy, ky) kernel_table ->
            In (Kz, fz, kz) kernel_table ->
            length mx = P -> length my = P -> length mz = P ->
            np.add1
              (np.add1 (rectangular_prism.iterate_over_vertices c p mx Kx)
                       (rectangular_prism.iterate_over_vertices c p my Ky))
              (rectangular_prism.iterate_over_vertices c p mz Kz)
            = rectangular_prism_numba.jit_mag (coordinates_array c)
                (prisms_array p) mx my mz fx fy fz (np.zeros D)).
  { intros Kx fx kx Ky fy ky Kz fz kz mx my mz Hx Hy Hz Hmx Hmy Hmz.
    destruct (kernel_table_agrees _ _ _ Hx) as [HKx Hfx].
    destruct (kernel_table_agrees _ _ _ Hy) as [HKy Hfy].
    destruct (kernel_table_agrees _ _ _ Hz) as [HKz Hfz].
    rewrite (iterate_over_vertices_mag c p D P mx my mz Kx Ky Kz kx ky kz)
      by assumption.
    now rewrite (jit_mag_zeros c p D P mx my mz fx fy fz kx ky kz). }
  split; [|split; [exact Hmag | split]].
  - intros K f k sigma Hin Hsig. split; [now apply (Hgrav K f k)|].
    destruct (kernel_table_agrees K f k Hin) as [HK _].
    rewrite (iterate_over_vertices_sum c p D P sigma K k Hs HK Hsig).
    unfold np.range. now rewrite length_map, length_seq.
  - intros field Hfield.
    destruct (grav_dispatch field)
      as [(_ & _ & _ & Hout) | (K & f & k & HK & Hf & _ & Hin & _)];
      [contradiction|].
    exists K, f. repeat split; try assumption.
    intros sigma Hsig. now apply (Hgrav K f k).
  - intros field Hfield.
    destruct (mag_dispatch field)
      as [(_ & _ & _ & Hout)
         | (Kx & Ky & Kz & fx & fy & fz & kx & ky & kz
            & HK & Hf & _ & Hx & Hy & Hz & _)];
      [contradiction|].
    exists Kx, Ky, Kz, fx, fy, fz. repeat split; try assumption.
    intros mx my mz Hmx Hmy Hmz.
    now apply (Hmag Kx fx kx Ky fy ky Kz fz kz).
Qed.

Lemma C1_batch_direct_agree_witness :
  rectangular_prism.iterate_over_vertices origin_point unit_prism [1]
    rectangular_prism.kernel_xy
  = rectangular_prism_numba.jit_grav (coordinates_array origin_point)
      (prisms_array unit_prism) [1] rectangular_prism_numba.kernel_dxy
      (np.zeros 1).
Proof.
  destruct (C1_batch_direct_agree origin_point unit_prism 1 1)
    as (H & _).
  - reflexivity.
  - apply (H rectangular_prism.kernel_xy rectangular_prism_numba.kernel_dxy
             Spec.K_xy [1]).
    + unfold kernel_table. simpl. tauto.
    + reflexivity.
Defined.

(** ** The field assembler *)

Lemma prisms_of_nth (p : prisms_dict) (q : nat) (d : Spec.prism) :
  (q < length (key_x1 p))%nat -> nth q (prisms_of p) d = prism_at p q.
Proof.
  intros Hq. unfold prisms_of, np.range, np.size.
  cbn [getitem prisms_getitem].
  rewrite (nth_indep _ d (prism_at p 0)) by now rewrite length_map, length_seq.
  now rewrite map_nth, seq_nth.
Qed.

Lemma prisms_of_length (p : prisms_dict) :
  length (prisms_of p) = length (key_x1 p).
Proof.
  unfold prisms_of, np.range, np.size. cbn [getitem prisms_getitem].
  now rewrite length_map, length_seq.
Qed.

Lemma magnetic_at_points (c : coordinates_dict) (p : prisms_dict) (D P : nat)
    (kx ky kz : Spec.kernel) (mx my mz : np.array1) :
  shapes_ok c p D P = true ->
  map (Spec.magnetic_at kx ky kz (prisms_of p) mx my mz) (points_of c)
  = map (fun l => Spec.sum_over (np.range P) (fun q =>
           mx.[q] * Spec.corner_sum kx (point_at c l) (prism_at p q)
           + my.[q] * Spec.corner_sum ky (point_at c l) (prism_at p q)
           + mz.[q] * Spec.corner_sum kz (point_at c l) (prism_at p q)))
        (np.range D).
Proof.
  intros Hs. pose proof (shapes_ok_lengths c p D P Hs) as ((Hx & _) & (Hx1 & _)).
  unfold points_of, np.size. cbn [getitem coordinates_getitem].
  rewrite Hx, map_map. apply map_ext; intros l.
  unfold Spec.magnetic_at. rewrite prisms_of_length, Hx1.
  apply sum_over_ext; intros q Hq. apply in_seq in Hq. cbv zeta.
  rewrite prisms_of_nth by lia. reflexivity.
Qed.

Lemma gravity_at_points (c : coordinates_dict) (p : prisms_dict) (D P : nat)
    (k : Spec.kernel) (density : np.array1) :
  shapes_ok c p D P = true ->
  map (Spec.gravity_at k (prisms_of p) density) (points_of c)
  = map (fun l => Spec.sum_over (np.range P) (fun q =>
           density.[q] * Spec.corner_sum k (point_at c l) (prism_at p q)))
        (np.range D).
Proof.
  intros Hs. pose proof (shapes_ok_lengths c p D P Hs) as ((Hx & _) & (Hx1 & _)).
  unfold points_of, np.size. cbn [getitem coordinates_getitem].
  rewrite Hx, map_map. apply map_ext; intros l.
  unfold Spec.gravity_at. rewrite prisms_of_length, Hx1.
  apply sum_over_ext; intros q Hq. apply in_seq in Hq.
  rewrite prisms_of_nth by lia. reflexivity.
Qed.

Lemma lengths_all_of_length (P : nat) (mx my mz : np.array1) :
  length mx = P -> length my = P -> length mz = P ->
  check.all_of_length P [mx; my; mz] = true.
Proof.
  intros Hx Hy Hz. unfold check.all_of_length. cbn [forallb].
  now rewrite Hx, Hy, Hz, !Nat.eqb_refl.
Qed.

(** C4: for D points, P prisms and magnetization arrays of length P, and
    for each magnetic field name, the unscaled output of [mag] at every
    point is the sum over the prisms of mx * corner_sum(kx) + my *
    corner_sum(ky) + mz * corner_sum(kz), where (kx, ky, kz) is (x, y, z) for
    'potential', (xx, xy, xz) for 'x', (xy, yy, yz) for 'y' and (xz, yz, zz)
    for 'z'.  The same sums are what [jit_mag] leaves in a zero-initialised
    [out] when it is run on the positional arrays with the three kernels
    that the dictionary [fields] of the numba module gives for the name. *)
Theorem C4_magnetic_output (cts : constants) (c : coordinates_dict)
    (p : prisms_dict) (D P : nat) (mx my mz : np.array1)
    (field : string) (kx ky kz : Spec.kernel) :
  shapes_ok c p D P = true ->
  length mx = P -> length my = P -> length mz = P ->
  In (field, (kx, ky, kz))
     [ ("potential", (Spec.K_x, Spec.K_y, Spec.K_z));
       ("x", (Spec.K_xx, Spec.K_xy, Spec.K_xz));
       ("y", (Spec.K_xy, Spec.K_yy, Spec.K_yz));
       ("z", (Spec.K_xz, Spec.K_yz, Spec.K_zz)) ]%string ->
  outcome (rectangular_prism.mag cts c p mx my mz field false)
  = inr (map (Spec.magnetic_at kx ky kz (prisms_of p) mx my mz) (points_of c))
  /\ exists fx fy fz,
       lookup field rectangular_prism_numba.mag_fields = Some (fx, fy, fz)
       /\ rectangular_prism_numba.jit_mag (coordinates_array c)
            (prisms_array p) mx my mz fx fy fz (np.zeros D)
          = map (Spec.magnetic_at kx ky kz (prisms_of p) mx my mz)
                (points_of c).
Proof.
  intros Hs Hmx Hmy Hmz Hin.
  assert (Hlook : lookup field Spec.magnetic_kernels = Some (kx, ky, kz)).
  { cbn [In] in Hin. repeat destruct Hin as [Hin | Hin]; try contradiction;
      injection Hin as <- <- <- <-; reflexivity. }
  destruct (mag_dispatch field)
    as [(_ & _ & Hnone & _)
       | (Kx & Ky & Kz & fx & fy & fz & kx' & ky' & kz'
          & HK & Hf & Hsome & Hx & Hy & Hz & _)];
    [congruence|].
  rewrite Hlook in Hsome. injection Hsome as <- <- <-.
  destruct (kernel_table_agrees _ _ _ Hx) as [HKx Hfx].
  destruct (kernel_table_agrees _ _ _ Hy) as [HKy Hfy].
  destruct (kernel_table_agrees _ _ _ Hz) as [HKz Hfz].
  rewrite (magnetic_at_points c p D P kx ky kz mx my mz Hs).
  split.
  - unfold outcome. rewrite mag_run, HK.
    rewrite (shapes_valid_dicts c p D P) by assumption.
    rewrite (lengths_all_of_length P mx my mz) by assumption.
    cbn [snd mag_scaling].
    now rewrite (iterate_over_vertices_mag c p D P mx my mz Kx Ky Kz kx ky kz)
      by assumption.
  - exists fx, fy, fz. split; [assumption|].
    now apply (jit_mag_zeros c p D P mx my mz fx fy fz kx ky kz).
Qed.

Lemma C4_magnetic_output_witness :
  outcome (rectangular_prism.mag si_constants origin_point unit_prism
             [1] [2] [3] "y" false)
  = inr (map (Spec.magnetic_at Spec.K_xy Spec.K_yy Spec.K_yz
                (prisms_of unit_prism) [1] [2] [3])
             (points_of origin_point)).
Proof.
  apply (C4_magnetic_output si_constants origin_point unit_prism 1 1
           [1] [2] [3] "y" Spec.K_xy Spec.K_yy Spec.K_yz);
    try reflexivity.
  simpl. tauto.
Defined.

(** ** Unit scaling *)

Ltac compute_tests :=
  repeat match goal with
  | |- context [member ?f ?l] =>
      let b := eval vm_compute in (member f l) in
      change (member f l) with b
  | |- context [String.eqb ?f ?g] =>
      let b := eval vm_compute in (String.eqb f g) in
      change (String.eqb f g) with b
  end.

Lemma imul1_imul1 (a : np.array1) (x y : R) :
  np.imul1 (np.imul1 a x) y = np.imul1 a (x * y).
Proof.
  unfold np.imul1. rewrite map_map. apply map_ext; intros v. ring.
Qed.

Lemma grav_scaling_factor (cts : constants) (field : string) (result : np.array1) :
  In field Spec.gravity_fields ->
  grav_scaling cts field true result
  = np.imul1 result (Spec.gravity_factor cts field).
Proof.
  unfold Spec.gravity_fields. cbn [In]. intros H.
  repeat destruct H as [<- | H]; try contradiction;
    unfold grav_scaling, Spec.gravity_factor; compute_tests; cbv iota zeta;
    rewrite ?imul1_imul1; reflexivity.
Qed.

Lemma mag_scaling_factor (cts : constants) (field : string) (result : np.array1) :
  In field Spec.magnetic_fields ->
  mag_scaling cts field true result
  = np.imul1 result (Spec.magnetic_factor cts field).
Proof.
  unfold Spec.magnetic_fields. cbn [In]. intros H.
  repeat destruct H as [<- | H]; try contradiction;
    unfold mag_scaling, Spec.magnetic_factor; compute_tests; cbv iota zeta;
    rewrite ?imul1_imul1; try reflexivity.
  unfold np.imul1. apply map_ext; intros v. ring.
Qed.

Lemma grav_scaling_false (cts : constants) (field : string) (result : np.array1) :
  grav_scaling cts field false result = result.
Proof. reflexivity. Qed.

Lemma mag_scaling_false (cts : constants) (field : string) (result : np.array1) :
  mag_scaling cts field false result = result.
Proof. reflexivity. Qed.

Lemma grav_scaled (cts : constants) (c : coordinates_dict) (p : prisms_dict)
    (density : np.array1) (field : string) :
  outcome (rectangular_prism.grav cts c p density field true)
  = scaled_by (Spec.gravity_factor cts field)
      (outcome (rectangular_prism.grav cts c p density field false)).
Proof.
  unfold outcome. rewrite !grav_run.
  destruct (valid_dicts c p [density]); [|reflexivity].
  destruct (grav_dispatch field)
    as [(-> & _) | (K & f & k & -> & _ & _ & _ & Hin)]; [reflexivity|].
  cbn [snd scaled_by].
  rewrite grav_scaling_false, grav_scaling_factor by assumption. reflexivity.
Qed.

Lemma mag_scaled (cts : constants) (c : coordinates_dict) (p : prisms_dict)
    (mx my mz : np.array1) (field : string) :
  outcome (rectangular_prism.mag cts c p mx my mz field true)
  = scaled_by (Spec.magnetic_factor cts field)
      (outcome (rectangular_prism.mag cts c p mx my mz field false)).
Proof.
  unfold outcome. rewrite !mag_run.
  destruct (valid_dicts c p [mx; my; mz]); [|reflexivity].
  destruct (mag_dispatch field)
    as [(-> & _)
       | (Kx & Ky & Kz & fx & fy & fz & kx & ky & kz & -> & _ & _ & _ & _ & _ & Hin)];
    [reflexivity|].
  cbn [snd scaled_by].
  rewrite mag_scaling_false, mag_scaling_factor by assumption. reflexivity.
Qed.

Lemma gravity_factor_nonzero (cts : constants) (field : string) :
  GRAVITATIONAL_CONST cts <> 0 -> SI2MGAL cts <> 0 -> SI2EOTVOS cts <> 0 ->
  In field Spec.gravity_fields -> Spec.gravity_factor cts field <> 0.
Proof.
  intros HG Hm He. unfold Spec.gravity_fields. cbn [In]. intros H.
  repeat destruct H as [<- | H]; try contradiction;
    unfold Spec.gravity_factor; cbv iota;
    first [assumption | now apply Rmult_integral_contrapositive_currified].
Qed.

Lemma unscale_scaled (factor : R) (raw : np.array1) :
  factor <> 0 -> map (fun v => v / factor) (np.imul1 raw factor) = raw.
Proof.
  intros Hf. unfold np.imul1. rewrite map_map.
  rewrite <- (map_id raw) at 2. apply map_ext; intros v. now field.
Qed.

(** C8, amended: in real arithmetic and with non-zero constants, the
    output of [grav] with [scale=True], divided by the constants applied for
    the field (the gravitational constant, times [SI2MGAL] for x, y, z or
    [SI2EOTVOS] for xx, ..., zz), is the output of [grav] with
    [scale=False], entry by entry and exactly.  In binary64 every product
    and the quotient are rounded, and the round trip holds up to rounding
    only. *)
Theorem C8_scale_round_trip (cts : constants) :
  GRAVITATIONAL_CONST cts <> 0 -> SI2MGAL cts <> 0 -> SI2EOTVOS cts <> 0 ->
  forall (c : coordinates_dict) (p : prisms_dict) (density : np.array1)
         (field : string) (scaled : np.array1),
    outcome (rectangular_prism.grav cts c p density field true) = inr scaled ->
    outcome (rectangular_prism.grav cts c p density field false)
    = inr (map (fun v => v / Spec.gravity_factor cts field) scaled).
Proof.
  intros HG Hm He.
  assert (Hfactor : forall field, In field Spec.gravity_fields ->
            Spec.gravity_factor cts field <> 0)
    by (intros; now apply gravity_factor_nonzero).
  intros c p density field scaled Htrue.
  assert (Hin : In field Spec.gravity_fields).
  { unfold outcome in Htrue. rewrite grav_run in Htrue.
    destruct (valid_dicts c p [density]); [|discriminate].
    destruct (grav_dispatch field)
      as [(Hnone & _) | (K & f & k & _ & _ & _ & _ & Hin)];
      [rewrite Hnone in Htrue; discriminate | assumption]. }
  rewrite grav_scaled in Htrue.
  destruct (outcome (rectangular_prism.grav cts c p density field false))
    as [e | raw]; [discriminate|].
  cbn [scaled_by] in Htrue. injection Htrue as <-.
  now rewrite unscale_scaled by auto.
Qed.

(** C8 as it is stated fails in binary64.  With the constants 6.6743e-11,
    1e5 and 1e9, the scaling block of [grav] for the field 'x' multiplies an
    unscaled value 19 by the gravitational constant and then by [SI2MGAL];
    the result divided by the product of the two constants, or by [SI2MGAL]
    and then by the gravitational constant, or the other way round, is the
    binary64 number just below 19 (18.999999999999996).  The same happens to
    the value 7 for the field 'xx' ([SI2EOTVOS]) and for the field
    'potential' (the gravitational constant alone).  With [scale=False] the
    block leaves the array as it is. *)
Lemma C8_round_trip_binary64 :
  (binary64.truediv1
     (grav_scaling_binary64 G_binary64 SI2MGAL_binary64 SI2EOTVOS_binary64
        "x" true [binary64.of_Z 19])
     (binary64.mul G_binary64 SI2MGAL_binary64)
   = [binary64.pred (binary64.of_Z 19)]
   /\ binary64.truediv1
        (binary64.truediv1
           (grav_scaling_binary64 G_binary64 SI2MGAL_binary64
              SI2EOTVOS_binary64 "x" true [binary64.of_Z 19])
           SI2MGAL_binary64)
        G_binary64
      = [binary64.pred (binary64.of_Z 19)]
   /\ binary64.truediv1
        (binary64.truediv1
           (grav_scaling_binary64 G_binary64 SI2MGAL_binary64
              SI2EOTVOS_binary64 "x" true [binary64.of_Z 19])
           G_binary64)
        SI2MGAL_binary64
      = [binary64.pred (binary64.of_Z 19)]
   /\ grav_scaling_binary64 G_binary64 SI2MGAL_binary64 SI2EOTVOS_binary64
        "x" false [binary64.of_Z 19]
      = [binary64.of_Z 19]
   /\ SFltb (binary64.pred (binary64.of_Z 19)) (binary64.of_Z 19) = true)
  /\ (binary64.truediv1
        (grav_scaling_binary64 G_binary64 SI2MGAL_binary64 SI2EOTVOS_binary64
           "xx" true [binary64.of_Z 7])
        (binary64.mul G_binary64 SI2EOTVOS_binary64)
      = [binary64.pred (binary64.of_Z 7)]
      /\ binary64.truediv1
           (grav_scaling_binary64 G_binary64 SI2MGAL_binary64
              SI2EOTVOS_binary64 "potential" true [binary64.of_Z 7])
           G_binary64
         = [binary64.pred (binary64.of_Z 7)]
      /\ SFltb (binary64.pred (binary64.of_Z 7)) (binary64.of_Z 7) = true)
  /\ binary64.truediv1
       (grav_scaling_binary64 G_binary64 SI2MGAL_binary64 SI2EOTVOS_binary64
          "x" true [binary64.of_Z 19])
       (binary64.mul G_binary64 SI2MGAL_binary64)
     <> grav_scaling_binary64 G_binary64 SI2MGAL_binary64 SI2EOTVOS_binary64
          "x" false [binary64.of_Z 19].
Proof.
  repeat split; try (vm_compute; reflexivity).
  vm_compute. discriminate.
Qed.

(** C10: a scaled output of [mag] for 'potential' is the unscaled output
    times -(CM * T2MT): scaling changes the sign of the magnetic scalar
    potential.  For the fields x, y, z of [mag] and for every field of [grav]
    it is the unscaled output times a product of constants, which is
    positive when the constants are. *)
Theorem C10_scaling_sign (cts : constants) :
  0 < GRAVITATIONAL_CONST cts -> 0 < SI2MGAL cts -> 0 < SI2EOTVOS cts ->
  0 < CM cts -> 0 < T2NT cts -> 0 < T2MT cts ->
  (forall (c : coordinates_dict) (p : prisms_dict) (mx my mz : np.array1)
          (field : string),
     outcome (rectangular_prism.mag cts c p mx my mz field true)
     = scaled_by (Spec.magnetic_factor cts field)
         (outcome (rectangular_prism.mag cts c p mx my mz field false)))
  /\ (forall (c : coordinates_dict) (p : prisms_dict) (density : np.array1)
             (field : string),
        outcome (rectangular_prism.grav cts c p density field true)
        = scaled_by (Spec.gravity_factor cts field)
            (outcome (rectangular_prism.grav cts c p density field false)))
  /\ Spec.magnetic_factor cts "potential" = - (CM cts * T2MT cts)
  /\ Spec.magnetic_factor cts "potential" < 0
  /\ (forall field : string, In field ["x"; "y"; "z"]%string ->
        Spec.magnetic_factor cts field = CM cts * T2NT cts
        /\ 0 < Spec.magnetic_factor cts field)
  /\ (forall field : string, In field Spec.gravity_fields ->
        0 < Spec.gravity_factor cts field).
Proof.
  intros HG Hm He HC Hn Hu.
  split; [exact (mag_scaled cts)|].
  split; [exact (grav_scaled cts)|].
  split; [reflexivity|].
  split; [cbn; nra|].
  split.
  - cbn [In]. intros field H.
    repeat destruct H as [<- | H]; try contradiction; cbn;
      (split; [reflexivity | nra]).
  - unfold Spec.gravity_fields. cbn [In]. intros field H.
    repeat destruct H as [<- | H]; try contradiction; cbn; nra.
Qed.

Lemma C8_scale_round_trip_witness :
  outcome (rectangular_prism.grav si_constants origin_point unit_prism
             [1] "z" false)
  = inr (map (fun v => v / Spec.gravity_factor si_constants "z")
           (np.imul1
              (np.imul1
                 (rectangular_prism.iterate_over_vertices origin_point
                    unit_prism [1] rectangular_prism.kernel_z)
                 (GRAVITATIONAL_CONST si_constants))
              (SI2MGAL si_constants))).
Proof.
  apply (C8_scale_round_trip si_constants); try (simpl; lra).
  reflexivity.
Defined.

Lemma C10_scaling_sign_witness :
  outcome (rectangular_prism.mag si_constants origin_point unit_prism
             [1] [2] [3] "potential" true)
  = scaled_by (- (CM si_constants * T2MT si_constants))
      (outcome (rectangular_prism.mag si_constants origin_point unit_prism
                  [1] [2] [3] "potential" false))
  /\ Spec.magnetic_factor si_constants "potential" < 0
  /\ 0 < Spec.magnetic_factor si_constants "x".
Proof.
  destruct (C10_scaling_sign si_constants)
    as (Hmag & _ & _ & Hneg & Hpos & _); try (simpl; lra).
  split; [apply Hmag | split; [exact Hneg | apply Hpos; simpl; tauto]].
Defined.

(** ** Unknown field names *)

(** C7: a field name outside {potential, x, y, z, xx, xy, xz, yy, yz, zz}
    makes [grav], and one outside {potential, x, y, z} makes [mag], fail
    without a result and before any call into the corner-summation engine,
    on every input; on an input the validation layer lets through, the
    failure is the [ValueError] naming the field.  For a field name inside
    the set that error is not raised, and a validated input gives a
    result. *)
Theorem C7_unknown_field (cts : constants) (field : string) (scale : bool) :
  (~ In field Spec.gravity_fields ->
     forall (c : coordinates_dict) (p : prisms_dict) (density : np.array1),
       (exists e, run (rectangular_prism.grav cts c p density field scale)
                  = ([], inl e))
       /\ (valid_dicts c p [density] = true ->
           run (rectangular_prism.grav cts c p density field scale)
           = ([], inl (ValueError
                ("Gravitational field " ++ field ++ " not recognized")%string))))
  /\ (In field Spec.gravity_fields ->
        forall (c : coordinates_dict) (p : prisms_dict) (density : np.array1),
          (forall msg, outcome (rectangular_prism.grav cts c p density field scale)
                       <> inl (ValueError msg))
          /\ (valid_dicts c p [density] = true ->
              exists result,
                run (rectangular_prism.grav cts c p density field scale)
                = ([EngineCall], inr result)))
  /\ (~ In field Spec.magnetic_fields ->
        forall (c : coordinates_dict) (p : prisms_dict) (mx my mz : np.array1),
          (exists e, run (rectangular_prism.mag cts c p mx my mz field scale)
                     = ([], inl e))
          /\ (valid_dicts c p [mx; my; mz] = true ->
              run (rectangular_prism.mag cts c p mx my mz field scale)
              = ([], inl (ValueError
                   ("Magnetic field " ++ field ++ " not recognized")%string))))
  /\ (In field Spec.magnetic_fields ->
        forall (c : coordinates_dict) (p : prisms_dict) (mx my mz : np.array1),
          (forall msg,
             outcome (rectangular_prism.mag cts c p mx my mz field scale)
             <> inl (ValueError msg))
          /\ (valid_dicts c p [mx; my; mz] = true ->
              exists result,
                run (rectangular_prism.mag cts c p mx my mz field scale)
                = ([EngineCall; EngineCall; EngineCall], inr result))).
Proof.
  split; [|split; [|split]].
  - intros Hout.
    destruct (grav_dispatch field)
      as [(Hnp & _) | (K & f & k & _ & _ & _ & _ & Hin)];
      [|contradiction].
    intros c p density. rewrite grav_run, Hnp.
    destruct (valid_dicts c p [density]); split; eauto; discriminate.
  - intros Hin.
    destruct (grav_dispatch field)
      as [(_ & _ & _ & Hout) | (K & f & k & Hnp & _)];
      [contradiction|].
    intros c p density. unfold outcome. rewrite grav_run, Hnp.
    destruct (valid_dicts c p [density]); split; eauto; discriminate.
  - intros Hout.
    destruct (mag_dispatch field)
      as [(Hnp & _)
         | (Kx & Ky & Kz & fx & fy & fz & kx & ky & kz
            & _ & _ & _ & _ & _ & _ & Hin)];
      [|contradiction].
    intros c p mx my mz. rewrite mag_run, Hnp.
    destruct (valid_dicts c p [mx; my; mz]); split; eauto; discriminate.
  - intros Hin.
    destruct (mag_dispatch field)
      as [(_ & _ & _ & Hout)
         | (Kx & Ky & Kz & fx & fy & fz & kx & ky & kz & Hnp & _)];
      [contradiction|].
    intros c p mx my mz. unfold outcome. rewrite mag_run, Hnp.
    destruct (valid_dicts c p [mx; my; mz]); split; eauto; discriminate.
Qed.

Lemma C7_unknown_field_witness :
  run (rectangular_prism.grav si_constants origin_point unit_prism [1] "gz" true)
  = ([], inl (ValueError "Gravitational field gz not recognized"))
  /\ exists result,
       run (rectangular_prism.mag si_constants origin_point unit_prism
              [1] [2] [3] "z" true)
       = ([EngineCall; EngineCall; EngineCall], inr result).
Proof.
  destruct (C7_unknown_field si_constants "gz" true) as (Hgrav & _).
  destruct (C7_unknown_field si_constants "z" true) as (_ & _ & _ & Hmag).
  split.
  - apply Hgrav; [|reflexivity].
    simpl. intros H. repeat destruct H as [H | H]; discriminate || assumption.
  - apply Hmag; [|reflexivity]. simpl. tauto.
Defined.

(** ** Degenerate prisms *)

Lemma corner_sum_eight (k : Spec.kernel) (pt : Spec.point) (b : Spec.prism) :
  Spec.corner_sum k pt b
  = - Spec.at_corner k pt b 1 1 1 + Spec.at_corner k pt b 1 1 2
    + Spec.at_corner k pt b 1 2 1 - Spec.at_corner k pt b 1 2 2
    + Spec.at_corner k pt b 2 1 1 - Spec.at_corner k pt b 2 1 2
    - Spec.at_corner k pt b 2 2 1 + Spec.at_corner k pt b 2 2 2.
Proof.
  unfold Spec.corner_sum, Spec.corners.
  cbn [flat_map map app Spec.sum_over fold_right].
  unfold Spec.sign. cbn [Nat.add]. ring.
Qed.

Lemma corner_sum_degenerate (k : Spec.kernel) (pt : Spec.point) (b : Spec.prism) :
  degenerate b -> Spec.corner_sum k pt b = 0.
Proof.
  intros Hdeg. rewrite corner_sum_eight. unfold Spec.at_corner.
  cbn [Spec.face].
  destruct Hdeg as [H | [H | H]]; rewrite H; ring.
Qed.

Lemma sums_agree_off_degenerate (p : prisms_dict) (P : nat)
    (sigma sigma' : np.array1) (k : Spec.kernel) (pt : Spec.point) :
  agree_off_degenerate p P sigma sigma' ->
  Spec.sum_over (np.range P) (fun q =>
    sigma.[q] * Spec.corner_sum k pt (prism_at p q))
  = Spec.sum_over (np.range P) (fun q =>
      sigma'.[q] * Spec.corner_sum k pt (prism_at p q)).
Proof.
  intros (_ & _ & H). apply sum_over_ext; intros q Hq.
  apply in_seq in Hq. destruct (H q) as [-> | Hdeg]; [lia | reflexivity|].
  rewrite (corner_sum_degenerate k pt _ Hdeg). ring.
Qed.

Lemma length_all_of_length (P : nat) (sigma : np.array1) :
  length sigma = P -> check.all_of_length P [sigma] = true.
Proof.
  intros H. unfold check.all_of_length. cbn [forallb].
  now rewrite H, Nat.eqb_refl.
Qed.

Lemma batch_agree_off_degenerate (c : coordinates_dict) (p : prisms_dict)
    (D P : nat) (sigma sigma' : np.array1)
    (K : rectangular_prism.kernel) (k : Spec.kernel) :
  shapes_ok c p D P = true -> entrywise K k ->
  agree_off_degenerate p P sigma sigma' ->
  rectangular_prism.iterate_over_vertices c p sigma K
  = rectangular_prism.iterate_over_vertices c p sigma' K.
Proof.
  intros Hs HK Hag. pose proof Hag as (Hl & Hl' & _).
  rewrite (iterate_over_vertices_sum c p D P sigma K k Hs HK Hl).
  rewrite (iterate_over_vertices_sum c p D P sigma' K k Hs HK Hl').
  apply map_ext; intros l. now apply sums_agree_off_degenerate.
Qed.

Lemma direct_agree_off_degenerate (c : coordinates_dict) (p : prisms_dict)
    (D P : nat) (sigma sigma' : np.array1)
    (f : rectangular_prism_numba.kernel) (k : Spec.kernel) :
  shapes_ok c p D P = true -> recomputes_distance f k ->
  agree_off_degenerate p P sigma sigma' ->
  rectangular_prism_numba.jit_grav
    (coordinates_array c) (prisms_array p) sigma f (np.zeros D)
  = rectangular_prism_numba.jit_grav
      (coordinates_array c) (prisms_array p) sigma' f (np.zeros D).
Proof.
  intros Hs Hf Hag.
  rewrite (jit_grav_zeros c p D P sigma f k Hs Hf).
  rewrite (jit_grav_zeros c p D P sigma' f k Hs Hf).
  apply map_ext; intros l. now apply sums_agree_off_degenerate.
Qed.

Lemma direct_mag_agree_off_degenerate (c : coordinates_dict) (p : prisms_dict)
    (D P : nat) (mx my mz mx' my' mz' : np.array1)
    (fx fy fz : rectangular_prism_numba.kernel) (kx ky kz : Spec.kernel) :
  shapes_ok c p D P = true ->
  recomputes_distance fx kx -> recomputes_distance fy ky ->
  recomputes_distance fz kz ->
  agree_off_degenerate p P mx mx' -> agree_off_degenerate p P my my' ->
  agree_off_degenerate p P mz mz' ->
  rectangular_prism_numba.jit_mag
    (coordinates_array c) (prisms_array p) mx my mz fx fy fz (np.zeros D)
  = rectangular_prism_numba.jit_mag
      (coordinates_array c) (prisms_array p) mx' my' mz' fx fy fz (np.zeros D).
Proof.
  intros Hs Hfx Hfy Hfz Hx Hy Hz.
  rewrite (jit_mag_zeros c p D P mx my mz fx fy fz kx ky kz) by assumption.
  rewrite (jit_mag_zeros c p D P mx' my' mz' fx fy fz kx ky kz) by assumption.
  apply map_ext; intros l. rewrite !sum_over_plus.
  rewrite (sums_agree_off_degenerate p P mx mx' kx _ Hx).
  rewrite (sums_agree_off_degenerate p P my my' ky _ Hy).
  now rewrite (sums_agree_off_degenerate p P mz mz' kz _ Hz).
Qed.

(** C9: the signed eight-corner sum of a prism of zero thickness along x,
    y or z is zero for every kernel and every observation point, in the
    entry of [predicted_field] as in the eight-term expression of the numba
    loops; the outputs of [iterate_over_vertices], [jit_grav], [jit_mag],
    [grav] and [mag] therefore do not depend on the density or magnetization
    given to such a prism. *)
Theorem C9_degenerate_prism (cts : constants) (c : coordinates_dict)
    (p : prisms_dict) (D P : nat) :
  shapes_ok c p D P = true ->
  (forall (k : Spec.kernel) (pt : Spec.point) (b : Spec.prism),
     degenerate b -> Spec.corner_sum k pt b = 0)
  /\ (forall (f : rectangular_prism_numba.kernel) (pt : Spec.point)
             (b : Spec.prism),
        degenerate b ->
        let X1 := Spec.x1 b - Spec.px pt in
        let X2 := Spec.x2 b - Spec.px pt in
        let Y1 := Spec.y1 b - Spec.py pt in
        let Y2 := Spec.y2 b - Spec.py pt in
        let Z1 := Spec.z1 b - Spec.pz pt in
        let Z2 := Spec.z2 b - Spec.pz pt in
        f X2 Y2 Z2 - f X2 Y2 Z1 - f X1 Y2 Z2 + f X1 Y2 Z1
        - f X2 Y1 Z2 + f X2 Y1 Z1 + f X1 Y1 Z2 - f X1 Y1 Z1 = 0)
  /\ (forall K f k (l q : nat),
        In (K, f, k) kernel_table -> (l < D)%nat -> (q < P)%nat ->
        degenerate (prism_at p q) ->
        (rectangular_prism.vertices_loop c p K (np.zeros2 D P)).[l, q] = 0)
  /\ (forall K f k (sigma sigma' : np.array1),
        In (K, f, k) kernel_table -> agree_off_degenerate p P sigma sigma' ->
        rectangular_prism.iterate_over_vertices c p sigma K
        = rectangular_prism.iterate_over_vertices c p sigma' K
        /\ rectangular_prism_numba.jit_grav
             (coordinates_array c) (prisms_array p) sigma f (np.zeros D)
           = rectangular_prism_numba.jit_grav
               (coordinates_array c) (prisms_array p) sigma' f (np.zeros D))
  /\ (forall Kx fx kx Ky fy ky Kz fz kz (mx my mz mx' my' mz' : np.array1),
        In (Kx, fx, kx) kernel_table -> In (Ky, fy, ky) kernel_table ->
        In (Kz, fz, kz) kernel_table ->
        agree_off_degenerate p P mx mx' -> agree_off_degenerate p P my my' ->
        agree_off_degenerate p P mz mz' ->
        rectangular_prism_numba.jit_mag (coordinates_array c)
          (prisms_array p) mx my mz fx fy fz (np.zeros D)
        = rectangular_prism_numba.jit_mag (coordinates_array c)
            (prisms_array p) mx' my' mz' fx fy fz (np.zeros D))
  /\ (forall (density density' : np.array1) (field : string) (scale : bool),
        agree_off_degenerate p P density density' ->
        outcome (rectangular_prism.grav cts c p density field scale)
        = outcome (rectangular_prism.grav cts c p density' field scale))
  /\ (forall (mx my mz mx' my' mz' : np.array1) (field : string) (scale : bool),
        agree_off_degenerate p P mx mx' -> agree_off_degenerate p P my my' ->
        agree_off_degenerate p P mz mz' ->
        outcome (rectangular_prism.mag cts c p mx my mz field scale)
        = outcome (rectangular_prism.mag cts c p mx' my' mz' field scale)).
Proof.
  intros Hs.
  split; [exact corner_sum_degenerate|].
  split.
  { intros f pt b Hdeg.
    pose (k := (fun X Y Z _ => f X Y Z) : Spec.kernel).
    assert (Hf : recomputes_distance f k) by (intros X Y Z; reflexivity).
    pose proof (corner_sum_expand f k pt b Hf) as Hexp. cbv zeta in *.
    rewrite Hexp. now apply corner_sum_degenerate. }
  split.
  { intros K f k l q Hin Hl Hq Hdeg.
    destruct (kernel_table_agrees K f k Hin) as [HK _].
    rewrite (vertices_loop_tabulate c p D P K k Hs HK).
    rewrite get2_tabulate by assumption. now apply corner_sum_degenerate. }
  split.
  { intros K f k sigma sigma' Hin Hag.
    destruct (kernel_table_agrees K f k Hin) as [HK Hf]. split.
    - now apply (batch_agree_off_degenerate c p D P sigma sigma' K k).
    - now apply (direct_agree_off_degenerate c p D P sigma sigma' f k). }
  split.
  { intros Kx fx kx Ky fy ky Kz fz kz mx my mz mx' my' mz'
      Hinx Hiny Hinz Hx Hy Hz.
    destruct (kernel_table_agrees _ _ _ Hinx) as [_ Hfx].
    destruct (kernel_table_agrees _ _ _ Hiny) as [_ Hfy].
    destruct (kernel_table_agrees _ _ _ Hinz) as [_ Hfz].
    now apply (direct_mag_agree_off_degenerate c p D P mx my mz mx' my' mz'
                 fx fy fz kx ky kz). }
  split.
  { intros density density' field scale Hag. pose proof Hag as (Hl & Hl' & _).
    unfold outcome. rewrite !grav_run.
    rewrite !(shapes_valid_dicts c p D P) by assumption.
    rewrite !length_all_of_length by assumption.
    destruct (grav_dispatch field)
      as [(-> & _) | (K & f & k & -> & _ & _ & Hin & _)];
      [reflexivity|].
    destruct (kernel_table_agrees K f k Hin) as [HK Hf].
    cbn [snd].
    now rewrite (batch_agree_off_degenerate c p D P density density' K k)
      by assumption. }
  intros mx my mz mx' my' mz' field scale Hx Hy Hz.
  pose proof Hx as (Hlx & Hlx' & _). pose proof Hy as (Hly & Hly' & _).
  pose proof Hz as (Hlz & Hlz' & _).
  unfold outcome. rewrite !mag_run.
  rewrite !(shapes_valid_dicts c p D P) by assumption.
  rewrite !lengths_all_of_length by assumption.
  destruct (mag_dispatch field)
    as [(-> & _)
       | (Kx & Ky & Kz & fx & fy & fz & kx & ky & kz
          & -> & _ & _ & Hinx & Hiny & Hinz & _)];
    [reflexivity|].
  destruct (kernel_table_agrees _ _ _ Hinx) as [HKx Hfx].
  destruct (kernel_table_agrees _ _ _ Hiny) as [HKy Hfy].
  destruct (kernel_table_agrees _ _ _ Hinz) as [HKz Hfz].
  cbn [snd].
  rewrite (batch_agree_off_degenerate c p D P mx mx' Kx kx) by assumption.
  rewrite (batch_agree_off_degenerate c p D P my my' Ky ky) by assumption.
  now rewrite (batch_agree_off_degenerate c p D P mz mz' Kz kz) by assumption.
Qed.

Lemma C9_degenerate_prism_witness :
  outcome (rectangular_prism.grav si_constants origin_point
             (mk_prisms [1] [1] [1] [2] [1] [2]) [5] "z" true)
  = outcome (rectangular_prism.grav si_constants origin_point
               (mk_prisms [1] [1] [1] [2] [1] [2]) [0] "z" true).
Proof.
  destruct (C9_degenerate_prism si_constants origin_point
              (mk_prisms [1] [1] [1] [2] [1] [2]) 1 1)
    as (_ & _ & _ & _ & _ & Hgrav & _).
  - reflexivity.
  - apply Hgrav. repeat split.
    intros q Hq. right. left. destruct q; [reflexivity | lia].
Defined.

(** ** A prism cut in two *)

Lemma corner_sum_split (k : Spec.kernel) (pt : Spec.point) (b : Spec.prism)
    (z_mid : R) :
  Spec.corner_sum k pt (upper_part b z_mid)
  + Spec.corner_sum k pt (lower_part b z_mid)
  = Spec.corner_sum k pt b.
Proof.
  rewrite !corner_sum_eight. unfold Spec.at_corner, upper_part, lower_part.
  cbn [Spec.face Spec.x1 Spec.x2 Spec.y1 Spec.y2 Spec.z1 Spec.z2]. ring.
Qed.

Lemma shapes_one_two (c : coordinates_dict) (D : nat) (b b1 b2 : Spec.prism) :
  shapes_ok c (one_prism b) D 1 = true ->
  shapes_ok c (two_prisms b1 b2) D 2 = true.
Proof.
  unfold shapes_ok, check.all_of_length, np.size.
  cbn [forallb getitem coordinates_getitem prisms_getitem one_prism two_prisms
       key_x1 key_x2 key_y1 key_y2 key_z1 key_z2 length Nat.eqb andb].
  now rewrite !andb_true_r.
Qed.

Lemma sums_split (k : Spec.kernel) (pt : Spec.point) (b : Spec.prism)
    (z_mid w : R) :
  Spec.sum_over (np.range 2) (fun q =>
    [w; w].[q]
    * Spec.corner_sum k pt
        (prism_at (two_prisms (upper_part b z_mid) (lower_part b z_mid)) q))
  = Spec.sum_over (np.range 1) (fun q =>
      [w].[q] * Spec.corner_sum k pt (prism_at (one_prism b) q)).
Proof.
  unfold np.range. cbn [seq Spec.sum_over fold_right].
  destruct b as [bx1 bx2 by1 by2 bz1 bz2].
  pose proof (corner_sum_split k pt
                (Spec.mk_prism bx1 bx2 by1 by2 bz1 bz2) z_mid) as Hsplit.
  unfold prism_at, np.get, upper_part, lower_part in *.
  cbn [getitem prisms_getitem two_prisms one_prism nth
       key_x1 key_x2 key_y1 key_y2 key_z1 key_z2
       Spec.x1 Spec.x2 Spec.y1 Spec.y2 Spec.z1 Spec.z2] in *.
  rewrite <- Hsplit. ring.
Qed.

Lemma batch_split (c : coordinates_dict) (D : nat) (b : Spec.prism)
    (z_mid w : R) (K : rectangular_prism.kernel) (k : Spec.kernel) :
  shapes_ok c (one_prism b) D 1 = true -> entrywise K k ->
  rectangular_prism.iterate_over_vertices c
    (two_prisms (upper_part b z_mid) (lower_part b z_mid)) [w; w] K
  = rectangular_prism.iterate_over_vertices c (one_prism b) [w] K.
Proof.
  intros Hs HK.
  rewrite (iterate_over_vertices_sum c _ D 2 [w; w] K k
             (shapes_one_two c D b _ _ Hs) HK eq_refl).
  rewrite (iterate_over_vertices_sum c _ D 1 [w] K k Hs HK eq_refl).
  apply map_ext; intros l. apply sums_split.
Qed.

Lemma direct_split (c : coordinates_dict) (D : nat) (b : Spec.prism)
    (z_mid w : R) (f : rectangular_prism_numba.kernel) (k : Spec.kernel) :
  shapes_ok c (one_prism b) D 1 = true -> recomputes_distance f k ->
  rectangular_prism_numba.jit_grav (coordinates_array c)
    (prisms_array (two_prisms (upper_part b z_mid) (lower_part b z_mid)))
    [w; w] f (np.zeros D)
  = rectangular_prism_numba.jit_grav (coordinates_array c)
      (prisms_array (one_prism b)) [w] f (np.zeros D).
Proof.
  intros Hs Hf.
  rewrite (jit_grav_zeros c _ D 2 [w; w] f k (shapes_one_two c D b _ _ Hs) Hf).
  rewrite (jit_grav_zeros c _ D 1 [w] f k Hs Hf).
  apply map_ext; intros l. apply sums_split.
Qed.

Lemma direct_mag_split (c : coordinates_dict) (D : nat) (b : Spec.prism)
    (z_mid wx wy wz : R) (fx fy fz : rectangular_prism_numba.kernel)
    (kx ky kz : Spec.kernel) :
  shapes_ok c (one_prism b) D 1 = true ->
  recomputes_distance fx kx -> recomputes_distance fy ky ->
  recomputes_distance fz kz ->
  rectangular_prism_numba.jit_mag (coordinates_array c)
    (prisms_array (two_prisms (upper_part b z_mid) (lower_part b z_mid)))
    [wx; wx] [wy; wy] [wz; wz] fx fy fz (np.zeros D)
  = rectangular_prism_numba.jit_mag (coordinates_array c)
      (prisms_array (one_prism b)) [wx] [wy] [wz] fx fy fz (np.zeros D).
Proof.
  intros Hs Hfx Hfy Hfz.
  rewrite (jit_mag_zeros c _ D 2 [wx; wx] [wy; wy] [wz; wz] fx fy fz kx ky kz
             (shapes_one_two c D b _ _ Hs) Hfx Hfy Hfz).
  rewrite (jit_mag_zeros c _ D 1 [wx] [wy] [wz] fx fy fz kx ky kz
             Hs Hfx Hfy Hfz).
  apply map_ext; intros l. rewrite !sum_over_plus.
  now rewrite !sums_split.
Qed.

(** The fields of the two parts, computed one prism at a time and added. *)
Lemma batch_parts_added (c : coordinates_dict) (D : nat) (b : Spec.prism)
    (z_mid w : R) (K : rectangular_prism.kernel) (k : Spec.kernel) :
  shapes_ok c (one_prism b) D 1 = true -> entrywise K k ->
  np.add1
    (rectangular_prism.iterate_over_vertices c
       (one_prism (upper_part b z_mid)) [w] K)
    (rectangular_prism.iterate_over_vertices c
       (one_prism (lower_part b z_mid)) [w] K)
  = rectangular_prism.iterate_over_vertices c (one_prism b) [w] K.
Proof.
  intros Hs HK.
  rewrite (iterate_over_vertices_sum c _ D 1 [w] K k Hs HK eq_refl).
  rewrite (iterate_over_vertices_sum c (one_prism (upper_part b z_mid))
             D 1 [w] K k Hs HK eq_refl).
  rewrite (iterate_over_vertices_sum c (one_prism (lower_part b z_mid))
             D 1 [w] K k Hs HK eq_refl).
  unfold np.add1. rewrite broadcast_map. apply map_ext; intros l.
  unfold np.range. cbn [seq Spec.sum_over fold_right].
  destruct b as [bx1 bx2 by1 by2 bz1 bz2].
  pose proof (corner_sum_split k (point_at c l)
                (Spec.mk_prism bx1 bx2 by1 by2 bz1 bz2) z_mid) as Hsplit.
  unfold prism_at, np.get, upper_part, lower_part in *.
  cbn [getitem prisms_getitem one_prism nth
       key_x1 key_x2 key_y1 key_y2 key_z1 key_z2
       Spec.x1 Spec.x2 Spec.y1 Spec.y2 Spec.z1 Spec.z2] in *.
  rewrite <- Hsplit. ring.
Qed.

(** C6: a prism cut along z at [z_mid] into two prisms sharing the face
    z = z_mid.  For every kernel and every observation point the corner sums
    of the two parts add up to the corner sum of the prism, the terms on the
    shared face cancelling; hence, for D observation points, the fields of
    the two parts added, and the field of the two-prism model, equal the
    field of the undivided prism, in both strategies and for every field of
    [grav] and [mag].  The equalities are exact in real arithmetic and need
    neither z1 <= z_mid <= z2 nor the points to be outside the prism. *)
Theorem C6_split_prism (cts : constants) (c : coordinates_dict) (D : nat)
    (b : Spec.prism) (z_mid : R) :
  shapes_ok c (one_prism b) D 1 = true ->
  let upper := upper_part b z_mid in
  let lower := lower_part b z_mid in
  (forall (k : Spec.kernel) (pt : Spec.point),
     Spec.corner_sum k pt upper + Spec.corner_sum k pt lower
     = Spec.corner_sum k pt b)
  /\ (forall K f k (w : R), In (K, f, k) kernel_table ->
        np.add1
          (rectangular_prism.iterate_over_vertices c (one_prism upper) [w] K)
          (rectangular_prism.iterate_over_vertices c (one_prism lower) [w] K)
        = rectangular_prism.iterate_over_vertices c (one_prism b) [w] K
        /\ rectangular_prism.iterate_over_vertices c
             (two_prisms upper lower) [w; w] K
           = rectangular_prism.iterate_over_vertices c (one_prism b) [w] K
        /\ rectangular_prism_numba.jit_grav (coordinates_array c)
             (prisms_array (two_prisms upper lower)) [w; w] f (np.zeros D)
           = rectangular_prism_numba.jit_grav (coordinates_array c)
               (prisms_array (one_prism b)) [w] f (np.zeros D))
  /\ (forall Kx fx kx Ky fy ky Kz fz kz (mx my mz : R),
        In (Kx, fx, kx) kernel_table -> In (Ky, fy, ky) kernel_table ->
        In (Kz, fz, kz) kernel_table ->
        rectangular_prism_numba.jit_mag (coordinates_array c)
          (prisms_array (two_prisms upper lower))
          [mx; mx] [my; my] [mz; mz] fx fy fz (np.zeros D)
        = rectangular_prism_numba.jit_mag (coordinates_array c)
            (prisms_array (one_prism b)) [mx] [my] [mz] fx fy fz (np.zeros D))
  /\ (forall (density : R) (field : string) (scale : bool),
        outcome (rectangular_prism.grav cts c (two_prisms upper lower)
                   [density; density] field scale)
        = outcome (rectangular_prism.grav cts c (one_prism b)
                     [density] field scale))
  /\ (forall (mx my mz : R) (field : string) (scale : bool),
        outcome (rectangular_prism.mag cts c (two_prisms upper lower)
                   [mx; mx] [my; my] [mz; mz] field scale)
        = outcome (rectangular_prism.mag cts c (one_prism b)
                     [mx] [my] [mz] field scale)).
Proof.
  intros Hs upper lower. subst upper lower.
  pose proof (shapes_one_two c D b (upper_part b z_mid) (lower_part b z_mid) Hs)
    as Hs2.
  split; [intros k pt; apply corner_sum_split|].
  split.
  { intros K f k w Hin. destruct (kernel_table_agrees K f k Hin) as [HK Hf].
    split; [|split].
    - now apply (batch_parts_added c D b z_mid w K k).
    - now apply (batch_split c D b z_mid w K k).
    - now apply (direct_split c D b z_mid w f k). }
  split.
  { intros Kx fx kx Ky fy ky Kz fz kz mx my mz Hinx Hiny Hinz.
    destruct (kernel_table_agrees _ _ _ Hinx) as [_ Hfx].
    destruct (kernel_table_agrees _ _ _ Hiny) as [_ Hfy].
    destruct (kernel_table_agrees _ _ _ Hinz) as [_ Hfz].
    now apply (direct_mag_split c D b z_mid mx my mz fx fy fz kx ky kz). }
  split.
  { intros density field scale.
    unfold outcome. rewrite !grav_run.
    rewrite (shapes_valid_dicts c _ D 2) by assumption.
    rewrite (shapes_valid_dicts c _ D 1) by assumption.
    cbn [check.all_of_length forallb length Nat.eqb andb].
    destruct (grav_dispatch field)
      as [(-> & _) | (K & f & k & -> & _ & _ & Hin & _)];
      [reflexivity|].
    destruct (kernel_table_agrees K f k Hin) as [HK Hf].
    cbn [snd].
    now rewrite (batch_split c D b z_mid density K k Hs HK). }
  intros mx my mz field scale.
  unfold outcome. rewrite !mag_run.
  rewrite (shapes_valid_dicts c _ D 2) by assumption.
  rewrite (shapes_valid_dicts c _ D 1) by assumption.
  cbn [check.all_of_length forallb length Nat.eqb andb].
  destruct (mag_dispatch field)
    as [(-> & _)
       | (Kx & Ky & Kz & fx & fy & fz & kx & ky & kz
          & -> & _ & _ & Hinx & Hiny & Hinz & _)];
    [reflexivity|].
  destruct (kernel_table_agrees _ _ _ Hinx) as [HKx Hfx].
  destruct (kernel_table_agrees _ _ _ Hiny) as [HKy Hfy].
  destruct (kernel_table_agrees _ _ _ Hinz) as [HKz Hfz].
  cbn [snd].
  rewrite (batch_split c D b z_mid mx Kx kx Hs HKx).
  rewrite (batch_split c D b z_mid my Ky ky Hs HKy).
  now rewrite (batch_split c D b z_mid mz Kz kz Hs HKz).
Qed.

Lemma C6_split_prism_witness :
  outcome (rectangular_prism.grav si_constants origin_point
             (two_prisms (upper_part unit_box 1.5) (lower_part unit_box 1.5))
             [1000; 1000] "z" true)
  = outcome (rectangular_prism.grav si_constants origin_point
               (one_prism unit_box) [1000] "z" true).
Proof.
  destruct (C6_split_prism si_constants origin_point 1 unit_box 1.5)
    as (_ & _ & _ & Hgrav & _).
  - reflexivity.
  - apply Hgrav.
Defined.

(** * Further properties of the two modules *)

(** ** The numba loops on arbitrary arrays *)

Lemma jit_grav_general (c p : np.array2) (density : np.array1)
    (f : rectangular_prism_numba.kernel) (out : np.array1) :
  length out = np.size (nth 0%nat c []) ->
  rectangular_prism_numba.jit_grav c p density f out
  = map (fun l => out.[l] + Spec.sum_over (np.range (length p)) (fun q =>
           density.[q] * corner_term c p f l q))
        (np.range (np.size (nth 0%nat c []))).
Proof.
  intros Hout. unfold rectangular_prism_numba.jit_grav.
  apply points_loop with
    (t := fun l q => density.[q] * corner_term c p f l q); [|assumption].
  intros out' l q _. reflexivity.
Qed.

Lemma jit_mag_general (c p : np.array2) (mx my mz : np.array1)
    (fx fy fz : rectangular_prism_numba.kernel) (out : np.array1) :
  length out = np.size (nth 0%nat c []) ->
  rectangular_prism_numba.jit_mag c p mx my mz fx fy fz out
  = map (fun l => out.[l] + Spec.sum_over (np.range (length p)) (fun q =>
           mx.[q] * corner_term c p fx l q
           + my.[q] * corner_term c p fy l q
           + mz.[q] * corner_term c p fz l q))
        (np.range (np.size (nth 0%nat c []))).
Proof.
  intros Hout. unfold rectangular_prism_numba.jit_mag.
  apply points_loop with
    (t := fun l q => mx.[q] * corner_term c p fx l q
                     + my.[q] * corner_term c p fy l q
                     + mz.[q] * corner_term c p fz l q); [|assumption].
  intros out' l q Hl. cbv zeta.
  fold (corner_term c p fx l q). fold (corner_term c p fy l q).
  fold (corner_term c p fz l q).
  rewrite !set_set.
  rewrite !get_set_same by (rewrite ?set_length; assumption).
  f_equal. ring.
Qed.

Lemma range_length (D : nat) (g : nat -> R) : length (map g (np.range D)) = D.
Proof. unfold np.range. now rewrite length_map, length_seq. Qed.

Lemma map_range_ext (D : nat) (g h : nat -> R) :
  (forall l, (l < D)%nat -> g l = h l) ->
  map g (np.range D) = map h (np.range D).
Proof.
  intros H. apply map_ext_in. intros l Hl. apply in_seq in Hl. apply H. lia.
Qed.

Lemma add1_range (D : nat) (g h : nat -> R) :
  np.add1 (map g (np.range D)) (map h (np.range D))
  = map (fun l => g l + h l) (np.range D).
Proof. unfold np.add1. apply broadcast_map. Qed.

Lemma imul1_range (D : nat) (g : nat -> R) (a : R) :
  np.imul1 (map g (np.range D)) a = map (fun l => g l * a) (np.range D).
Proof. unfold np.imul1. now rewrite map_map. Qed.

Lemma array1_range (D : nat) (a : np.array1) :
  length a = D -> a = map (fun l => a.[l]) (np.range D).
Proof. intros <-. apply array1_tabulate. Qed.

Lemma add1_array_range (D : nat) (a : np.array1) (h : nat -> R) :
  length a = D ->
  np.add1 a (map h (np.range D)) = map (fun l => a.[l] + h l) (np.range D).
Proof.
  intros Ha. rewrite (array1_range D a Ha) at 1. apply add1_range.
Qed.

(** X3: [jit_grav] adds the field to what [out] holds: on an [out] of one
    entry per point, the result is [out] plus the result on zeros. *)
Theorem X3_jit_grav_accumulates (c p : np.array2) (density : np.array1)
    (f : rectangular_prism_numba.kernel) (out : np.array1) :
  length out = np.size (nth 0%nat c []) ->
  rectangular_prism_numba.jit_grav c p density f out
  = np.add1 out
      (rectangular_prism_numba.jit_grav c p density f
         (np.zeros (np.size (nth 0%nat c [])))).
Proof.
  intros Hout.
  rewrite (jit_grav_general c p density f out Hout).
  rewrite (jit_grav_general c p density f (np.zeros _)) by apply repeat_length.
  rewrite add1_array_range by assumption.
  apply map_ext; intros l. rewrite zeros_get. ring.
Qed.

Lemma X3_jit_grav_accumulates_witness :
  rectangular_prism_numba.jit_grav (coordinates_array origin_point)
    (prisms_array unit_prism) [1] rectangular_prism_numba.kernel_dz [7]
  = np.add1 [7]
      (rectangular_prism_numba.jit_grav (coordinates_array origin_point)
         (prisms_array unit_prism) [1] rectangular_prism_numba.kernel_dz
         (np.zeros 1)).
Proof.
  apply (X3_jit_grav_accumulates (coordinates_array origin_point)
           (prisms_array unit_prism) [1] rectangular_prism_numba.kernel_dz [7]).
  reflexivity.
Defined.

(** X4: [jit_mag] is three passes of [jit_grav] over the same [out], one
    per magnetization component with its kernel. *)
Theorem X4_jit_mag_three_passes (c p : np.array2) (mx my mz : np.array1)
    (fx fy fz : rectangular_prism_numba.kernel) (out : np.array1) :
  length out = np.size (nth 0%nat c []) ->
  rectangular_prism_numba.jit_mag c p mx my mz fx fy fz out
  = rectangular_prism_numba.jit_grav c p mz fz
      (rectangular_prism_numba.jit_grav c p my fy
         (rectangular_prism_numba.jit_grav c p mx fx out)).
Proof.
  intros Hout.
  rewrite (jit_mag_general c p mx my mz fx fy fz out Hout).
  rewrite (jit_grav_general c p mx fx out Hout).
  rewrite (jit_grav_general c p my fy) by apply range_length.
  rewrite (jit_grav_general c p mz fz) by apply range_length.
  apply map_range_ext; intros l Hl.
  rewrite !map_range_get by assumption.
  rewrite !sum_over_plus. ring.
Qed.

Lemma X4_jit_mag_three_passes_witness :
  rectangular_prism_numba.jit_mag (coordinates_array origin_point)
    (prisms_array unit_prism) [1] [2] [3]
    rectangular_prism_numba.kernel_dxx rectangular_prism_numba.kernel_dxy
    rectangular_prism_numba.kernel_dxz [0]
  = rectangular_prism_numba.jit_grav (coordinates_array origin_point)
      (prisms_array unit_prism) [3] rectangular_prism_numba.kernel_dxz
      (rectangular_prism_numba.jit_grav (coordinates_array origin_point)
         (prisms_array unit_prism) [2] rectangular_prism_numba.kernel_dxy
         (rectangular_prism_numba.jit_grav (coordinates_array origin_point)
            (prisms_array unit_prism) [1]
            rectangular_prism_numba.kernel_dxx [0])).
Proof.
  apply (X4_jit_mag_three_passes (coordinates_array origin_point)
           (prisms_array unit_prism) [1] [2] [3]).
  reflexivity.
Defined.

(** ** The outcome of a validated call *)

Lemma grav_outcome (cts : constants) (c : coordinates_dict) (p : prisms_dict)
    (D P : nat) (density : np.array1) (field : string) (scale : bool)
    (k : Spec.kernel) :
  shapes_ok c p D P = true -> length density = P ->
  lookup field Spec.gravity_kernels = Some k ->
  outcome (rectangular_prism.grav cts c p density field scale)
  = inr (grav_scaling cts field scale (gravity_sums k c p D P density)).
Proof.
  intros Hs Hlen Hk.
  unfold outcome. rewrite grav_run.
  rewrite (shapes_valid_dicts c p D P) by assumption.
  rewrite length_all_of_length by assumption.
  destruct (grav_dispatch field)
    as [(_ & _ & Hnone & _) | (K & f & k' & -> & _ & Hk' & Hin & _)];
    [congruence|].
  rewrite Hk in Hk'. injection Hk' as <-.
  destruct (kernel_table_agrees K f k Hin) as [HK Hf].
  cbn [snd].
  now rewrite (iterate_over_vertices_sum c p D P density K k Hs HK Hlen).
Qed.

Lemma jit_grav_field (c : coordinates_dict) (p : prisms_dict) (D P : nat)
    (density : np.array1) (field : string) (k : Spec.kernel) :
  shapes_ok c p D P = true ->
  lookup field Spec.gravity_kernels = Some k ->
  exists f,
    lookup field rectangular_prism_numba.grav_fields = Some f
    /\ recomputes_distance f k
    /\ rectangular_prism_numba.jit_grav (coordinates_array c) (prisms_array p)
         density f (np.zeros D)
       = gravity_sums k c p D P density.
Proof.
  intros Hs Hk.
  destruct (grav_dispatch field)
    as [(_ & _ & Hnone & _) | (K & f & k' & _ & Hf & Hk' & Hin & _)];
    [congruence|].
  rewrite Hk in Hk'. injection Hk' as <-.
  destruct (kernel_table_agrees K f k Hin) as [_ Hrec].
  exists f. repeat split; try assumption.
  now apply jit_grav_zeros.
Qed.

Lemma mag_outcome (cts : constants) (c : coordinates_dict) (p : prisms_dict)
    (D P : nat) (mx my mz : np.array1) (field : string) (scale : bool)
    (kx ky kz : Spec.kernel) :
  shapes_ok c p D P = true ->
  length mx = P -> length my = P -> length mz = P ->
  lookup field Spec.magnetic_kernels = Some (kx, ky, kz) ->
  outcome (rectangular_prism.mag cts c p mx my mz field scale)
  = inr (mag_scaling cts field scale
           (magnetic_sums kx ky kz c p D P mx my mz)).
Proof.
  intros Hs Hmx Hmy Hmz Hk.
  unfold outcome. rewrite mag_run.
  rewrite (shapes_valid_dicts c p D P) by assumption.
  rewrite (lengths_all_of_length P mx my mz) by assumption.
  destruct (mag_dispatch field)
    as [(_ & _ & Hnone & _)
       | (Kx & Ky & Kz & fx & fy & fz & kx' & ky' & kz'
          & -> & _ & Hk' & Hx & Hy & Hz & _)];
    [congruence|].
  rewrite Hk in Hk'. injection Hk' as <- <- <-.
  destruct (kernel_table_agrees _ _ _ Hx) as [HKx Hfx].
  destruct (kernel_table_agrees _ _ _ Hy) as [HKy Hfy].
  destruct (kernel_table_agrees _ _ _ Hz) as [HKz Hfz].
  cbn [snd].
  now rewrite (iterate_over_vertices_mag c p D P mx my mz Kx Ky Kz kx ky kz)
    by assumption.
Qed.

(** ** The gravity assembler *)

(** X1: for D points, P prisms and a density array of length P, and for
    each of the ten gravity field names, the unscaled output of [grav] has
    one entry per point: the sum over the prisms of density times the corner
    sum of the field's kernel.  The same array is what [jit_grav] leaves in
    a zero-initialised [out] when it is run on the positional arrays with
    the kernel that the dictionary [fields] of the numba module gives for
    the name. *)
Theorem X1_gravity_output (cts : constants) (c : coordinates_dict)
    (p : prisms_dict) (D P : nat) (density : np.array1)
    (field : string) (k : Spec.kernel) :
  shapes_ok c p D P = true -> length density = P ->
  lookup field Spec.gravity_kernels = Some k ->
  outcome (rectangular_prism.grav cts c p density field false)
  = inr (map (Spec.gravity_at k (prisms_of p) density) (points_of c))
  /\ (exists f,
        lookup field rectangular_prism_numba.grav_fields = Some f
        /\ rectangular_prism_numba.jit_grav (coordinates_array c)
             (prisms_array p) density f (np.zeros D)
           = map (Spec.gravity_at k (prisms_of p) density) (points_of c))
  /\ length (map (Spec.gravity_at k (prisms_of p) density) (points_of c)) = D.
Proof.
  intros Hs Hlen Hk.
  rewrite (grav_outcome cts c p D P density field false k Hs Hlen Hk).
  rewrite grav_scaling_false.
  rewrite (gravity_at_points c p D P k density Hs).
  split; [reflexivity|]. split; [|apply range_length].
  destruct (jit_grav_field c p D P density field k Hs Hk) as (f & Hf & _ & Hjit).
  exists f. split; assumption.
Qed.

Lemma X1_gravity_output_witness :
  outcome (rectangular_prism.grav si_constants origin_point unit_prism
             [1000] "zz" false)
  = inr (map (Spec.gravity_at Spec.K_zz (prisms_of unit_prism) [1000])
             (points_of origin_point)).
Proof.
  apply (X1_gravity_output si_constants origin_point unit_prism 1 1
           [1000] "zz" Spec.K_zz); reflexivity.
Defined.

(** ** [mag] as three calls of [grav] *)

Lemma magnetic_sums_gravity (kx ky kz : Spec.kernel) (c : coordinates_dict)
    (p : prisms_dict) (D P : nat) (mx my mz : np.array1) :
  magnetic_sums kx ky kz c p D P mx my mz
  = np.add1 (np.add1 (gravity_sums kx c p D P mx) (gravity_sums ky c p D P my))
            (gravity_sums kz c p D P mz).
Proof.
  unfold magnetic_sums, gravity_sums. rewrite !add1_range.
  apply map_ext; intros l. now rewrite !sum_over_plus.
Qed.

(** X5: the unscaled output of [mag] is the sum of three unscaled outputs
    of [grav], with mx, my and mz in the place of the density: for
    'potential' the gravity fields x, y, z; for 'x' the fields xx, xy, xz;
    for 'y' the fields xy, yy, yz; for 'z' the fields xz, yz, zz. *)
Theorem X5_mag_is_three_gravs (cts : constants) (c : coordinates_dict)
    (p : prisms_dict) (D P : nat) (mx my mz : np.array1)
    (field name_x name_y name_z : string) :
  shapes_ok c p D P = true ->
  length mx = P -> length my = P -> length mz = P ->
  In (field, (name_x, name_y, name_z)) mag_as_grav ->
  exists rx ry rz : np.array1,
    outcome (rectangular_prism.grav cts c p mx name_x false) = inr rx
    /\ outcome (rectangular_prism.grav cts c p my name_y false) = inr ry
    /\ outcome (rectangular_prism.grav cts c p mz name_z false) = inr rz
    /\ outcome (rectangular_prism.mag cts c p mx my mz field false)
       = inr (np.add1 (np.add1 rx ry) rz).
Proof.
  intros Hs Hmx Hmy Hmz Hin.
  assert (Hk : exists kx ky kz,
            lookup field Spec.magnetic_kernels = Some (kx, ky, kz)
            /\ lookup name_x Spec.gravity_kernels = Some kx
            /\ lookup name_y Spec.gravity_kernels = Some ky
            /\ lookup name_z Spec.gravity_kernels = Some kz).
  { unfold mag_as_grav in Hin. cbn [In] in Hin.
    repeat destruct Hin as [Hin | Hin]; try contradiction;
      injection Hin as <- <- <- <-; do 3 eexists; repeat split; reflexivity. }
  destruct Hk as (kx & ky & kz & Hmag & Hkx & Hky & Hkz).
  pose proof (grav_outcome cts c p D P mx name_x false kx Hs Hmx Hkx) as Hx.
  pose proof (grav_outcome cts c p D P my name_y false ky Hs Hmy Hky) as Hy.
  pose proof (grav_outcome cts c p D P mz name_z false kz Hs Hmz Hkz) as Hz.
  pose proof (mag_outcome cts c p D P mx my mz field false kx ky kz
                Hs Hmx Hmy Hmz Hmag) as Hm.
  rewrite grav_scaling_false in Hx, Hy, Hz.
  rewrite mag_scaling_false, magnetic_sums_gravity in Hm.
  exists (gravity_sums kx c p D P mx), (gravity_sums ky c p D P my),
    (gravity_sums kz c p D P mz).
  repeat split; assumption.
Qed.

Lemma X5_mag_is_three_gravs_witness :
  exists rx ry rz : np.array1,
    outcome (rectangular_prism.grav si_constants origin_point unit_prism
               [1] "xy" false) = inr rx
    /\ outcome (rectangular_prism.grav si_constants origin_point unit_prism
                  [2] "yy" false) = inr ry
    /\ outcome (rectangular_prism.grav si_constants origin_point unit_prism
                  [3] "yz" false) = inr rz
    /\ outcome (rectangular_prism.mag si_constants origin_point unit_prism
                  [1] [2] [3] "y" false)
       = inr (np.add1 (np.add1 rx ry) rz).
Proof.
  destruct (X5_mag_is_three_gravs si_constants origin_point unit_prism 1 1
              [1] [2] [3] "y" "xy" "yy" "yz")
    as (rx & ry & rz & Hx & Hy & Hz & Hm); try reflexivity.
  - simpl. tauto.
  - exists rx, ry, rz. repeat split; assumption.
Defined.

(** ** Linearity in the source property *)

Lemma lincomb_range (D : nat) (g h : nat -> R) (a b : R) :
  lincomb a (map g (np.range D)) b (map h (np.range D))
  = map (fun l => g l * a + h l * b) (np.range D).
Proof. unfold lincomb. now rewrite !imul1_range, add1_range. Qed.

Lemma lincomb_arrays (P : nat) (sigma sigma' : np.array1) (a b : R) :
  length sigma = P -> length sigma' = P ->
  lincomb a sigma b sigma'
  = map (fun q => sigma.[q] * a + sigma'.[q] * b) (np.range P).
Proof.
  intros H H'. rewrite (array1_range P sigma H) at 1.
  rewrite (array1_range P sigma' H') at 1. apply lincomb_range.
Qed.

Lemma sum_over_scale {A : Type} (l : list A) (f : A -> R) (a : R) :
  Spec.sum_over l (fun q => f q * a) = Spec.sum_over l f * a.
Proof.
  induction l as [|x l IH]; cbn [Spec.sum_over fold_right]; [ring|].
  unfold Spec.sum_over in IH. rewrite IH. ring.
Qed.

Lemma gravity_sums_lincomb (k : Spec.kernel) (c : coordinates_dict)
    (p : prisms_dict) (D P : nat) (sigma sigma' : np.array1) (a b : R) :
  length sigma = P -> length sigma' = P ->
  gravity_sums k c p D P (lincomb a sigma b sigma')
  = lincomb a (gravity_sums k c p D P sigma) b (gravity_sums k c p D P sigma').
Proof.
  intros H H'. unfold gravity_sums. rewrite lincomb_range.
  apply map_ext; intros l.
  rewrite <- !sum_over_scale, <- sum_over_plus.
  apply sum_over_ext; intros q Hq. apply in_seq in Hq.
  rewrite (lincomb_arrays P sigma sigma' a b H H').
  rewrite map_range_get by lia. ring.
Qed.

Lemma grav_scaling_lincomb (cts : constants) (field : string) (scale : bool)
    (D : nat) (g h : nat -> R) (a b : R) :
  In field Spec.gravity_fields ->
  grav_scaling cts field scale
    (lincomb a (map g (np.range D)) b (map h (np.range D)))
  = lincomb a (grav_scaling cts field scale (map g (np.range D)))
            b (grav_scaling cts field scale (map h (np.range D))).
Proof.
  intros Hin. destruct scale; [|reflexivity].
  rewrite !grav_scaling_factor by assumption.
  rewrite lincomb_range, !imul1_range, lincomb_range.
  apply map_ext; intros l. ring.
Qed.

(** X2: the output is linear in the density: for densities [sigma] and
    [sigma'] of length P and factors a and b, the field of
    a * sigma + b * sigma' is a times the field of [sigma] plus b times the
    field of [sigma']; for both strategies and every kernel, and for [grav]
    with every field name, scaled or not.  Exact in real arithmetic. *)
Theorem X2_linear_in_density (cts : constants) (c : coordinates_dict)
    (p : prisms_dict) (D P : nat) (a b : R) (sigma sigma' : np.array1) :
  shapes_ok c p D P = true -> length sigma = P -> length sigma' = P ->
  (forall K f k, In (K, f, k) kernel_table ->
     rectangular_prism.iterate_over_vertices c p (lincomb a sigma b sigma') K
     = lincomb a (rectangular_prism.iterate_over_vertices c p sigma K)
               b (rectangular_prism.iterate_over_vertices c p sigma' K)
     /\ rectangular_prism_numba.jit_grav (coordinates_array c) (prisms_array p)
          (lincomb a sigma b sigma') f (np.zeros D)
        = lincomb a (rectangular_prism_numba.jit_grav (coordinates_array c)
                       (prisms_array p) sigma f (np.zeros D))
                  b (rectangular_prism_numba.jit_grav (coordinates_array c)
                       (prisms_array p) sigma' f (np.zeros D)))
  /\ (forall (field : string) (scale : bool), In field Spec.gravity_fields ->
        exists r r' : np.array1,
          outcome (rectangular_prism.grav cts c p sigma field scale) = inr r
          /\ outcome (rectangular_prism.grav cts c p sigma' field scale) = inr r'
          /\ outcome (rectangular_prism.grav cts c p
                        (lincomb a sigma b sigma') field scale)
             = inr (lincomb a r b r')).
Proof.
  intros Hs Hlen Hlen'.
  assert (Hlin : length (lincomb a sigma b sigma') = P).
  { rewrite (lincomb_arrays P sigma sigma' a b Hlen Hlen'). apply range_length. }
  split.
  - intros K f k Hin. destruct (kernel_table_agrees K f k Hin) as [HK Hf].
    rewrite !(iterate_over_vertices_sum c p D P _ K k Hs HK) by assumption.
    rewrite !(jit_grav_zeros c p D P _ f k Hs Hf).
    fold (gravity_sums k c p D P (lincomb a sigma b sigma')).
    fold (gravity_sums k c p D P sigma). fold (gravity_sums k c p D P sigma').
    rewrite gravity_sums_lincomb by assumption. split; reflexivity.
  - intros field scale Hin.
    destruct (grav_dispatch field)
      as [(_ & _ & _ & Hout) | (K & f & k & _ & _ & Hk & _)];
      [contradiction|].
    pose proof (grav_outcome cts c p D P sigma field scale k Hs Hlen Hk)
      as Hr.
    pose proof (grav_outcome cts c p D P sigma' field scale k Hs Hlen' Hk)
      as Hr'.
    pose proof (grav_outcome cts c p D P _ field scale k Hs Hlin Hk)
      as Hnp.
    do 2 eexists. split; [exact Hr|]. split; [exact Hr'|].
    rewrite Hnp, gravity_sums_lincomb by assumption.
    unfold gravity_sums. now rewrite grav_scaling_lincomb by assumption.
Qed.

Lemma X2_linear_in_density_witness :
  rectangular_prism.iterate_over_vertices origin_point unit_prism
    (lincomb 2 [1] 3 [5]) rectangular_prism.kernel_z
  = lincomb 2 (rectangular_prism.iterate_over_vertices origin_point
                 unit_prism [1] rectangular_prism.kernel_z)
            3 (rectangular_prism.iterate_over_vertices origin_point
                 unit_prism [5] rectangular_prism.kernel_z).
Proof.
  destruct (X2_linear_in_density si_constants origin_point unit_prism 1 1
              2 3 [1] [5]) as [Heng _]; [reflexivity | reflexivity | reflexivity |].
  apply (Heng rectangular_prism.kernel_z rectangular_prism_numba.kernel_dz
           Spec.K_z).
  unfold kernel_table. simpl. tauto.
Defined.

(** ** No points, no prisms *)

Lemma zeros_range (D : nat) : np.zeros D = map (fun _ => 0) (np.range D).
Proof.
  rewrite (array1_range D (np.zeros D)) by apply repeat_length.
  apply map_ext; intros l. apply zeros_get.
Qed.

Lemma gravity_sums_empty (k : Spec.kernel) (c : coordinates_dict)
    (p : prisms_dict) (D P : nat) (density : np.array1) :
  D = 0%nat \/ P = 0%nat -> gravity_sums k c p D P density = np.zeros D.
Proof.
  intros [-> | ->]; [reflexivity|].
  rewrite zeros_range. reflexivity.
Qed.

Lemma magnetic_sums_empty (kx ky kz : Spec.kernel) (c : coordinates_dict)
    (p : prisms_dict) (D P : nat) (mx my mz : np.array1) :
  D = 0%nat \/ P = 0%nat ->
  magnetic_sums kx ky kz c p D P mx my mz = np.zeros D.
Proof.
  intros [-> | ->]; [reflexivity|].
  rewrite zeros_range. reflexivity.
Qed.

Lemma imul1_zeros (D : nat) (a : R) : np.imul1 (np.zeros D) a = np.zeros D.
Proof.
  rewrite zeros_range, imul1_range. apply map_ext; intros _. ring.
Qed.

Lemma grav_scaling_zeros (cts : constants) (field : string) (scale : bool)
    (D : nat) :
  grav_scaling cts field scale (np.zeros D) = np.zeros D.
Proof.
  unfold grav_scaling. destruct scale; [|reflexivity]. cbv zeta.
  destruct (member field _), (member field _); now rewrite ?imul1_zeros.
Qed.

Lemma mag_scaling_zeros (cts : constants) (field : string) (scale : bool)
    (D : nat) :
  mag_scaling cts field scale (np.zeros D) = np.zeros D.
Proof.
  unfold mag_scaling. destruct scale; [|reflexivity]. cbv zeta.
  destruct (member field _), (String.eqb field _); now rewrite ?imul1_zeros.
Qed.

(** X6: with no prism (P = 0) every supported field of [grav] and [mag]
    is an array of D zeros, and with no observation point (D = 0) it is the
    empty array, scaled or not; and [jit_grav] and [jit_mag] leave a
    zero-initialised [out] as it is, whatever the kernels. *)
Theorem X6_empty_input (cts : constants) (c : coordinates_dict)
    (p : prisms_dict) (D P : nat) (scale : bool) :
  shapes_ok c p D P = true -> D = 0%nat \/ P = 0%nat ->
  (forall (density : np.array1) (field : string),
     length density = P -> In field Spec.gravity_fields ->
     outcome (rectangular_prism.grav cts c p density field scale)
     = inr (np.zeros D))
  /\ (forall (mx my mz : np.array1) (field : string),
        length mx = P -> length my = P -> length mz = P ->
        In field Spec.magnetic_fields ->
        outcome (rectangular_prism.mag cts c p mx my mz field scale)
        = inr (np.zeros D))
  /\ (forall (density : np.array1) (f : rectangular_prism_numba.kernel),
        rectangular_prism_numba.jit_grav (coordinates_array c)
          (prisms_array p) density f (np.zeros D)
        = np.zeros D)
  /\ (forall (mx my mz : np.array1)
             (fx fy fz : rectangular_prism_numba.kernel),
        rectangular_prism_numba.jit_mag (coordinates_array c)
          (prisms_array p) mx my mz fx fy fz (np.zeros D)
        = np.zeros D).
Proof.
  intros Hs Hempty. destruct (arrays_sizes c p D P Hs) as [HD HP].
  split; [|split; [|split]].
  - intros density field Hlen Hin.
    destruct (grav_dispatch field)
      as [(_ & _ & _ & Hout) | (K & f & k & _ & _ & Hk & _)];
      [contradiction|].
    rewrite (grav_outcome cts c p D P density field scale k Hs Hlen Hk).
    now rewrite gravity_sums_empty, grav_scaling_zeros by assumption.
  - intros mx my mz field Hmx Hmy Hmz Hin.
    destruct (mag_dispatch field)
      as [(_ & _ & _ & Hout)
         | (Kx & Ky & Kz & fx & fy & fz & kx & ky & kz
            & _ & _ & Hk & _)];
      [contradiction|].
    rewrite (mag_outcome cts c p D P mx my mz field scale kx ky kz
               Hs Hmx Hmy Hmz Hk).
    now rewrite magnetic_sums_empty, mag_scaling_zeros by assumption.
  - intros density f.
    rewrite jit_grav_general by (rewrite HD; apply repeat_length).
    rewrite HD, HP. destruct Hempty as [-> | ->]; [reflexivity|].
    rewrite zeros_range. apply map_ext; intros l.
    rewrite <- zeros_range, zeros_get. cbn. ring.
  - intros mx my mz fx fy fz.
    rewrite jit_mag_general by (rewrite HD; apply repeat_length).
    rewrite HD, HP. destruct Hempty as [-> | ->]; [reflexivity|].
    rewrite zeros_range. apply map_ext; intros l.
    rewrite <- zeros_range, zeros_get. cbn. ring.
Qed.

Lemma X6_empty_input_witness :
  outcome (rectangular_prism.grav si_constants origin_point
             (mk_prisms [] [] [] [] [] []) [] "z" true)
  = inr (np.zeros 1)
  /\ outcome (rectangular_prism.mag si_constants (mk_coordinates [] [] [])
                unit_prism [1] [2] [3] "x" true)
     = inr (np.zeros 0).
Proof.
  destruct (X6_empty_input si_constants origin_point
              (mk_prisms [] [] [] [] [] []) 1 0 true) as [Hgrav _];
    [reflexivity | right; reflexivity |].
  destruct (X6_empty_input si_constants (mk_coordinates [] [] [])
              unit_prism 0 1 true) as (_ & Hmag & _);
    [reflexivity | left; reflexivity |].
  split.
  - apply (Hgrav [] "z"%string); [reflexivity | simpl; tauto].
  - apply (Hmag [1] [2] [3] "x"%string);
      [reflexivity | reflexivity | reflexivity | simpl; tauto].
Defined.

(** ** Superposition over prisms, independence of the points *)

Lemma sum_over_app {A : Type} (l l' : list A) (f : A -> R) :
  Spec.sum_over (l ++ l') f = Spec.sum_over l f + Spec.sum_over l' f.
Proof.
  induction l as [|a l IH].
  - change (Spec.sum_over l' f = 0 + Spec.sum_over l' f). ring.
  - change ((a :: l) ++ l') with (a :: (l ++ l')).
    rewrite !sum_over_cons, IH. ring.
Qed.

Lemma sum_over_map {A B : Type} (g : A -> B) (l : list A) (f : B -> R) :
  Spec.sum_over (map g l) f = Spec.sum_over l (fun a => f (g a)).
Proof.
  induction l as [|a l IH]; [reflexivity|].
  cbn [map]. now rewrite !sum_over_cons, IH.
Qed.

Lemma seq_plus (n m : nat) :
  seq 0 (n + m) = seq 0 n ++ map (Nat.add n) (seq 0 m).
Proof.
  rewrite seq_app. f_equal. cbn [Nat.add].
  induction n as [|n IH].
  - symmetry. apply map_id.
  - now rewrite <- seq_shift, IH, map_map.
Qed.

Lemma sum_over_range_plus (P P' : nat) (f : nat -> R) :
  Spec.sum_over (np.range (P + P')) f
  = Spec.sum_over (np.range P) f
    + Spec.sum_over (np.range P') (fun q => f (P + q)%nat).
Proof.
  unfold np.range. now rewrite seq_plus, sum_over_app, sum_over_map.
Qed.

Lemma get_app_left (a a' : np.array1) (q : nat) :
  (q < length a)%nat -> (a ++ a').[q] = a.[q].
Proof. intros H. unfold np.get. now apply app_nth1. Qed.

Lemma get_app_right (a a' : np.array1) (q : nat) :
  (a ++ a').[length a + q] = a'.[q].
Proof.
  unfold np.get. rewrite app_nth2 by lia. f_equal. lia.
Qed.

Lemma shapes_prisms_app (c : coordinates_dict) (p p' : prisms_dict)
    (D P P' : nat) :
  shapes_ok c p D P = true -> shapes_ok c p' D P' = true ->
  shapes_ok c (prisms_app p p') D (P + P') = true.
Proof.
  intros Hs Hs'.
  pose proof (shapes_ok_lengths c p D P Hs)
    as ((Hx & Hy & Hz) & (H1 & H2 & H3 & H4 & H5 & H6)).
  pose proof (shapes_ok_lengths c p' D P' Hs')
    as (_ & (H1' & H2' & H3' & H4' & H5' & H6')).
  unfold shapes_ok, check.all_of_length, np.size.
  cbn [forallb getitem coordinates_getitem prisms_getitem prisms_app
       key_x1 key_x2 key_y1 key_y2 key_z1 key_z2].
  rewrite !length_app, Hx, Hy, Hz, H1, H2, H3, H4, H5, H6,
    H1', H2', H3', H4', H5', H6', !Nat.eqb_refl. reflexivity.
Qed.

Lemma shapes_coordinates_app (c c' : coordinates_dict) (p : prisms_dict)
    (D D' P : nat) :
  shapes_ok c p D P = true -> shapes_ok c' p D' P = true ->
  shapes_ok (coordinates_app c c') p (D + D') P = true.
Proof.
  intros Hs Hs'.
  pose proof (shapes_ok_lengths c p D P Hs)
    as ((Hx & Hy & Hz) & (H1 & H2 & H3 & H4 & H5 & H6)).
  pose proof (shapes_ok_lengths c' p D' P Hs') as ((Hx' & Hy' & Hz') & _).
  unfold shapes_ok, check.all_of_length, np.size.
  cbn [forallb getitem coordinates_getitem prisms_getitem coordinates_app
       key_x key_y key_z].
  rewrite !length_app, Hx, Hy, Hz, Hx', Hy', Hz', H1, H2, H3, H4, H5, H6,
    !Nat.eqb_refl. reflexivity.
Qed.

Lemma prism_at_app (c : coordinates_dict) (p p' : prisms_dict) (D P : nat) :
  shapes_ok c p D P = true ->
  (forall q, (q < P)%nat -> prism_at (prisms_app p p') q = prism_at p q)
  /\ (forall q, prism_at (prisms_app p p') (P + q) = prism_at p' q).
Proof.
  intros Hs.
  pose proof (shapes_ok_lengths c p D P Hs)
    as (_ & (H1 & H2 & H3 & H4 & H5 & H6)).
  unfold prism_at.
  cbn [getitem prisms_getitem prisms_app
       key_x1 key_x2 key_y1 key_y2 key_z1 key_z2].
  split.
  - intros q Hq. now rewrite !get_app_left by lia.
  - intros q.
    rewrite <- H1 at 1. rewrite <- H2 at 1. rewrite <- H3 at 1.
    rewrite <- H4 at 1. rewrite <- H5 at 1. rewrite <- H6 at 1.
    now rewrite !get_app_right.
Qed.

Lemma point_at_app (c c' : coordinates_dict) (p : prisms_dict) (D P : nat) :
  shapes_ok c p D P = true ->
  (forall l, (l < D)%nat -> point_at (coordinates_app c c') l = point_at c l)
  /\ (forall l, point_at (coordinates_app c c') (D + l) = point_at c' l).
Proof.
  intros Hs.
  pose proof (shapes_ok_lengths c p D P Hs) as ((Hx & Hy & Hz) & _).
  unfold point_at.
  cbn [getitem coordinates_getitem coordinates_app key_x key_y key_z].
  split.
  - intros l Hl. now rewrite !get_app_left by lia.
  - intros l.
    rewrite <- Hx at 1. rewrite <- Hy at 1. rewrite <- Hz at 1.
    now rewrite !get_app_right.
Qed.

Lemma gravity_sums_prisms_app (k : Spec.kernel) (c : coordinates_dict)
    (p p' : prisms_dict) (D P P' : nat) (sigma sigma' : np.array1) :
  shapes_ok c p D P = true -> length sigma = P ->
  gravity_sums k c (prisms_app p p') D (P + P') (sigma ++ sigma')
  = np.add1 (gravity_sums k c p D P sigma) (gravity_sums k c p' D P' sigma').
Proof.
  intros Hs Hlen. destruct (prism_at_app c p p' D P Hs) as [Hleft Hright].
  unfold gravity_sums. rewrite add1_range. apply map_ext; intros l.
  rewrite sum_over_range_plus. f_equal.
  - apply sum_over_ext; intros q Hq. apply in_seq in Hq.
    rewrite Hleft, get_app_left by lia. reflexivity.
  - apply sum_over_ext; intros q _.
    rewrite Hright. rewrite <- Hlen at 1. now rewrite get_app_right.
Qed.

Lemma gravity_sums_coordinates_app (k : Spec.kernel) (c c' : coordinates_dict)
    (p : prisms_dict) (D D' P : nat) (sigma : np.array1) :
  shapes_ok c p D P = true ->
  gravity_sums k (coordinates_app c c') p (D + D') P sigma
  = gravity_sums k c p D P sigma ++ gravity_sums k c' p D' P sigma.
Proof.
  intros Hs. destruct (point_at_app c c' p D P Hs) as [Hleft Hright].
  unfold gravity_sums, np.range. rewrite seq_plus, map_app, map_map.
  f_equal.
  - apply map_ext_in; intros l Hl. apply in_seq in Hl.
    now rewrite Hleft by lia.
  - apply map_ext; intros l. now rewrite Hright.
Qed.

Lemma grav_scaling_add1 (cts : constants) (field : string) (scale : bool)
    (D : nat) (g h : nat -> R) :
  In field Spec.gravity_fields ->
  grav_scaling cts field scale
    (np.add1 (map g (np.range D)) (map h (np.range D)))
  = np.add1 (grav_scaling cts field scale (map g (np.range D)))
            (grav_scaling cts field scale (map h (np.range D))).
Proof.
  intros Hin. destruct scale; [|reflexivity].
  rewrite !grav_scaling_factor by assumption.
  rewrite add1_range, !imul1_range, add1_range.
  apply map_ext; intros l. ring.
Qed.

Lemma imul1_app (a b : np.array1) (x : R) :
  np.imul1 (a ++ b) x = np.imul1 a x ++ np.imul1 b x.
Proof. unfold np.imul1. apply map_app. Qed.

Lemma grav_scaling_app (cts : constants) (field : string) (scale : bool)
    (a b : np.array1) :
  grav_scaling cts field scale (a ++ b)
  = grav_scaling cts field scale a ++ grav_scaling cts field scale b.
Proof.
  unfold grav_scaling. destruct scale; [|reflexivity]. cbv zeta.
  destruct (member field _), (member field _); now rewrite !imul1_app.
Qed.

(** X7: superposition.  The field of two prism collections taken
    together, with their densities one after the other, is the sum of the
    fields of the two collections; for both strategies and every kernel, and
    for [grav] with every field name, scaled or not.  Exact in real
    arithmetic. *)
Theorem X7_superposition (cts : constants) (c : coordinates_dict)
    (p p' : prisms_dict) (D P P' : nat) (sigma sigma' : np.array1) :
  shapes_ok c p D P = true -> shapes_ok c p' D P' = true ->
  length sigma = P -> length sigma' = P' ->
  (forall K f k, In (K, f, k) kernel_table ->
     rectangular_prism.iterate_over_vertices c (prisms_app p p')
       (sigma ++ sigma') K
     = np.add1 (rectangular_prism.iterate_over_vertices c p sigma K)
               (rectangular_prism.iterate_over_vertices c p' sigma' K)
     /\ rectangular_prism_numba.jit_grav (coordinates_array c)
          (prisms_array (prisms_app p p')) (sigma ++ sigma') f (np.zeros D)
        = np.add1
            (rectangular_prism_numba.jit_grav (coordinates_array c)
               (prisms_array p) sigma f (np.zeros D))
            (rectangular_prism_numba.jit_grav (coordinates_array c)
               (prisms_array p') sigma' f (np.zeros D)))
  /\ (forall (field : string) (scale : bool), In field Spec.gravity_fields ->
        exists r r' : np.array1,
          outcome (rectangular_prism.grav cts c p sigma field scale) = inr r
          /\ outcome (rectangular_prism.grav cts c p' sigma' field scale)
             = inr r'
          /\ outcome (rectangular_prism.grav cts c (prisms_app p p')
                        (sigma ++ sigma') field scale)
             = inr (np.add1 r r')).
Proof.
  intros Hs Hs' Hlen Hlen'.
  pose proof (shapes_prisms_app c p p' D P P' Hs Hs') as Hsa.
  assert (Hla : length (sigma ++ sigma') = (P + P')%nat)
    by (rewrite length_app; lia).
  split.
  - intros K f k Hin. destruct (kernel_table_agrees K f k Hin) as [HK Hf].
    rewrite (iterate_over_vertices_sum c _ D (P + P') _ K k Hsa HK Hla).
    rewrite (iterate_over_vertices_sum c p D P sigma K k Hs HK Hlen).
    rewrite (iterate_over_vertices_sum c p' D P' sigma' K k Hs' HK Hlen').
    rewrite (jit_grav_zeros c _ D (P + P') _ f k Hsa Hf).
    rewrite (jit_grav_zeros c p D P sigma f k Hs Hf).
    rewrite (jit_grav_zeros c p' D P' sigma' f k Hs' Hf).
    fold (gravity_sums k c (prisms_app p p') D (P + P') (sigma ++ sigma')).
    fold (gravity_sums k c p D P sigma). fold (gravity_sums k c p' D P' sigma').
    rewrite gravity_sums_prisms_app by assumption. split; reflexivity.
  - intros field scale Hin.
    destruct (grav_dispatch field)
      as [(_ & _ & _ & Hout) | (K & f & k & _ & _ & Hk & _)];
      [contradiction|].
    pose proof (grav_outcome cts c p D P sigma field scale k Hs Hlen Hk)
      as Hr.
    pose proof (grav_outcome cts c p' D P' sigma' field scale k Hs' Hlen' Hk)
      as Hr'.
    pose proof (grav_outcome cts c _ D (P + P') _ field scale k Hsa Hla Hk)
      as Hnp.
    do 2 eexists. split; [exact Hr|]. split; [exact Hr'|].
    rewrite Hnp, gravity_sums_prisms_app by assumption.
    unfold gravity_sums. now rewrite grav_scaling_add1 by assumption.
Qed.

Lemma X7_superposition_witness :
  rectangular_prism.iterate_over_vertices origin_point
    (prisms_app unit_prism (mk_prisms [3] [4] [3] [4] [3] [4]))
    ([1] ++ [2]) rectangular_prism.kernel_z
  = np.add1
      (rectangular_prism.iterate_over_vertices origin_point unit_prism [1]
         rectangular_prism.kernel_z)
      (rectangular_prism.iterate_over_vertices origin_point
         (mk_prisms [3] [4] [3] [4] [3] [4]) [2] rectangular_prism.kernel_z).
Proof.
  destruct (X7_superposition si_constants origin_point unit_prism
              (mk_prisms [3] [4] [3] [4] [3] [4]) 1 1 1 [1] [2])
    as [Heng _]; [reflexivity | reflexivity | reflexivity | reflexivity |].
  destruct (Heng rectangular_prism.kernel_z rectangular_prism_numba.kernel_dz
              Spec.K_z) as [H _]; [unfold kernel_table; simpl; tauto|].
  exact H.
Defined.

(** X8: the observation points are evaluated independently of each other:
    the field on two point collections taken together is the field on the
    first followed by the field on the second; for both strategies and every
    kernel, and for [grav] with every field name, scaled or not. *)
Theorem X8_points_independent (cts : constants) (c c' : coordinates_dict)
    (p : prisms_dict) (D D' P : nat) (sigma : np.array1) :
  shapes_ok c p D P = true -> shapes_ok c' p D' P = true ->
  length sigma = P ->
  (forall K f k, In (K, f, k) kernel_table ->
     rectangular_prism.iterate_over_vertices (coordinates_app c c') p sigma K
     = rectangular_prism.iterate_over_vertices c p sigma K
       ++ rectangular_prism.iterate_over_vertices c' p sigma K
     /\ rectangular_prism_numba.jit_grav
          (coordinates_array (coordinates_app c c')) (prisms_array p)
          sigma f (np.zeros (D + D'))
        = rectangular_prism_numba.jit_grav (coordinates_array c)
            (prisms_array p) sigma f (np.zeros D)
          ++ rectangular_prism_numba.jit_grav (coordinates_array c')
               (prisms_array p) sigma f (np.zeros D'))
  /\ (forall (field : string) (scale : bool), In field Spec.gravity_fields ->
        exists r r' : np.array1,
          outcome (rectangular_prism.grav cts c p sigma field scale) = inr r
          /\ outcome (rectangular_prism.grav cts c' p sigma field scale)
             = inr r'
          /\ outcome (rectangular_prism.grav cts (coordinates_app c c') p
                        sigma field scale)
             = inr (r ++ r')).
Proof.
  intros Hs Hs' Hlen.
  pose proof (shapes_coordinates_app c c' p D D' P Hs Hs') as Hsa.
  split.
  - intros K f k Hin. destruct (kernel_table_agrees K f k Hin) as [HK Hf].
    rewrite (iterate_over_vertices_sum _ p (D + D') P sigma K k Hsa HK Hlen).
    rewrite (iterate_over_vertices_sum c p D P sigma K k Hs HK Hlen).
    rewrite (iterate_over_vertices_sum c' p D' P sigma K k Hs' HK Hlen).
    rewrite (jit_grav_zeros _ p (D + D') P sigma f k Hsa Hf).
    rewrite (jit_grav_zeros c p D P sigma f k Hs Hf).
    rewrite (jit_grav_zeros c' p D' P sigma f k Hs' Hf).
    fold (gravity_sums k (coordinates_app c c') p (D + D') P sigma).
    fold (gravity_sums k c p D P sigma). fold (gravity_sums k c' p D' P sigma).
    rewrite (gravity_sums_coordinates_app k c c' p D D' P sigma Hs).
    split; reflexivity.
  - intros field scale Hin.
    destruct (grav_dispatch field)
      as [(_ & _ & _ & Hout) | (K & f & k & _ & _ & Hk & _)];
      [contradiction|].
    pose proof (grav_outcome cts c p D P sigma field scale k Hs Hlen Hk)
      as Hr.
    pose proof (grav_outcome cts c' p D' P sigma field scale k Hs' Hlen Hk)
      as Hr'.
    pose proof (grav_outcome cts _ p (D + D') P sigma field scale k Hsa Hlen Hk)
      as Hnp.
    do 2 eexists. split; [exact Hr|]. split; [exact Hr'|].
    rewrite Hnp, (gravity_sums_coordinates_app k c c' p D D' P sigma Hs).
    now rewrite grav_scaling_app.
Qed.

Lemma X8_points_independent_witness :
  rectangular_prism.iterate_over_vertices
    (coordinates_app origin_point (mk_coordinates [5] [5] [5]))
    unit_prism [1] rectangular_prism.kernel_z
  = rectangular_prism.iterate_over_vertices origin_point unit_prism [1]
      rectangular_prism.kernel_z
    ++ rectangular_prism.iterate_over_vertices (mk_coordinates [5] [5] [5])
         unit_prism [1] rectangular_prism.kernel_z.
Proof.
  destruct (X8_points_independent si_constants origin_point
              (mk_coordinates [5] [5] [5]) unit_prism 1 1 1 [1])
    as [Heng _]; [reflexivity | reflexivity | reflexivity |].
  destruct (Heng rectangular_prism.kernel_z rectangular_prism_numba.kernel_dz
              Spec.K_z) as [H _]; [unfold kernel_table; simpl; tauto|].
  exact H.
Defined.

(** ** Translation of the whole model *)

Lemma get_map_plus (t : R) (a : np.array1) (q : nat) :
  (q < length a)%nat -> (map (Rplus t) a).[q] = t + a.[q].
Proof.
  intros Hq. unfold np.get.
  rewrite (nth_indep _ 0 (t + 0)) by now rewrite length_map.
  apply map_nth.
Qed.

Lemma corner_sum_translate (k : Spec.kernel) (tx ty tz : R)
    (pt : Spec.point) (b : Spec.prism) :
  Spec.corner_sum k
    (Spec.mk_point (tx + Spec.px pt) (ty + Spec.py pt) (tz + Spec.pz pt))
    (Spec.mk_prism (tx + Spec.x1 b) (tx + Spec.x2 b)
                   (ty + Spec.y1 b) (ty + Spec.y2 b)
                   (tz + Spec.z1 b) (tz + Spec.z2 b))
  = Spec.corner_sum k pt b.
Proof.
  rewrite !corner_sum_eight. unfold Spec.at_corner.
  cbn [Spec.face Spec.x1 Spec.x2 Spec.y1 Spec.y2 Spec.z1 Spec.z2
       Spec.px Spec.py Spec.pz].
  replace (tx + Spec.x1 b - (tx + Spec.px pt)) with (Spec.x1 b - Spec.px pt)
    by ring.
  replace (tx + Spec.x2 b - (tx + Spec.px pt)) with (Spec.x2 b - Spec.px pt)
    by ring.
  replace (ty + Spec.y1 b - (ty + Spec.py pt)) with (Spec.y1 b - Spec.py pt)
    by ring.
  replace (ty + Spec.y2 b - (ty + Spec.py pt)) with (Spec.y2 b - Spec.py pt)
    by ring.
  replace (tz + Spec.z1 b - (tz + Spec.pz pt)) with (Spec.z1 b - Spec.pz pt)
    by ring.
  replace (tz + Spec.z2 b - (tz + Spec.pz pt)) with (Spec.z2 b - Spec.pz pt)
    by ring.
  reflexivity.
Qed.

Lemma shapes_translate (tx ty tz : R) (c : coordinates_dict) (p : prisms_dict)
    (D P : nat) :
  shapes_ok c p D P = true ->
  shapes_ok (translate_coordinates tx ty tz c) (translate_prisms tx ty tz p)
    D P = true.
Proof.
  unfold shapes_ok, check.all_of_length, np.size.
  cbn [forallb getitem coordinates_getitem prisms_getitem
       translate_coordinates translate_prisms
       key_x key_y key_z key_x1 key_x2 key_y1 key_y2 key_z1 key_z2].
  now rewrite !length_map.
Qed.

Lemma corner_sum_translated (k : Spec.kernel) (tx ty tz : R)
    (c : coordinates_dict) (p : prisms_dict) (D P l q : nat) :
  shapes_ok c p D P = true -> (l < D)%nat -> (q < P)%nat ->
  Spec.corner_sum k (point_at (translate_coordinates tx ty tz c) l)
                    (prism_at (translate_prisms tx ty tz p) q)
  = Spec.corner_sum k (point_at c l) (prism_at p q).
Proof.
  intros Hs Hl Hq.
  pose proof (shapes_ok_lengths c p D P Hs)
    as ((Hx & Hy & Hz) & (H1 & H2 & H3 & H4 & H5 & H6)).
  rewrite <- (corner_sum_translate k tx ty tz (point_at c l) (prism_at p q)).
  unfold point_at, prism_at.
  cbn [getitem coordinates_getitem prisms_getitem
       translate_coordinates translate_prisms
       key_x key_y key_z key_x1 key_x2 key_y1 key_y2 key_z1 key_z2
       Spec.x1 Spec.x2 Spec.y1 Spec.y2 Spec.z1 Spec.z2
       Spec.px Spec.py Spec.pz].
  now rewrite !get_map_plus by lia.
Qed.

Lemma gravity_sums_translate (k : Spec.kernel) (tx ty tz : R)
    (c : coordinates_dict) (p : prisms_dict) (D P : nat) (sigma : np.array1) :
  shapes_ok c p D P = true ->
  gravity_sums k (translate_coordinates tx ty tz c)
    (translate_prisms tx ty tz p) D P sigma
  = gravity_sums k c p D P sigma.
Proof.
  intros Hs. unfold gravity_sums. apply map_range_ext; intros l Hl.
  apply sum_over_ext; intros q Hq. apply in_seq in Hq.
  now rewrite (corner_sum_translated k tx ty tz c p D P l q Hs) by lia.
Qed.

Lemma magnetic_sums_translate (kx ky kz : Spec.kernel) (tx ty tz : R)
    (c : coordinates_dict) (p : prisms_dict) (D P : nat)
    (mx my mz : np.array1) :
  shapes_ok c p D P = true ->
  magnetic_sums kx ky kz (translate_coordinates tx ty tz c)
    (translate_prisms tx ty tz p) D P mx my mz
  = magnetic_sums kx ky kz c p D P mx my mz.
Proof.
  intros Hs. rewrite !magnetic_sums_gravity.
  now rewrite !gravity_sums_translate.
Qed.

(** X9: in real arithmetic the field depends on the positions of the
    prisms relative to the points only: moving every point and every prism
    by the same vector (tx, ty, tz) leaves every output the same real
    numbers; for both strategies and every kernel, and for every supported
    field of [grav] and [mag], scaled or not.  (In floating point the
    differences corner minus point are rounded after the move, so the
    equality is one of the real-number model only.) *)
Theorem X9_translation_invariant (cts : constants) (tx ty tz : R)
    (c : coordinates_dict) (p : prisms_dict) (D P : nat) :
  shapes_ok c p D P = true ->
  let c' := translate_coordinates tx ty tz c in
  let p' := translate_prisms tx ty tz p in
  (forall K f k (sigma : np.array1),
     In (K, f, k) kernel_table -> length sigma = P ->
     rectangular_prism.iterate_over_vertices c' p' sigma K
     = rectangular_prism.iterate_over_vertices c p sigma K
     /\ rectangular_prism_numba.jit_grav (coordinates_array c')
          (prisms_array p') sigma f (np.zeros D)
        = rectangular_prism_numba.jit_grav (coordinates_array c)
            (prisms_array p) sigma f (np.zeros D))
  /\ (forall (density : np.array1) (field : string) (scale : bool),
        length density = P -> In field Spec.gravity_fields ->
        outcome (rectangular_prism.grav cts c' p' density field scale)
        = outcome (rectangular_prism.grav cts c p density field scale))
  /\ (forall (mx my mz : np.array1) (field : string) (scale : bool),
        length mx = P -> length my = P -> length mz = P ->
        In field Spec.magnetic_fields ->
        outcome (rectangular_prism.mag cts c' p' mx my mz field scale)
        = outcome (rectangular_prism.mag cts c p mx my mz field scale)).
Proof.
  intros Hs c' p'. subst c' p'.
  pose proof (shapes_translate tx ty tz c p D P Hs) as Hs'.
  split; [|split].
  - intros K f k sigma Hin Hlen.
    destruct (kernel_table_agrees K f k Hin) as [HK Hf].
    rewrite (iterate_over_vertices_sum _ _ D P sigma K k Hs' HK Hlen).
    rewrite (iterate_over_vertices_sum c p D P sigma K k Hs HK Hlen).
    rewrite (jit_grav_zeros _ _ D P sigma f k Hs' Hf).
    rewrite (jit_grav_zeros c p D P sigma f k Hs Hf).
    fold (gravity_sums k (translate_coordinates tx ty tz c)
            (translate_prisms tx ty tz p) D P sigma).
    rewrite gravity_sums_translate by assumption. split; reflexivity.
  - intros density field scale Hlen Hin.
    destruct (grav_dispatch field)
      as [(_ & _ & _ & Hout) | (K & f & k & _ & _ & Hk & _)];
      [contradiction|].
    rewrite (grav_outcome cts _ _ D P density field scale k Hs' Hlen Hk).
    rewrite (grav_outcome cts c p D P density field scale k Hs Hlen Hk).
    now rewrite gravity_sums_translate by assumption.
  - intros mx my mz field scale Hmx Hmy Hmz Hin.
    destruct (mag_dispatch field)
      as [(_ & _ & _ & Hout)
         | (Kx & Ky & Kz & fx & fy & fz & kx & ky & kz & _ & _ & Hk & _)];
      [contradiction|].
    rewrite (mag_outcome cts _ _ D P mx my mz field scale kx ky kz
               Hs' Hmx Hmy Hmz Hk).
    rewrite (mag_outcome cts c p D P mx my mz field scale kx ky kz
               Hs Hmx Hmy Hmz Hk).
    now rewrite magnetic_sums_translate by assumption.
Qed.

Lemma X9_translation_invariant_witness :
  outcome (rectangular_prism.grav si_constants
             (translate_coordinates 10 20 30 origin_point)
             (translate_prisms 10 20 30 unit_prism) [1000] "z" true)
  = outcome (rectangular_prism.grav si_constants origin_point unit_prism
               [1000] "z" true).
Proof.
  destruct (X9_translation_invariant si_constants 10 20 30 origin_point
              unit_prism 1 1) as (_ & Hgrav & _); [reflexivity|].
  apply (Hgrav [1000] "z"%string true); [reflexivity | simpl; tauto].
Defined.

(** ** The kernels under a relabelling of the axes *)

Lemma distance_swap_xy (X Y Z : R) :
  sqrt (Y ^ 2 + X ^ 2 + Z ^ 2) = sqrt (X ^ 2 + Y ^ 2 + Z ^ 2).
Proof. f_equal. ring. Qed.

Lemma distance_swap_xz (X Y Z : R) :
  sqrt (Z ^ 2 + Y ^ 2 + X ^ 2) = sqrt (X ^ 2 + Y ^ 2 + Z ^ 2).
Proof. f_equal. ring. Qed.

Lemma distance_swap_yz (X Y Z : R) :
  sqrt (X ^ 2 + Z ^ 2 + Y ^ 2) = sqrt (X ^ 2 + Y ^ 2 + Z ^ 2).
Proof. f_equal. ring. Qed.

(** X10: the kernels of one order are one formula, up to the names of the
    axes: the y and z first derivatives are the x first derivative with the
    arguments exchanged, and likewise xx, yy, zz and xy, xz, yz; the potential
    kernel does not change when two arguments are exchanged.  For the scalar
    kernels, and for the array kernels of first and second order. *)
Theorem X10_kernels_relabelled :
  (forall X Y Z : R,
     rectangular_prism_numba.kernel_dy X Y Z
     = rectangular_prism_numba.kernel_dx Y X Z
     /\ rectangular_prism_numba.kernel_dz X Y Z
        = rectangular_prism_numba.kernel_dx Z Y X
     /\ rectangular_prism_numba.kernel_dyy X Y Z
        = rectangular_prism_numba.kernel_dxx Y X Z
     /\ rectangular_prism_numba.kernel_dzz X Y Z
        = rectangular_prism_numba.kernel_dxx Z Y X
     /\ rectangular_prism_numba.kernel_dxz X Y Z
        = rectangular_prism_numba.kernel_dxy X Z Y
     /\ rectangular_prism_numba.kernel_dyz X Y Z
        = rectangular_prism_numba.kernel_dxy Z Y X
     /\ rectangular_prism_numba.kernel_inverse_r Y X Z
        = rectangular_prism_numba.kernel_inverse_r X Y Z
     /\ rectangular_prism_numba.kernel_inverse_r X Z Y
        = rectangular_prism_numba.kernel_inverse_r X Y Z)
  /\ (forall X Y Z R : np.array2,
        rectangular_prism.kernel_y X Y Z R = rectangular_prism.kernel_x Y X Z R
        /\ rectangular_prism.kernel_z X Y Z R
           = rectangular_prism.kernel_x Z Y X R
        /\ rectangular_prism.kernel_yy X Y Z R
           = rectangular_prism.kernel_xx Y X Z R
        /\ rectangular_prism.kernel_zz X Y Z R
           = rectangular_prism.kernel_xx Z Y X R
        /\ rectangular_prism.kernel_xz X Y Z R
           = rectangular_prism.kernel_xy X Z Y R
        /\ rectangular_prism.kernel_yz X Y Z R
           = rectangular_prism.kernel_xy Z Y X R).
Proof.
  split.
  - intros X Y Z.
    unfold rectangular_prism_numba.kernel_dx, rectangular_prism_numba.kernel_dy,
      rectangular_prism_numba.kernel_dz, rectangular_prism_numba.kernel_dxx,
      rectangular_prism_numba.kernel_dyy, rectangular_prism_numba.kernel_dzz,
      rectangular_prism_numba.kernel_dxy, rectangular_prism_numba.kernel_dxz,
      rectangular_prism_numba.kernel_dyz,
      rectangular_prism_numba.kernel_inverse_r.
    cbv zeta.
    rewrite !(distance_swap_xy X Y Z), !(distance_swap_xz X Y Z),
      !(distance_swap_yz X Y Z).
    repeat split; try reflexivity.
    + rewrite (Rmult_comm X Y). ring.
    + rewrite (Rmult_comm Y Z). ring.
  - intros X Y Z R. repeat split; reflexivity.
Qed.

(** ** Points in a mid-plane of a prism *)

Lemma corner_sum_mid_plane (pt : Spec.point) (b : Spec.prism) :
  (mid_plane_x pt b \/ mid_plane_y pt b -> Spec.corner_sum Spec.K_xy pt b = 0)
  /\ (mid_plane_x pt b \/ mid_plane_z pt b ->
      Spec.corner_sum Spec.K_xz pt b = 0)
  /\ (mid_plane_y pt b \/ mid_plane_z pt b ->
      Spec.corner_sum Spec.K_yz pt b = 0).
Proof.
  unfold mid_plane_x, mid_plane_y, mid_plane_z.
  rewrite !corner_sum_eight.
  unfold Spec.at_corner, Spec.K_xy, Spec.K_xz, Spec.K_yz. cbn [Spec.face].
  set (X2 := Spec.x2 b - Spec.px pt). set (Y2 := Spec.y2 b - Spec.py pt).
  set (Z2 := Spec.z2 b - Spec.pz pt).
  repeat split; intros [H | H]; rewrite H;
    replace ((- X2) ^ 2) with (X2 ^ 2) by ring;
    replace ((- Y2) ^ 2) with (Y2 ^ 2) by ring;
    replace ((- Z2) ^ 2) with (Z2 ^ 2) by ring; ring.
Qed.

Lemma gravity_sums_zero (k : Spec.kernel) (c : coordinates_dict)
    (p : prisms_dict) (D P : nat) (density : np.array1) :
  (forall l q, (l < D)%nat -> (q < P)%nat ->
     Spec.corner_sum k (point_at c l) (prism_at p q) = 0) ->
  gravity_sums k c p D P density = np.zeros D.
Proof.
  intros H. rewrite zeros_range. unfold gravity_sums.
  apply map_range_ext; intros l Hl. apply sum_over_zero; intros q Hq.
  apply in_seq in Hq. rewrite H by lia. ring.
Qed.

(** X11: the mixed second derivatives vanish by symmetry.  When every
    observation point lies, for every prism, in the plane midway between its
    two x faces or in the one midway between its two y faces, the field xy of
    [grav] is an array of zeros, scaled or not, and so is what [jit_grav]
    computes with [kernel_dxy]; likewise xz with the x or z mid-plane and yz
    with the y or z mid-plane.  Exact in real arithmetic. *)
Theorem X11_mixed_derivatives_vanish (cts : constants) (c : coordinates_dict)
    (p : prisms_dict) (D P : nat) (density : np.array1) (scale : bool) :
  shapes_ok c p D P = true -> length density = P ->
  ((forall l q, (l < D)%nat -> (q < P)%nat ->
      mid_plane_x (point_at c l) (prism_at p q)
      \/ mid_plane_y (point_at c l) (prism_at p q)) ->
   outcome (rectangular_prism.grav cts c p density "xy" scale)
   = inr (np.zeros D)
   /\ rectangular_prism_numba.jit_grav (coordinates_array c) (prisms_array p)
        density rectangular_prism_numba.kernel_dxy (np.zeros D)
      = np.zeros D)
  /\ ((forall l q, (l < D)%nat -> (q < P)%nat ->
         mid_plane_x (point_at c l) (prism_at p q)
         \/ mid_plane_z (point_at c l) (prism_at p q)) ->
      outcome (rectangular_prism.grav cts c p density "xz" scale)
      = inr (np.zeros D)
      /\ rectangular_prism_numba.jit_grav (coordinates_array c)
           (prisms_array p) density rectangular_prism_numba.kernel_dxz
           (np.zeros D)
         = np.zeros D)
  /\ ((forall l q, (l < D)%nat -> (q < P)%nat ->
         mid_plane_y (point_at c l) (prism_at p q)
         \/ mid_plane_z (point_at c l) (prism_at p q)) ->
      outcome (rectangular_prism.grav cts c p density "yz" scale)
      = inr (np.zeros D)
      /\ rectangular_prism_numba.jit_grav (coordinates_array c)
           (prisms_array p) density rectangular_prism_numba.kernel_dyz
           (np.zeros D)
         = np.zeros D).
Proof.
  intros Hs Hlen. split; [|split]; intros Hmid.
  - rewrite (grav_outcome cts c p D P density "xy" scale Spec.K_xy
               Hs Hlen eq_refl).
    rewrite (jit_grav_zeros c p D P density _ Spec.K_xy Hs
               kernel_dxy_recomputes).
    fold (gravity_sums Spec.K_xy c p D P density).
    rewrite gravity_sums_zero, grav_scaling_zeros; [split; reflexivity|].
    intros l q Hl Hq. apply corner_sum_mid_plane. now apply Hmid.
  - rewrite (grav_outcome cts c p D P density "xz" scale Spec.K_xz
               Hs Hlen eq_refl).
    rewrite (jit_grav_zeros c p D P density _ Spec.K_xz Hs
               kernel_dxz_recomputes).
    fold (gravity_sums Spec.K_xz c p D P density).
    rewrite gravity_sums_zero, grav_scaling_zeros; [split; reflexivity|].
    intros l q Hl Hq. apply corner_sum_mid_plane. now apply Hmid.
  - rewrite (grav_outcome cts c p D P density "yz" scale Spec.K_yz
               Hs Hlen eq_refl).
    rewrite (jit_grav_zeros c p D P density _ Spec.K_yz Hs
               kernel_dyz_recomputes).
    fold (gravity_sums Spec.K_yz c p D P density).
    rewrite gravity_sums_zero, grav_scaling_zeros; [split; reflexivity|].
    intros l q Hl Hq. apply corner_sum_mid_plane. now apply Hmid.
Qed.

Lemma X11_mixed_derivatives_vanish_witness :
  outcome (rectangular_prism.grav si_constants origin_point
             (mk_prisms [-1] [1] [1] [2] [1] [2]) [1000] "xy" true)
  = inr (np.zeros 1).
Proof.
  destruct (X11_mixed_derivatives_vanish si_constants origin_point
              (mk_prisms [-1] [1] [1] [2] [1] [2]) 1 1 [1000] true)
    as ([H _] & _); [reflexivity | reflexivity | | exact H].
  intros l q Hl Hq. left.
  destruct l; [|lia]. destruct q; [|lia].
  unfold mid_plane_x, point_at, prism_at, np.get, getitem, prisms_getitem,
    coordinates_getitem, origin_point.
  simpl. lra.
Defined.

(** ** Linearity in the magnetization *)

Lemma magnetic_sums_lincomb (kx ky kz : Spec.kernel) (c : coordinates_dict)
    (p : prisms_dict) (D P : nat) (a b : R)
    (mx my mz mx' my' mz' : np.array1) :
  length mx = P -> length my = P -> length mz = P ->
  length mx' = P -> length my' = P -> length mz' = P ->
  magnetic_sums kx ky kz c p D P
    (lincomb a mx b mx') (lincomb a my b my') (lincomb a mz b mz')
  = lincomb a (magnetic_sums kx ky kz c p D P mx my mz)
            b (magnetic_sums kx ky kz c p D P mx' my' mz').
Proof.
  intros Hx Hy Hz Hx' Hy' Hz'.
  rewrite !magnetic_sums_gravity, !gravity_sums_lincomb by assumption.
  unfold gravity_sums. rewrite !lincomb_range, !add1_range, lincomb_range.
  apply map_ext; intros l. ring.
Qed.

Lemma mag_scaling_lincomb (cts : constants) (field : string) (scale : bool)
    (D : nat) (g h : nat -> R) (a b : R) :
  In field Spec.magnetic_fields ->
  mag_scaling cts field scale
    (lincomb a (map g (np.range D)) b (map h (np.range D)))
  = lincomb a (mag_scaling cts field scale (map g (np.range D)))
            b (mag_scaling cts field scale (map h (np.range D))).
Proof.
  intros Hin. destruct scale; [|reflexivity].
  rewrite !mag_scaling_factor by assumption.
  rewrite lincomb_range, !imul1_range, lincomb_range.
  apply map_ext; intros l. ring.
Qed.

Lemma lincomb_length (P : nat) (a b : R) (sigma sigma' : np.array1) :
  length sigma = P -> length sigma' = P ->
  length (lincomb a sigma b sigma') = P.
Proof.
  intros H H'. rewrite (lincomb_arrays P sigma sigma' a b H H').
  apply range_length.
Qed.

(** X12: the output of [mag] is linear in the magnetization: for
    magnetizations (mx, my, mz) and (mx', my', mz') of P prisms and factors a
    and b, the field of a * m + b * m' is a times the field of m plus b
    times the field of m'; for every field name, scaled or not.  So is what
    [jit_mag] computes with the three kernels that the dictionary [fields]
    of the numba module gives for the name.  Exact in real arithmetic. *)
Theorem X12_linear_in_magnetization (cts : constants) (c : coordinates_dict)
    (p : prisms_dict) (D P : nat) (a b : R)
    (mx my mz mx' my' mz' : np.array1) (field : string) (scale : bool) :
  shapes_ok c p D P = true ->
  length mx = P -> length my = P -> length mz = P ->
  length mx' = P -> length my' = P -> length mz' = P ->
  In field Spec.magnetic_fields ->
  (exists r r' : np.array1,
     outcome (rectangular_prism.mag cts c p mx my mz field scale) = inr r
     /\ outcome (rectangular_prism.mag cts c p mx' my' mz' field scale) = inr r'
     /\ outcome (rectangular_prism.mag cts c p (lincomb a mx b mx')
                   (lincomb a my b my') (lincomb a mz b mz') field scale)
        = inr (lincomb a r b r'))
  /\ (exists fx fy fz,
        lookup field rectangular_prism_numba.mag_fields = Some (fx, fy, fz)
        /\ rectangular_prism_numba.jit_mag (coordinates_array c)
             (prisms_array p) (lincomb a mx b mx') (lincomb a my b my')
             (lincomb a mz b mz') fx fy fz (np.zeros D)
           = lincomb a
               (rectangular_prism_numba.jit_mag (coordinates_array c)
                  (prisms_array p) mx my mz fx fy fz (np.zeros D))
               b
               (rectangular_prism_numba.jit_mag (coordinates_array c)
                  (prisms_array p) mx' my' mz' fx fy fz (np.zeros D))).
Proof.
  intros Hs Hx Hy Hz Hx' Hy' Hz' Hin.
  destruct (mag_dispatch field)
    as [(_ & _ & _ & Hout)
       | (Kx & Ky & Kz & fx & fy & fz & kx & ky & kz
          & _ & Hf & Hk & Hinx & Hiny & Hinz & _)];
    [contradiction|].
  split.
  - pose proof (mag_outcome cts c p D P mx my mz field scale kx ky kz
                  Hs Hx Hy Hz Hk) as Hr.
    pose proof (mag_outcome cts c p D P mx' my' mz' field scale kx ky kz
                  Hs Hx' Hy' Hz' Hk) as Hr'.
    assert (Hnp := mag_outcome cts c p D P (lincomb a mx b mx')
                     (lincomb a my b my') (lincomb a mz b mz') field scale
                     kx ky kz Hs (lincomb_length P a b mx mx' Hx Hx')
                     (lincomb_length P a b my my' Hy Hy')
                     (lincomb_length P a b mz mz' Hz Hz') Hk).
    do 2 eexists. split; [exact Hr|]. split; [exact Hr'|].
    rewrite Hnp, magnetic_sums_lincomb by assumption.
    unfold magnetic_sums. now rewrite mag_scaling_lincomb by assumption.
  - destruct (kernel_table_agrees _ _ _ Hinx) as [_ Hfx].
    destruct (kernel_table_agrees _ _ _ Hiny) as [_ Hfy].
    destruct (kernel_table_agrees _ _ _ Hinz) as [_ Hfz].
    exists fx, fy, fz. split; [assumption|].
    rewrite !(jit_mag_zeros c p D P _ _ _ fx fy fz kx ky kz Hs Hfx Hfy Hfz).
    fold (magnetic_sums kx ky kz c p D P (lincomb a mx b mx')
            (lincomb a my b my') (lincomb a mz b mz')).
    fold (magnetic_sums kx ky kz c p D P mx my mz).
    fold (magnetic_sums kx ky kz c p D P mx' my' mz').
    now apply magnetic_sums_lincomb.
Qed.

Lemma X12_linear_in_magnetization_witness :
  exists r r' : np.array1,
    outcome (rectangular_prism.mag si_constants origin_point unit_prism
               [1] [0] [0] "z" true) = inr r
    /\ outcome (rectangular_prism.mag si_constants origin_point unit_prism
                  [0] [0] [1] "z" true) = inr r'
    /\ outcome (rectangular_prism.mag si_constants origin_point unit_prism
                  (lincomb 2 [1] 3 [0]) (lincomb 2 [0] 3 [0])
                  (lincomb 2 [0] 3 [1]) "z" true)
       = inr (lincomb 2 r 3 r').
Proof.
  destruct (X12_linear_in_magnetization si_constants origin_point unit_prism
              1 1 2 3 [1] [0] [0] [0] [0] [1] "z" true)
    as ((r & r' & H1 & H2 & H3) & _);
    [reflexivity | reflexivity | reflexivity | reflexivity | reflexivity
    | reflexivity | reflexivity | simpl; tauto |].
  exists r, r'. repeat split; assumption.
Defined.

(** ** The order of the prisms *)

Lemma add1_range_comm (D : nat) (g h : nat -> R) :
  np.add1 (map g (np.range D)) (map h (np.range D))
  = np.add1 (map h (np.range D)) (map g (np.range D)).
Proof. rewrite !add1_range. apply map_ext; intros l. ring. Qed.

(** X13: the order in which two prism collections are listed does not
    change the field: for both strategies and every kernel, and for [grav]
    with every supported field name, scaled or not.  Exact in real
    arithmetic. *)
Theorem X13_prism_order (cts : constants) (c : coordinates_dict)
    (p p' : prisms_dict) (D P P' : nat) (sigma sigma' : np.array1) :
  shapes_ok c p D P = true -> shapes_ok c p' D P' = true ->
  length sigma = P -> length sigma' = P' ->
  (forall K f k, In (K, f, k) kernel_table ->
     rectangular_prism.iterate_over_vertices c (prisms_app p p')
       (sigma ++ sigma') K
     = rectangular_prism.iterate_over_vertices c (prisms_app p' p)
         (sigma' ++ sigma) K
     /\ rectangular_prism_numba.jit_grav (coordinates_array c)
          (prisms_array (prisms_app p p')) (sigma ++ sigma') f (np.zeros D)
        = rectangular_prism_numba.jit_grav (coordinates_array c)
            (prisms_array (prisms_app p' p)) (sigma' ++ sigma) f (np.zeros D))
  /\ (forall (field : string) (scale : bool), In field Spec.gravity_fields ->
        outcome (rectangular_prism.grav cts c (prisms_app p p')
                   (sigma ++ sigma') field scale)
        = outcome (rectangular_prism.grav cts c (prisms_app p' p)
                     (sigma' ++ sigma) field scale)).
Proof.
  intros Hs Hs' Hlen Hlen'.
  pose proof (shapes_prisms_app c p p' D P P' Hs Hs') as Hsa.
  pose proof (shapes_prisms_app c p' p D P' P Hs' Hs) as Hsb.
  assert (Hla : length (sigma ++ sigma') = (P + P')%nat)
    by (rewrite length_app; lia).
  assert (Hlb : length (sigma' ++ sigma) = (P' + P)%nat)
    by (rewrite length_app; lia).
  assert (Hsums : forall k,
            gravity_sums k c (prisms_app p p') D (P + P') (sigma ++ sigma')
            = gravity_sums k c (prisms_app p' p) D (P' + P) (sigma' ++ sigma)).
  { intros k. rewrite !gravity_sums_prisms_app by assumption.
    unfold gravity_sums. apply add1_range_comm. }
  split.
  - intros K f k Hin. destruct (kernel_table_agrees K f k Hin) as [HK Hf].
    rewrite (iterate_over_vertices_sum c _ D (P + P') _ K k Hsa HK Hla).
    rewrite (iterate_over_vertices_sum c _ D (P' + P) _ K k Hsb HK Hlb).
    rewrite (jit_grav_zeros c _ D (P + P') _ f k Hsa Hf).
    rewrite (jit_grav_zeros c _ D (P' + P) _ f k Hsb Hf).
    fold (gravity_sums k c (prisms_app p p') D (P + P') (sigma ++ sigma')).
    fold (gravity_sums k c (prisms_app p' p) D (P' + P) (sigma' ++ sigma)).
    rewrite Hsums. split; reflexivity.
  - intros field scale Hin.
    destruct (grav_dispatch field)
      as [(_ & _ & _ & Hout) | (K & f & k & _ & _ & Hk & _)];
      [contradiction|].
    rewrite (grav_outcome cts c _ D (P + P') _ field scale k Hsa Hla Hk).
    rewrite (grav_outcome cts c _ D (P' + P) _ field scale k Hsb Hlb Hk).
    now rewrite Hsums.
Qed.

Lemma X13_prism_order_witness :
  outcome (rectangular_prism.grav si_constants origin_point
             (prisms_app unit_prism (mk_prisms [3] [4] [3] [4] [3] [4]))
             ([1] ++ [2]) "z" true)
  = outcome (rectangular_prism.grav si_constants origin_point
               (prisms_app (mk_prisms [3] [4] [3] [4] [3] [4]) unit_prism)
               ([2] ++ [1]) "z" true).
Proof.
  destruct (X13_prism_order si_constants origin_point unit_prism
              (mk_prisms [3] [4] [3] [4] [3] [4]) 1 1 1 [1] [2])
    as [_ Htop]; [reflexivity | reflexivity | reflexivity | reflexivity |].
  apply (Htop "z"%string true). simpl. tauto.
Defined.
